(** * DeepPlace: geometry, placement, extraction and packing

    A shallow embedding of the algorithmic core of the repository:

    - [backend/data_gen/generate_images.py]: the random boxes, the overlap
      test, the randomized placer with its grid fallback, the crop bounds
      and the rendering,
    - [backend/data_gen/solutions_gen.py]: the colour based extractor, the
      candidate-bin search around the [rectpack] library and the rendering,
    - [backend/src/validation.py]: the occupancy mask of the detector, the
      box around all rectangles and the gap counts,
    - [backend/src/preprocess.py]: the colour strings.

    Python integers are unbounded, so they are [Z].  A Python list that is
    updated by index is a [list] with stdpp's lookup and insert; a list of
    references into it is a list of indices.  Exceptions are the [Raise]
    branch of [result]. *)

From Stdlib Require Import ZArith Lia Bool Sorted.
From stdpp Require Import base list strings gmap.

Local Open Scope Z_scope.

(** ** Exceptions and results *)

Inductive exn : Type :=
| ValueError
| RuntimeError
| IndexError.

Inductive result (A : Type) : Type :=
| Ok (a : A)
| Raise (e : exn).
Arguments Ok {A} a.
Arguments Raise {A} e.

#[global] Instance result_ret : MRet result := fun _ a => Ok a.
#[global] Instance result_bind : MBind result :=
  fun _ _ f r => match r with Ok a => f a | Raise e => Raise e end.

Definition rgb : Type := Z * Z * Z.

(** ** Python helpers *)

(** [range(start, stop, step)] for a positive [step]. *)
Definition py_range (start stop step : Z) : list Z :=
  map (fun i => start + step * Z.of_nat i)
      (seq 0 (Z.to_nat ((stop - start + step - 1) / step))).

(** [sorted] is stable.  [sort_by le] is the stable insertion sort that puts
    [a] before [b] when [le a b] and [a] came first. *)
Fixpoint insert_by {A} (le : A -> A -> bool) (a : A) (l : list A) : list A :=
  match l with
  | [] => [a]
  | b :: l' => if le a b then a :: b :: l' else b :: insert_by le a l'
  end.

Definition sort_by {A} (le : A -> A -> bool) (l : list A) : list A :=
  foldr (insert_by le) [] l.

(** [l.index(a)]: position of the first occurrence, [None] stands for the
    [ValueError] of Python. *)
Fixpoint py_index {A} `{EqDecision A} (a : A) (l : list A) : option nat :=
  match l with
  | [] => None
  | b :: l' => if decide (a = b) then Some 0%nat else S <$> py_index a l'
  end.

(** [min(...)] and [max(...)] over a non-empty list of integers. *)
Definition py_min (l : list Z) : result Z :=
  match l with
  | [] => Raise ValueError
  | a :: l' => Ok (foldl Z.min a l')
  end.

Definition py_max (l : list Z) : result Z :=
  match l with
  | [] => Raise ValueError
  | a :: l' => Ok (foldl Z.max a l')
  end.

Definition sumZ {A} (f : A -> Z) (l : list A) : Z :=
  foldr (fun a acc => f a + acc) 0 l.

(** ** generate_images.py *)

Module GenerateImages.

Definition COLORS : list (string * rgb) :=
  [ ("red"%string, (255, 0, 0));
    ("green"%string, (0, 255, 0));
    ("blue"%string, (0, 0, 255));
    ("orange"%string, (255, 165, 0));
    ("yellow"%string, (255, 255, 0)) ].

Definition IMAGE_WIDTH : Z := 800.
Definition IMAGE_HEIGHT : Z := 600.
Definition OUTLINE_WIDTH : Z := 2.

(** The dictionaries with keys ['x'], ['y'], ['width'], ['height'],
    ['color'], ['color_name']. *)
Record Box : Type := mkBox {
  box_x : Z;
  box_y : Z;
  box_width : Z;
  box_height : Z;
  box_color : rgb;
  box_color_name : string
}.

#[global] Instance Box_inhabited : Inhabited Box :=
  populate (mkBox 0 0 0 0 (0, 0, 0) "").

(** [box['x'], box['y'] = x, y] *)
Definition set_xy (b : Box) (x y : Z) : Box :=
  mkBox x y (box_width b) (box_height b) (box_color b) (box_color_name b).

Definition boxes_overlap (box_a box_b : Box) : bool :=
  let a_left := box_x box_a in
  let a_top := box_y box_a in
  let a_right := a_left + box_width box_a in
  let a_bottom := a_top + box_height box_a in
  let b_left := box_x box_b in
  let b_top := box_y box_b in
  let b_right := b_left + box_width box_b in
  let b_bottom := b_top + box_height box_b in
  if (a_right <=? b_left) || (a_left >=? b_right) then false
  else if (a_bottom <=? b_top) || (a_top >=? b_bottom) then false
  else true.

(** *** The random source

    [random.randint] is modelled over a stream of raw draws: the [k]-th call
    reduces the [k]-th draw into the requested range, so every value of the
    range can come out, and an empty range raises [ValueError] as in
    Python.  A computation threads the index of the next draw. *)

Section Placer.

Variable rng : nat -> Z.

Definition M (A : Type) : Type := nat -> result (A * nat).

Definition ret {A} (a : A) : M A := fun k => Ok (a, k).

Definition raise {A} (e : exn) : M A := fun _ => Raise e.

Definition bind {A B} (c : M A) (f : A -> M B) : M B :=
  fun k => match c k with
           | Ok (a, k') => f a k'
           | Raise e => Raise e
           end.

Notation "'do' x <- c ; f" := (bind c (fun x => f))
  (at level 10, x name, c at level 99, f at level 200).

Definition randint (lo hi : Z) : M Z :=
  fun k => if lo <=? hi then Ok (lo + rng k mod (hi - lo + 1), S k)
           else Raise ValueError.

(** [all(not boxes_overlap(box, other) for other in placed_boxes)], where
    [box] is [boxes_copy[idx]] and [placed_boxes] holds references to
    elements of [boxes_copy]. *)
Definition all_clear (boxes_copy : list Box) (idx : nat) (placed_boxes : list nat) : bool :=
  forallb (fun other => negb (boxes_overlap (boxes_copy !!! idx) (boxes_copy !!! other)))
          placed_boxes.

(** The loop [for _ in range(500)]; the flag is [placed]. *)
Fixpoint random_attempts (n : nat) (boxes_copy : list Box) (placed_boxes : list nat)
    (idx : nat) : M (list Box * bool) :=
  match n with
  | O => ret (boxes_copy, false)
  | S n' =>
      let box := boxes_copy !!! idx in
      do x <- randint 0 (IMAGE_WIDTH - box_width box) ;
      do y <- randint 0 (IMAGE_HEIGHT - box_height box) ;
      let boxes_copy' := <[idx := set_xy box x y]> boxes_copy in
      if all_clear boxes_copy' idx placed_boxes then ret (boxes_copy', true)
      else random_attempts n' boxes_copy' placed_boxes idx
  end.

(** The inner loop of the fallback, over the [x] positions of one row. *)
Fixpoint scan_row (boxes_copy : list Box) (placed_boxes : list nat) (idx : nat)
    (y : Z) (xs : list Z) : list Box * bool :=
  match xs with
  | [] => (boxes_copy, false)
  | x :: xs' =>
      let boxes_copy' := <[idx := set_xy (boxes_copy !!! idx) x y]> boxes_copy in
      if all_clear boxes_copy' idx placed_boxes then (boxes_copy', true)
      else scan_row boxes_copy' placed_boxes idx y xs'
  end.

(** The outer loop of the fallback, over the rows. *)
Fixpoint scan_grid (boxes_copy : list Box) (placed_boxes : list nat) (idx : nat)
    (ys xs : list Z) : list Box * bool :=
  match ys with
  | [] => (boxes_copy, false)
  | y :: ys' =>
      let '(boxes_copy', placed) := scan_row boxes_copy placed_boxes idx y xs in
      if placed then (boxes_copy', true)
      else scan_grid boxes_copy' placed_boxes idx ys' xs
  end.

Definition grid_search (boxes_copy : list Box) (placed_boxes : list nat) (idx : nat)
    : list Box * bool :=
  let box := boxes_copy !!! idx in
  let step := 5 in
  scan_grid boxes_copy placed_boxes idx
    (py_range 0 (IMAGE_HEIGHT - box_height box + 1) step)
    (py_range 0 (IMAGE_WIDTH - box_width box + 1) step).

(** The body of [for idx in order]. *)
Definition place_one (boxes_copy : list Box) (placed_boxes : list nat) (idx : nat)
    : M (list Box) :=
  do r <- random_attempts 500 boxes_copy placed_boxes idx ;
  let '(boxes_copy1, placed) := r in
  let '(boxes_copy2, placed) :=
    if placed then (boxes_copy1, true) else grid_search boxes_copy1 placed_boxes idx in
  if placed then ret boxes_copy2 else raise RuntimeError.

Fixpoint place_all (order : list nat) (boxes_copy : list Box) (placed_boxes : list nat)
    : M (list Box) :=
  match order with
  | [] => ret boxes_copy
  | idx :: order' =>
      do boxes_copy' <- place_one boxes_copy placed_boxes idx ;
      place_all order' boxes_copy' (placed_boxes ++ [idx])
  end.

Definition box_area (b : Box) : Z := box_width b * box_height b.

(** [sorted(range(len(boxes_copy)), key=area, reverse=True)] *)
Definition placement_order (boxes_copy : list Box) : list nat :=
  sort_by (fun i j => box_area (boxes_copy !!! j) <=? box_area (boxes_copy !!! i))
          (seq 0 (length boxes_copy)).

(** [sorted(boxes_copy, key=lambda box: color_order.index(box['color_name']))] *)
Definition sort_by_color (boxes_copy : list Box) : result (list Box) :=
  let color_order := map fst COLORS in
  match mapM (fun b => (fun k => (k, b)) <$> py_index (box_color_name b) color_order)
             boxes_copy with
  | None => Raise ValueError
  | Some keyed => Ok (map snd (sort_by (fun a b => (fst a <=? fst b)%nat) keyed))
  end.

Definition arrange_boxes_without_overlap (boxes : list Box) : M (list Box) :=
  let boxes_copy := boxes in
  let order := placement_order boxes_copy in
  do boxes_copy' <- place_all order boxes_copy [] ;
  match sort_by_color boxes_copy' with
  | Ok ordered_boxes => ret ordered_boxes
  | Raise e => raise e
  end.

(** The loop of [create_random_boxes] over [COLORS.items()]. *)
Fixpoint create_boxes_loop (colors : list (string * rgb)) (boxes : list Box)
    : M (list Box) :=
  match colors with
  | [] => ret boxes
  | (color_name, color_value) :: colors' =>
      do box_width <- randint 50 200 ;
      do box_height <- randint 50 200 ;
      do x <- randint 0 (IMAGE_WIDTH - box_width) ;
      do y <- randint 0 (IMAGE_HEIGHT - box_height) ;
      create_boxes_loop colors'
        (boxes ++ [mkBox x y box_width box_height color_value color_name])
  end.

Definition create_random_boxes : M (list Box) := create_boxes_loop COLORS [].

(** [generate_images_for_index] up to the two calls of [draw_boxes]: the
    random boxes and their rearrangement. *)
Definition generate_images_for_index : M (list Box * list Box) :=
  do boxes <- create_random_boxes ;
  do boxes_no_overlap <- arrange_boxes_without_overlap boxes ;
  ret (boxes, boxes_no_overlap).

End Placer.

End GenerateImages.

(** ** solutions_gen.py *)

Module SolutionsGen.

Import GenerateImages.

(** [COLORS], [IMAGE_WIDTH], [IMAGE_HEIGHT] and [OUTLINE_WIDTH] are the same
    constants as in generate_images.py. *)

(** [{rgb: name for name, rgb in COLORS.items()}]: a later entry wins. *)
Definition COLOR_LOOKUP : gmap rgb string :=
  list_to_map (reverse (map (fun '(name, c) => (c, name)) COLORS)).

Definition COLOR_ORDER : list string := map fst COLORS.

(** A decoded image: its size and [pixels[x, y]]. *)
Record Image : Type := mkImage {
  img_width : Z;
  img_height : Z;
  img_pixel : Z -> Z -> rgb
}.

Record Extent : Type := mkExtent {
  min_x : Z;
  max_x : Z;
  min_y : Z;
  max_y : Z
}.

(** The four conditional updates of the scan. *)
Definition track (x y : Z) (data : Extent) : Extent :=
  let data := if x <? min_x data
              then mkExtent x (max_x data) (min_y data) (max_y data) else data in
  let data := if x >? max_x data
              then mkExtent (min_x data) x (min_y data) (max_y data) else data in
  let data := if y <? min_y data
              then mkExtent (min_x data) (max_x data) y (max_y data) else data in
  let data := if y >? max_y data
              then mkExtent (min_x data) (max_x data) (min_y data) y else data in
  data.

(** The body of the pixel loop.  [bounds[color_name]] cannot miss: the names
    of [COLOR_LOOKUP] are the keys of [bounds]. *)
Definition scan_pixel (img : Image) (bounds : gmap string Extent) (x y : Z)
    : gmap string Extent :=
  match COLOR_LOOKUP !! img_pixel img x y with
  | None => bounds
  | Some color_name => alter (track x y) color_name bounds
  end.

Definition scan_image (img : Image) (bounds : gmap string Extent) : gmap string Extent :=
  foldl (fun bounds y =>
           foldl (fun bounds x => scan_pixel img bounds x y)
                 bounds (py_range 0 (img_width img) 1))
        bounds (py_range 0 (img_height img) 1).

Definition initial_bounds (width height : Z) : gmap string Extent :=
  list_to_map (map (fun '(name, _) => (name, mkExtent width (-1) height (-1))) COLORS).

(** The extracted dictionaries have no position yet. *)
Record SizedBox : Type := mkSizedBox {
  sb_color_name : string;
  sb_color : rgb;
  sb_width : Z;
  sb_height : Z
}.

(** [bounds.items()], in insertion order. *)
Definition bounds_items (bounds : gmap string Extent) : list (string * rgb * Extent) :=
  omap (fun '(name, c) => (fun data => (name, c, data)) <$> bounds !! name) COLORS.

(** One round of the second loop: either a warning or a box. *)
Definition box_of_extent (width height : Z) (item : string * rgb * Extent)
    : string + SizedBox :=
  let '(color_name, c, data) := item in
  if max_x data =? -1 then inl color_name
  else
    let min_x' := Z.max (min_x data - OUTLINE_WIDTH) 0 in
    let min_y' := Z.max (min_y data - OUTLINE_WIDTH) 0 in
    let max_x' := Z.min (max_x data + OUTLINE_WIDTH) (width - 1) in
    let max_y' := Z.min (max_y data + OUTLINE_WIDTH) (height - 1) in
    inr (mkSizedBox color_name c (max_x' - min_x' + 1) (max_y' - min_y' + 1)).

Definition lefts {A B} (l : list (A + B)) : list A :=
  omap (fun s => match s with inl a => Some a | inr _ => None end) l.

Definition rights {A B} (l : list (A + B)) : list B :=
  omap (fun s => match s with inl _ => None | inr b => Some b end) l.

(** The result comes with the colours the printed warnings name. *)
Definition extract_boxes (img : Image) : list string * result (list SizedBox) :=
  let width := img_width img in
  let height := img_height img in
  let bounds := scan_image img (initial_bounds width height) in
  let rounds := map (box_of_extent width height) (bounds_items bounds) in
  let boxes := rights rounds in
  (lefts rounds, match boxes with [] => Raise ValueError | _ => Ok boxes end).

Record Bounds : Type := mkBounds {
  bd_left : Z;
  bd_top : Z;
  bd_right : Z;
  bd_bottom : Z
}.

Definition compute_bounds (boxes : list Box) : result Bounds :=
  min_x ← py_min (map box_x boxes);
  min_y ← py_min (map box_y boxes);
  max_x ← py_max (map (fun box => box_x box + box_width box) boxes);
  max_y ← py_max (map (fun box => box_y box + box_height box) boxes);
  let min_x := Z.max (min_x - OUTLINE_WIDTH) 0 in
  let min_y := Z.max (min_y - OUTLINE_WIDTH) 0 in
  let max_x := Z.min (max_x + OUTLINE_WIDTH) IMAGE_WIDTH in
  let max_y := Z.min (max_y + OUTLINE_WIDTH) IMAGE_HEIGHT in
  Ok (mkBounds min_x min_y max_x max_y).

(** An entry [(b, x, y, w, h, rid)] of [packer.rect_list()]. *)
Record PackedRect : Type := mkPackedRect {
  pr_bin : nat;
  pr_x : Z;
  pr_y : Z;
  pr_w : Z;
  pr_h : Z;
  pr_rid : nat
}.

Definition sb_area (box : SizedBox) : Z := sb_width box * sb_height box.

(** [int(math.ceil(math.sqrt(total_area)))], with the exact square root in
    place of the floating point one; [math.sqrt] raises [ValueError] below
    zero.  The value is only one more candidate width and height. *)
Definition ceil_sqrt (total_area : Z) : result Z :=
  if total_area <? 0 then Raise ValueError else Ok (Z.sqrt_up total_area).

(** The sets of candidates are lists without duplicates.  [sorted] over the
    set of bins keeps bins of equal area in the iteration order of the set;
    here they stay in the order of the comprehension. *)
Definition generate_candidate_bins (boxes : list SizedBox) : result (list (Z * Z)) :=
  let total_area := sumZ sb_area boxes in
  max_width ← py_max (map sb_width boxes);
  max_height ← py_max (map sb_height boxes);
  base ← ceil_sqrt total_area;
  let steps := [25; 50; 100] in
  let width_candidates :=
    [max_width; base; IMAGE_WIDTH]
    ++ flat_map (fun step => py_range max_width (IMAGE_WIDTH + 1) step) steps in
  let height_candidates :=
    [max_height; base; IMAGE_HEIGHT]
    ++ flat_map (fun step => py_range max_height (IMAGE_HEIGHT + 1) step) steps in
  let widths :=
    sort_by Z.leb (remove_dups (filter (fun w => w <= IMAGE_WIDTH) width_candidates)) in
  let heights :=
    sort_by Z.leb (remove_dups (filter (fun h => h <= IMAGE_HEIGHT) height_candidates)) in
  let bins :=
    flat_map (fun w =>
                flat_map (fun h =>
                            if (w >=? max_width) && (h >=? max_height) then [(w, h)] else [])
                         heights)
             widths in
  Ok (sort_by (fun a b => a.1 * a.2 <=? b.1 * b.2) bins).

(** [placements.sort(key=lambda box: COLOR_ORDER.index(box["color_name"]))] *)
Definition sort_placements (placements : list Box) : result (list Box) :=
  match mapM (fun b => (fun k => (k, b)) <$> py_index (box_color_name b) COLOR_ORDER)
             placements with
  | None => Raise ValueError
  | Some keyed => Ok (map snd (sort_by (fun a b => (fst a <=? fst b)%nat) keyed))
  end.

Section Packing.

(** The third-party packer.  [rectpack rects width height] is what
    [packer.rect_list()] returns for [newPacker(rotation=True)] after
    [add_rect(w, h, rid=idx)] for the [idx]-th pair of [rects],
    [add_bin(width, height)] and [pack()]. *)
Variable rectpack : list (Z * Z) -> Z -> Z -> list PackedRect.

Definition placement_of (boxes : list SizedBox) (r : PackedRect) : option Box :=
  source ← boxes !! pr_rid r;
  Some (mkBox (pr_x r) (pr_y r) (pr_w r) (pr_h r) (sb_color source) (sb_color_name source)).

Definition try_pack_in_bin (boxes : list SizedBox) (width height : Z)
    : result (option (list Box * Z)) :=
  let rects := rectpack (map (fun box => (sb_width box, sb_height box)) boxes) width height in
  if (length rects <? length boxes)%nat then Ok None
  else
    match mapM (placement_of boxes) rects with
    | None => Raise IndexError
    | Some placements =>
        bounds ← compute_bounds placements;
        let used_area := (bd_right bounds - bd_left bounds) * (bd_bottom bounds - bd_top bounds) in
        Ok (Some (placements, used_area))
    end.

(** The loop over the candidate bins; leaving the recursion is [break]. *)
Fixpoint pack_loop (boxes : list SizedBox) (min_possible_area : Z) (bins : list (Z * Z))
    (best_result : option (list Box * Z)) : result (option (list Box * Z)) :=
  match bins with
  | [] => Ok best_result
  | (width, height) :: bins' =>
      attempt ← try_pack_in_bin boxes width height;
      match attempt with
      | None => pack_loop boxes min_possible_area bins' best_result
      | Some (placements, used_area) =>
          if match best_result with
             | None => true
             | Some best => used_area <? best.2
             end
          then
            if used_area <=? min_possible_area then Ok (Some (placements, used_area))
            else pack_loop boxes min_possible_area bins' (Some (placements, used_area))
          else pack_loop boxes min_possible_area bins' best_result
      end
  end.

(** [pack_boxes] up to the choice of [best_result]. *)
Definition best_packing (boxes : list SizedBox) : result (list Box * Z) :=
  let min_possible_area := sumZ sb_area boxes in
  bins ← generate_candidate_bins boxes;
  best_result ← pack_loop boxes min_possible_area bins None;
  match best_result with
  | Some best => Ok best
  | None =>
      fallback ← try_pack_in_bin boxes IMAGE_WIDTH IMAGE_HEIGHT;
      match fallback with
      | None => Raise RuntimeError
      | Some best => Ok best
      end
  end.

Definition pack_boxes (boxes : list SizedBox) : result (list Box) :=
  best_result ← best_packing boxes;
  sort_placements best_result.1.

End Packing.

(** *** Rendering

    Pillow is a third-party library: [ImageDraw.rectangle] and [Image.crop]
    are parameters here, and a call of either may raise.  The drawing
    context changes the image in place; here each call returns the new
    image.  The colour names ['white'] and ['black'] are the RGB values
    below. *)

Definition WHITE : rgb := (255, 255, 255).
Definition BLACK : rgb := (0, 0, 0).

(** [Image.new("RGB", (width, height), color=color)] *)
Definition Image_new (width height : Z) (color : rgb) : Image :=
  mkImage width height (fun _ _ => color).

Section Rendering.

(** [rectangle img (x0, y0, x1, y1) fill outline width] is the image after
    [draw.rectangle([x0, y0, x1, y1], fill=fill, outline=outline, width=width)]. *)
Variable rectangle : Image -> Z * Z * Z * Z -> rgb -> rgb -> Z -> result Image.

(** [crop img (left, upper, right, lower)] is [img.crop((left, upper, right, lower))]. *)
Variable crop : Image -> Z * Z * Z * Z -> result Image.

(** The loop [for box in boxes] of [draw_boxes]. *)
Fixpoint draw_loop (img : Image) (boxes : list Box) : result Image :=
  match boxes with
  | [] => Ok img
  | box :: boxes' =>
      img' ← rectangle img
               (box_x box, box_y box,
                box_x box + box_width box - 1, box_y box + box_height box - 1)
               (box_color box) BLACK OUTLINE_WIDTH;
      draw_loop img' boxes'
  end.

(** [draw_boxes] up to the file: the result is the image that is saved. *)
Definition draw_boxes (boxes : list Box) : result Image :=
  let img := Image_new IMAGE_WIDTH IMAGE_HEIGHT WHITE in
  img ← draw_loop img boxes;
  bounds ← compute_bounds boxes;
  crop img (bd_left bounds, bd_top bounds, bd_right bounds, bd_bottom bounds).

End Rendering.

End SolutionsGen.

(** ** generate_images.py: bounds and rendering *)

Module GenerateImagesDraw.

Import GenerateImages SolutionsGen.

(** The dictionary with the keys ['left'], ['top'], ['right'], ['bottom'] is
    the record [Bounds]. *)
Definition compute_bounds (boxes : list Box) : result Bounds :=
  min_x ← py_min (map box_x boxes);
  min_y ← py_min (map box_y boxes);
  max_x ← py_max (map (fun box => box_x box + box_width box) boxes);
  max_y ← py_max (map (fun box => box_y box + box_height box) boxes);
  let min_x := Z.max (min_x - OUTLINE_WIDTH) 0 in
  let min_y := Z.max (min_y - OUTLINE_WIDTH) 0 in
  let max_x := Z.min (max_x + OUTLINE_WIDTH) IMAGE_WIDTH in
  let max_y := Z.min (max_y + OUTLINE_WIDTH) IMAGE_HEIGHT in
  Ok (mkBounds min_x min_y max_x max_y).

Section Rendering.

Variable rectangle : Image -> Z * Z * Z * Z -> rgb -> rgb -> Z -> result Image.
Variable crop : Image -> Z * Z * Z * Z -> result Image.

(** The loop [for box in boxes] of [draw_boxes]: the second corner is
    [(x + width, y + height)]. *)
Fixpoint draw_loop (img : Image) (boxes : list Box) : result Image :=
  match boxes with
  | [] => Ok img
  | box :: boxes' =>
      img' ← rectangle img
               (box_x box, box_y box,
                box_x box + box_width box, box_y box + box_height box)
               (box_color box) BLACK OUTLINE_WIDTH;
      draw_loop img' boxes'
  end.

Definition draw_boxes (boxes : list Box) : result Image :=
  let img := Image_new IMAGE_WIDTH IMAGE_HEIGHT WHITE in
  img ← draw_loop img boxes;
  bounds ← compute_bounds boxes;
  crop img (bd_left bounds, bd_top bounds, bd_right bounds, bd_bottom bounds).

End Rendering.

End GenerateImagesDraw.

(** ** validation.py *)

Module Validation.

(** A single-channel image of [height] rows and [width] columns. *)
Definition Mask : Type := list (list Z).

(** [np.zeros((height, width), dtype=np.uint8)] *)
Definition zeros (height width : Z) : Mask :=
  replicate (Z.to_nat height) (replicate (Z.to_nat width) 0).

(** [cv2.rectangle(mask, pt1, pt2, value, -1)]: OpenCV fills every pixel of
    the image between the two corners, both corners included. *)
Definition cv2_rectangle_filled (mask : Mask) (pt1 pt2 : Z * Z) (value : Z) : Mask :=
  imap (fun r row =>
          imap (fun c old =>
                  if (Z.min pt1.1 pt2.1 <=? Z.of_nat c) && (Z.of_nat c <=? Z.max pt1.1 pt2.1)
                     && (Z.min pt1.2 pt2.2 <=? Z.of_nat r) && (Z.of_nat r <=? Z.max pt1.2 pt2.2)
                  then value else old)
               row)
       mask.

(** [int(np.sum(mask == value))] *)
Definition count_eq (value : Z) (mask : Mask) : Z :=
  sumZ (fun row => sumZ (fun v => if v =? value then 1 else 0) row) mask.

Record Rectangle : Type := mkRectangle {
  rect_id : nat;
  rect_area : Z;
  rect_width : Z;
  rect_height : Z;
  rect_color_rgb : rgb;
  rect_bbox : Z * Z * Z * Z
}.

(** The integer fields of the summary dictionary (the percentages are
    floating point quotients of these). *)
Record Summary : Type := mkSummary {
  total_pixels : Z;
  occupied_pixels : Z;
  empty_pixels : Z;
  rectangle_count : nat;
  rectangles : list Rectangle
}.

Section Detector.

(** The colour that the one-cluster k-means returns for the region of a
    bounding box in the original image. *)
Variable dominant_color_rgb : Z * Z * Z * Z -> rgb.

(** The loop of [annotate_and_collect] over [enumerate(bboxes, start=1)];
    the drawing on the displayed image and the printed table are left out. *)
Fixpoint annotate_loop (i : nat) (bboxes : list (Z * Z * Z * Z))
    (rectangles : list Rectangle) (mask : Mask) : list Rectangle * Mask :=
  match bboxes with
  | [] => (rectangles, mask)
  | (x, y, w, h) :: bboxes' =>
      let area := w * h in
      let color_rgb := dominant_color_rgb (x, y, w, h) in
      let rectangles := rectangles ++ [mkRectangle i area w h color_rgb (x, y, w, h)] in
      let mask := cv2_rectangle_filled mask (x, y) (x + w, y + h) 255 in
      annotate_loop (S i) bboxes' rectangles mask
  end.

Definition annotate_and_collect (height width : Z) (bboxes : list (Z * Z * Z * Z))
    : list Rectangle * Mask :=
  annotate_loop 1 bboxes [] (zeros height width).

Definition summarize_and_label (mask : Mask) (rectangles : list Rectangle)
    (total_pixels : Z) : Summary :=
  let real_occupied_pixels := count_eq 255 mask in
  let empty_pixels := total_pixels - real_occupied_pixels in
  mkSummary total_pixels real_occupied_pixels empty_pixels (length rectangles) rectangles.

(** [analyze_rectangles_and_empty_space] from the detected bounding boxes
    on: [height] and [width] are the shape of the decoded image and [bboxes]
    is what [find_quadrilateral_rectangles] returned. *)
Definition analyze_rectangles_and_empty_space (height width : Z)
    (bboxes : list (Z * Z * Z * Z)) : Summary :=
  let total_pixels := width * height in
  let '(rectangles, mask) := annotate_and_collect height width bboxes in
  summarize_and_label mask rectangles total_pixels.

End Detector.

(** [l[start:stop]]: a negative index counts from the end, and both ends are
    cut off at the ends of the list. *)
Definition py_slice {A} (start stop : Z) (l : list A) : list A :=
  let n := Z.of_nat (length l) in
  let clip := fun i => if i <? 0 then Z.max (i + n) 0 else Z.min i n in
  let start := clip start in
  let stop := clip stop in
  take (Z.to_nat (stop - start)) (drop (Z.to_nat start) l).

(** [None] for no rectangle; the position and size of the box around all
    bounding boxes otherwise. *)
Definition calculate_bounding_box_of_all_rectangles (rectangles : list Rectangle)
    : result (option (Z * Z * Z * Z)) :=
  match rectangles with
  | [] => Ok None
  | _ =>
      min_x ← py_min (map (fun r => (rect_bbox r).1.1.1) rectangles);
      min_y ← py_min (map (fun r => (rect_bbox r).1.1.2) rectangles);
      max_x ← py_max (map (fun r => (rect_bbox r).1.1.1 + (rect_bbox r).1.2) rectangles);
      max_y ← py_max (map (fun r => (rect_bbox r).1.1.2 + (rect_bbox r).2) rectangles);
      Ok (Some (min_x, min_y, max_x - min_x, max_y - min_y))
  end.

(** The integer gap fields of the summary dictionary. *)
Record Gaps : Type := mkGaps {
  content_area_pixels : Z;
  gap_pixels : Z;
  content_bbox : option (Z * Z * Z * Z)
}.

(** The part of [summarize_and_label] that measures the gaps inside the box
    around all rectangles; [roi_mask] is [mask[y:y+h, x:x+w]]. *)
Definition summarize_gaps (mask : Mask) (rectangles : list Rectangle) : result Gaps :=
  bbox ← calculate_bounding_box_of_all_rectangles rectangles;
  match bbox with
  | Some (x, y, w, h) =>
      let roi_mask := map (py_slice x (x + w)) (py_slice y (y + h) mask) in
      let content_area_pixels := w * h in
      let occupied_in_content := count_eq 255 roi_mask in
      let gap_pixels := content_area_pixels - occupied_in_content in
      Ok (mkGaps content_area_pixels gap_pixels (Some (x, y, w, h)))
  | None => Ok (mkGaps 0 0 None)
  end.

End Validation.

(** ** preprocess.py *)

Module Preprocess.

Import Stdlib.Strings.Ascii.

(** The digit of a value below sixteen, in upper case. *)
Definition hex_digit (d : Z) : Ascii.ascii :=
  nth (Z.to_nat d) (String.list_ascii_of_string "0123456789ABCDEF") "0"%char.

(** The hexadecimal digits of a number that is not negative, at least one. *)
Fixpoint hex_digits (fuel : nat) (n : Z) (acc : string) : string :=
  let acc := String (hex_digit (n mod 16)) acc in
  match fuel with
  | O => acc
  | S fuel' => if n / 16 =? 0 then acc else hex_digits fuel' (n / 16) acc
  end.

(** [format(n, "02X")]: upper-case hexadecimal, filled with zeros to two
    characters; the sign of a negative number counts as one of them. *)
Definition format_02X (n : Z) : string :=
  if n <? 0 then String "-"%char (hex_digits (Z.to_nat (Z.log2 (- n))) (- n) "")
  else
    let digits := hex_digits (Z.to_nat (Z.log2 n)) n "" in
    if (String.length digits <? 2)%nat then String "0"%char digits else digits.

(** [f"#{r:02X}{g:02X}{b:02X}"] *)
Definition rgb_to_hex (c : rgb) : string :=
  let '(r, g, b) := c in
  String "#"%char (format_02X r +:+ format_02X g +:+ format_02X b).

End Preprocess.

(** * Specification vocabulary *)

(** Every two elements at different positions are related. *)
Fixpoint pairwise {A} (R : A -> A -> Prop) (l : list A) : Prop :=
  match l with
  | [] => True
  | a :: l' => Forall (R a) l' /\ pairwise R l'
  end.

Module PlacerSpec.

Import GenerateImages.

Definition disjoint (a b : Box) : Prop := boxes_overlap a b = false.

Definition in_canvas (b : Box) : Prop :=
  0 <= box_x b /\ box_x b + box_width b <= IMAGE_WIDTH /\
  0 <= box_y b /\ box_y b + box_height b <= IMAGE_HEIGHT.

(** Everything but the position is the same. *)
Definition same_shape (b c : Box) : Prop :=
  box_width b = box_width c /\ box_height b = box_height c /\
  box_color b = box_color c /\ box_color_name b = box_color_name c.

(** The (width, height, color) triple of the conservation property. *)
Definition triple (b : Box) : Z * Z * rgb := (box_width b, box_height b, box_color b).

(** What one search leaves behind: only the box at [idx] has moved, and when
    the search reports success the box is clear of the placed ones and inside
    the canvas. *)
Definition moved (boxes_copy : list Box) (placed_boxes : list nat) (idx : nat)
    (boxes_copy' : list Box) (placed : bool) : Prop :=
  exists b', boxes_copy' = <[idx := b']> boxes_copy /\
             same_shape b' (boxes_copy !!! idx) /\
             (placed = true ->
              all_clear boxes_copy' idx placed_boxes = true /\ in_canvas b').

(** The state of the main loop: the boxes that [placed_boxes] refers to are
    pairwise clear of each other and inside the canvas. *)
Definition placed_ok (boxes_copy : list Box) (placed_boxes : list nat) : Prop :=
  pairwise disjoint (map (fun j => boxes_copy !!! j) placed_boxes) /\
  Forall (fun j => in_canvas (boxes_copy !!! j)) placed_boxes.

(** [box] is clear of the boxes that [placed_boxes] refers to. *)
Definition clear_at (boxes_copy : list Box) (placed_boxes : list nat) (box : Box) : bool :=
  forallb (fun other => negb (boxes_overlap box (boxes_copy !!! other))) placed_boxes.

(** No position of the canvas leaves the box at [idx] clear of the placed
    boxes. *)
Definition blocked (boxes_copy : list Box) (placed_boxes : list nat) (idx : nat) : Prop :=
  forall x y,
    0 <= x <= IMAGE_WIDTH - box_width (boxes_copy !!! idx) ->
    0 <= y <= IMAGE_HEIGHT - box_height (boxes_copy !!! idx) ->
    clear_at boxes_copy placed_boxes (set_xy (boxes_copy !!! idx) x y) = false.

(** Two rectangles that fill the canvas side by side, and a way to put them. *)
Definition blocked_boxes : list Box :=
  [ mkBox 0 0 500 600 (255, 0, 0) "red";
    mkBox 0 0 300 600 (0, 255, 0) "green" ].

Definition blocked_boxes_fit : list Box :=
  [ mkBox 0 0 500 600 (255, 0, 0) "red";
    mkBox 500 0 300 600 (0, 255, 0) "green" ].

(** The five rectangles of the example scenario. *)
Definition five_boxes : list Box :=
  [ mkBox 0 0 100 80 (255, 0, 0) "red";
    mkBox 0 0 60 60 (0, 255, 0) "green";
    mkBox 0 0 150 50 (0, 0, 255) "blue";
    mkBox 0 0 90 90 (255, 165, 0) "orange";
    mkBox 0 0 70 40 (255, 255, 0) "yellow" ].

(** A linear congruential stream of raw draws. *)
Definition lcg (k : nat) : Z := (Z.of_nat k * 1103515245 + 12345) mod 2147483648.

(** The position of the colour of a box in the canonical colour order. *)
Definition color_rank (b : Box) : option nat :=
  py_index (box_color_name b) (map fst COLORS).

(** The box appears in the returned list at or before the other one only
    if its colour does not come later in the palette. *)
Definition color_le (a b : Box) : Prop :=
  exists i j, color_rank a = Some i /\ color_rank b = Some j /\ (i <= j)%nat.

(** The box is not larger than the canvas and has a colour of the palette. *)
Definition placeable (b : Box) : Prop :=
  box_width b <= IMAGE_WIDTH /\ box_height b <= IMAGE_HEIGHT /\
  box_color_name b ∈ map fst COLORS.

(** The box at [i] is placed before the box at [j]: it is larger, or as
    large and earlier in the input. *)
Definition placed_before (boxes : list Box) (i j : nat) : Prop :=
  box_area (boxes !!! j) < box_area (boxes !!! i) \/
  (box_area (boxes !!! i) = box_area (boxes !!! j) /\ (i < j)%nat).

(** Two states of [boxes_copy] with the same shapes that hold the same boxes
    at the positions [placed_boxes] refers to. *)
Definition agree (placed_boxes : list nat) (s s' : list Box) : Prop :=
  Forall2 same_shape s s' /\ forall j, j ∈ placed_boxes -> s !!! j = s' !!! j.

(** Two runs end alike: with the same exception, or with related values and
    the same number of draws consumed. *)
Definition alike {A} (R : A -> A -> Prop) (r r' : result (A * nat)) : Prop :=
  match r, r' with
  | Ok (a, k), Ok (a', k') => R a a' /\ k = k'
  | Raise e, Raise e' => e = e'
  | _, _ => False
  end.

(** What two searches for the box at [idx] leave behind when they started
    from states that agree. *)
Definition searched (placed_boxes : list nat) (idx : nat) (r r' : list Box * bool) : Prop :=
  r.2 = r'.2 /\ length r.1 = length r'.1 /\ agree placed_boxes r.1 r'.1 /\
  (r.2 = true -> r.1 !!! idx = r'.1 !!! idx).

(** The example scenario with every rectangle somewhere else. *)
Definition five_boxes_elsewhere : list Box :=
  [ mkBox 10 20 100 80 (255, 0, 0) "red";
    mkBox 300 40 60 60 (0, 255, 0) "green";
    mkBox 5 500 150 50 (0, 0, 255) "blue";
    mkBox 700 7 90 90 (255, 165, 0) "orange";
    mkBox 33 44 70 40 (255, 255, 0) "yellow" ].

(** Two red and two green rectangles, the green ones first. *)
Definition repeated_colors : list Box :=
  [ mkBox 0 0 40 30 (0, 255, 0) "green";
    mkBox 0 0 100 80 (255, 0, 0) "red";
    mkBox 0 0 60 60 (0, 255, 0) "green";
    mkBox 0 0 20 90 (255, 0, 0) "red" ].

End PlacerSpec.

Module ExtractorSpec.

Import GenerateImages SolutionsGen.

(** Some pixel of the image has exactly the colour [c]. *)
Definition color_present (img : Image) (c : rgb) : Prop :=
  exists x y, 0 <= x < img_width img /\ 0 <= y < img_height img /\ img_pixel img x y = c.

(** The pixels in the order of the two nested loops. *)
Definition pixels_of (img : Image) : list (Z * Z) :=
  flat_map (fun y => map (fun x => (x, y)) (py_range 0 (img_width img) 1))
           (py_range 0 (img_height img) 1).

(** The extent tracked for one colour name along a list of pixels. *)
Definition track_name (img : Image) (name : string) (data : Extent) (p : Z * Z) : Extent :=
  if decide (COLOR_LOOKUP !! img_pixel img p.1 p.2 = Some name)
  then track p.1 p.2 data else data.

Definition final_extent (img : Image) (name : string) : Extent :=
  foldl (track_name img name)
        (mkExtent (img_width img) (-1) (img_height img) (-1)) (pixels_of img).

(** The rounds of the second loop: a warning or a box per palette colour. *)
Definition rounds_of (img : Image) : list (string + SizedBox) :=
  map (fun '(name, c) =>
         box_of_extent (img_width img) (img_height img) (name, c, final_extent img name))
      COLORS.

Definition valid_extent (width height : Z) (data : Extent) : Prop :=
  0 <= min_x data <= max_x data /\ max_x data <= width - 1 /\
  0 <= min_y data <= max_y data /\ max_y data <= height - 1.

(** The pixel (x, y) of the image has the colour [c]. *)
Definition has_color (img : Image) (c : rgb) (x y : Z) : Prop :=
  0 <= x < img_width img /\ 0 <= y < img_height img /\ img_pixel img x y = c.

(** [e] is the bounding box of the pixels of colour [c]: a pixel of that
    colour lies on each of its four sides and none lies outside. *)
Definition is_extent (img : Image) (c : rgb) (e : Extent) : Prop :=
  (exists y, has_color img c (min_x e) y) /\ (exists y, has_color img c (max_x e) y) /\
  (exists x, has_color img c x (min_y e)) /\ (exists x, has_color img c x (max_y e)) /\
  forall x y, has_color img c x y ->
              min_x e <= x <= max_x e /\ min_y e <= y <= max_y e.

(** The pixels of a list that the scan attributes to a colour name. *)
Definition matching (img : Image) (name : string) (ps : list (Z * Z)) : list (Z * Z) :=
  filter (fun p => COLOR_LOOKUP !! img_pixel img p.1 p.2 = Some name) ps.

(** A 10 x 8 image with a red bar, one blue pixel in the corner and a white
    background. *)
Definition small_image : Image :=
  mkImage 10 8
    (fun x y =>
       if (3 <=? x) && (x <=? 5) && (y =? 4) then (255, 0, 0)
       else if (x =? 9) && (y =? 7) then (0, 0, 255)
       else (255, 255, 255)).

End ExtractorSpec.

Module AreaSpec.

Import GenerateImages.

(** The pixel (px, py) lies in the half-open region of the box. *)
Definition covers (b : Box) (px py : Z) : bool :=
  (box_x b <=? px) && (px <? box_x b + box_width b)
  && (box_y b <=? py) && (py <? box_y b + box_height b).

Definition ind (c : bool) : Z := if c then 1 else 0.

(** The integers of [lo, lo + n). *)
Definition zrange (lo : Z) (n : nat) : list Z :=
  map (fun i => lo + Z.of_nat i) (seq 0 n).

(** The box lies in the region [left, right) x [top, bottom). *)
Definition within (left top right bottom : Z) (b : Box) : Prop :=
  left <= box_x b /\ box_x b + box_width b <= right /\
  top <= box_y b /\ box_y b + box_height b <= bottom.

End AreaSpec.

Module PackingSpec.

Import GenerateImages SolutionsGen.

#[global] Instance SizedBox_inhabited : Inhabited SizedBox :=
  populate (mkSizedBox "" (0, 0, 0) 0 0).

(** The (width, height) pairs handed to the packer. *)
Definition dims (boxes : list SizedBox) : list (Z * Z) :=
  map (fun box => (sb_width box, sb_height box)) boxes.

(** Two packed rectangles do not share interior points. *)
Definition separated (r s : PackedRect) : Prop :=
  pr_x r + pr_w r <= pr_x s \/ pr_x s + pr_w s <= pr_x r \/
  pr_y r + pr_h r <= pr_y s \/ pr_y s + pr_h s <= pr_y r.

(** What the packer promises about [rect_list()]: every identifier at most
    once; each rectangle has the size it was added with, possibly rotated by
    a quarter turn; it lies in the bin; no two of them overlap. *)
Record rectpack_contract (rects : list (Z * Z)) (width height : Z)
    (out : list PackedRect) : Prop := {
  rc_rids : NoDup (map pr_rid out);
  rc_dims :
    Forall (fun r => exists w h, rects !! pr_rid r = Some (w, h) /\
                       ((pr_w r = w /\ pr_h r = h) \/ (pr_w r = h /\ pr_h r = w))) out;
  rc_inside :
    Forall (fun r => 0 <= pr_x r /\ 0 <= pr_y r /\
                     pr_x r + pr_w r <= width /\ pr_y r + pr_h r <= height) out;
  rc_separated : pairwise separated out
}.

(** Width, height and colour up to a quarter turn. *)
Definition unrotated (b : Box) : Z * Z * rgb :=
  (Z.min (box_width b) (box_height b), Z.max (box_width b) (box_height b), box_color b).

Definition unrotated_sb (b : SizedBox) : Z * Z * rgb :=
  (Z.min (sb_width b) (sb_height b), Z.max (sb_width b) (sb_height b), sb_color b).

Definition bounds_area (bounds : Bounds) : Z :=
  (bd_right bounds - bd_left bounds) * (bd_bottom bounds - bd_top bounds).

(** The box lies in the bin. *)
Definition in_bin (width height : Z) (b : Box) : Prop :=
  0 <= box_x b /\ 0 <= box_y b /\
  box_x b + box_width b <= width /\ box_y b + box_height b <= height.

(** A packer for the examples: one row from the left, no rotation; a
    rectangle that does not fit is left out. *)
Fixpoint row_pack_from (x : Z) (rid : nat) (rects : list (Z * Z)) (width height : Z)
    : list PackedRect :=
  match rects with
  | [] => []
  | (w, h) :: rects' =>
      if (0 <=? w) && (x + w <=? width) && (h <=? height)
      then mkPackedRect 0 x 0 w h rid :: row_pack_from (x + w) (S rid) rects' width height
      else row_pack_from x (S rid) rects' width height
  end.

Definition row_pack (rects : list (Z * Z)) (width height : Z) : list PackedRect :=
  row_pack_from 0 0 rects width height.

Definition two_boxes : list SizedBox :=
  [ mkSizedBox "red" (255, 0, 0) 100 80;
    mkSizedBox "green" (0, 255, 0) 60 60 ].


End PackingSpec.

Module ValidationSpec.

Import GenerateImages Validation.

(** A bounding box as a rectangle for the overlap test. *)
Definition box_of_bbox (bbox : Z * Z * Z * Z) : Box :=
  let '(x, y, w, h) := bbox in mkBox x y w h (0, 0, 0) "".

(** The bounding boxes of two diamonds whose corners interlock: each is
    30 x 30 and they share the 1 x 1 region at (29, 29). *)
Definition overlapping_bboxes : list (Z * Z * Z * Z) :=
  [ (0, 0, 30, 30); (29, 29, 30, 30) ].

(** The mask whose pixel in row [r] and column [c] is [f r c]. *)
Definition grid (height width : nat) (f : nat -> nat -> Z) : Mask :=
  map (fun r => map (fun c => f r c) (seq 0 width)) (seq 0 height).

(** The pixel in row [r] and column [c] lies between the corners [(x, y)]
    and [(x + w, y + h)] of the bounding box, corners included. *)
Definition filled (bbox : Z * Z * Z * Z) (r c : nat) : bool :=
  let '(x, y, w, h) := bbox in
  (Z.min x (x + w) <=? Z.of_nat c) && (Z.of_nat c <=? Z.max x (x + w))
  && (Z.min y (y + h) <=? Z.of_nat r) && (Z.of_nat r <=? Z.max y (y + h)).

(** The bounding box with one more column and one more row. *)
Definition inflate (bbox : Z * Z * Z * Z) : Box :=
  let '(x, y, w, h) := bbox in mkBox x y (w + 1) (h + 1) (0, 0, 0) "".

(** The bounding box has no negative side, and its two corners are pixels
    of the image. *)
Definition bbox_inside (height width : Z) (bbox : Z * Z * Z * Z) : Prop :=
  let '(x, y, w, h) := bbox in
  0 <= x /\ 0 <= y /\ 0 <= w /\ 0 <= h /\ x + w < width /\ y + h < height.

(** The bounding box lies within the box [(x, y, w, h)]. *)
Definition bbox_within (outer bbox : Z * Z * Z * Z) : Prop :=
  let '(x, y, w, h) := outer in
  let '(rx, ry, rw, rh) := bbox in
  x <= rx /\ y <= ry /\ rx + rw <= x + w /\ ry + rh <= y + h.

(** The bounding box has no negative side and lies in the image. *)
Definition bbox_in_image (height width : Z) (bbox : Z * Z * Z * Z) : Prop :=
  let '(x, y, w, h) := bbox in
  0 <= x /\ 0 <= y /\ 0 <= w /\ 0 <= h /\ x + w <= width /\ y + h <= height.

(** The area [w * h] of a bounding box. *)
Definition bbox_area (bbox : Z * Z * Z * Z) : Z :=
  let '(x, y, w, h) := bbox in w * h.

(** Two bounding boxes that are two pixels apart. *)
Definition apart_bboxes : list (Z * Z * Z * Z) :=
  [ (2, 3, 10, 20); (14, 3, 5, 5) ].

End ValidationSpec.

Module RenderSpec.

Import GenerateImages SolutionsGen.

Definition inside (img : Image) (x y : Z) : Prop :=
  0 <= x < img_width img /\ 0 <= y < img_height img.

(** The pixel lies between the two corners, corners included. *)
Definition between (xy : Z * Z * Z * Z) (x y : Z) : bool :=
  let '(x0, y0, x1, y1) := xy in
  (x0 <=? x) && (x <=? x1) && (y0 <=? y) && (y <=? y1).

(** The two corners moved inwards by the width of the outline. *)
Definition shrink (xy : Z * Z * Z * Z) (width : Z) : Z * Z * Z * Z :=
  let '(x0, y0, x1, y1) := xy in (x0 + width, y0 + width, x1 - width, y1 - width).

(** What is assumed of Pillow.  [ImageDraw.rectangle], for corners that
    leave room for the outline on both sides: the pixels of the image
    between the corners are repainted, the [width] outermost rows and
    columns with [outline] and the others with [fill]; every other pixel
    and the size stay.  [Image.crop], for a box inside the image: the
    result has the size of the box and shows the region. *)
Record pillow_contract
    (rectangle : Image -> Z * Z * Z * Z -> rgb -> rgb -> Z -> result Image)
    (crop : Image -> Z * Z * Z * Z -> result Image) : Prop := {
  pc_rectangle :
    forall img x0 y0 x1 y1 fill outline width,
      0 <= width -> x0 + 2 * width <= x1 + 1 -> y0 + 2 * width <= y1 + 1 ->
      exists img',
        rectangle img (x0, y0, x1, y1) fill outline width = Ok img' /\
        img_width img' = img_width img /\ img_height img' = img_height img /\
        forall x y, inside img x y ->
          img_pixel img' x y =
            if between (x0, y0, x1, y1) x y
            then if between (shrink (x0, y0, x1, y1) width) x y then fill else outline
            else img_pixel img x y;
  pc_crop :
    forall img x_left upper x_right lower,
      0 <= x_left <= x_right -> x_right <= img_width img ->
      0 <= upper <= lower -> lower <= img_height img ->
      exists img',
        crop img (x_left, upper, x_right, lower) = Ok img' /\
        img_width img' = x_right - x_left /\ img_height img' = lower - upper /\
        forall x y, 0 <= x < x_right - x_left -> 0 <= y < lower - upper ->
          img_pixel img' x y = img_pixel img (x + x_left) (y + upper)
}.

(** The corners that [draw_boxes] names for a box: the second one is
    [(x + width - 1 + d, y + height - 1 + d)], with [d = 0] in
    solutions_gen.py and [d = 1] in generate_images.py. *)
Definition corners (d : Z) (b : Box) : Z * Z * Z * Z :=
  (box_x b, box_y b, box_x b + box_width b - 1 + d, box_y b + box_height b - 1 + d).

Section Render.

Variable rectangle : Image -> Z * Z * Z * Z -> rgb -> rgb -> Z -> result Image.
Variable crop : Image -> Z * Z * Z * Z -> result Image.

Fixpoint paint (d : Z) (img : Image) (boxes : list Box) : result Image :=
  match boxes with
  | [] => Ok img
  | box :: boxes' =>
      img' ← rectangle img (corners d box) (box_color box) BLACK OUTLINE_WIDTH;
      paint d img' boxes'
  end.

Definition render (d : Z) (boxes : list Box) : result Image :=
  img ← paint d (Image_new IMAGE_WIDTH IMAGE_HEIGHT WHITE) boxes;
  bounds ← compute_bounds boxes;
  crop img (bd_left bounds, bd_top bounds, bd_right bounds, bd_bottom bounds).

End Render.

(** The pixel of the second image is what the rectangles of [boxes] make of
    the pixel of the first: the rectangle drawn last decides. *)
Definition painted (d : Z) (boxes : list Box) (x y : Z) (old new : rgb) : Prop :=
  (exists b, b ∈ boxes /\ between (corners d b) x y = true /\
             new = if between (shrink (corners d b) OUTLINE_WIDTH) x y
                   then box_color b else BLACK) \/
  ((forall b, b ∈ boxes -> between (corners d b) x y = false) /\ new = old).

(** The box as the extractor should find it. *)
Definition sized (b : Box) : SizedBox :=
  mkSizedBox (box_color_name b) (box_color b) (box_width b) (box_height b).

(** The box as the extractor finds it when the second corner is off by [d]. *)
Definition sized_off (d : Z) (b : Box) : SizedBox :=
  mkSizedBox (box_color_name b) (box_color b)
    (Z.min (box_x b + box_width b - 1 + d) (IMAGE_WIDTH - 1) - box_x b + 1)
    (Z.min (box_y b + box_height b - 1 + d) (IMAGE_HEIGHT - 1) - box_y b + 1).

(** A box drawn by generate_images.py as the extractor finds it: one pixel
    wider and higher, unless it ends at the border of the canvas. *)
Definition sized_plus (b : Box) : SizedBox :=
  mkSizedBox (box_color_name b) (box_color b)
    (if box_x b + box_width b <? IMAGE_WIDTH then box_width b + 1 else box_width b)
    (if box_y b + box_height b <? IMAGE_HEIGHT then box_height b + 1 else box_height b).

(** What can be drawn and found again: boxes of palette colours, each colour
    once, inside the canvas, clear of each other, and large enough to show
    their colour inside the outline. *)
Record drawable (min_side : Z) (boxes : list Box) : Prop := {
  dr_nonempty : boxes <> [];
  dr_canvas : Forall PlacerSpec.in_canvas boxes;
  dr_disjoint : pairwise PlacerSpec.disjoint boxes;
  dr_size : Forall (fun b => min_side <= box_width b /\ min_side <= box_height b) boxes;
  dr_palette : Forall (fun b => (box_color_name b, box_color b) ∈ COLORS) boxes;
  dr_names : NoDup (map box_color_name boxes)
}.

(** A renderer that does what the contract says. *)
Definition ref_rectangle (img : Image) (xy : Z * Z * Z * Z) (fill outline : rgb)
    (width : Z) : result Image :=
  Ok (mkImage (img_width img) (img_height img)
        (fun x y =>
           if between xy x y
           then if between (shrink xy width) x y then fill else outline
           else img_pixel img x y)).

Definition ref_crop (img : Image) (box : Z * Z * Z * Z) : result Image :=
  let '(x_left, upper, x_right, lower) := box in
  Ok (mkImage (x_right - x_left) (lower - upper)
        (fun x y => img_pixel img (x + x_left) (y + upper))).

End RenderSpec.

Module PreprocessSpec.

Import Stdlib.Strings.Ascii Preprocess.

(** The value of a hexadecimal digit. *)
Definition hex_value (c : Ascii.ascii) : option Z :=
  (fun i => Z.of_nat i) <$> py_index c (String.list_ascii_of_string "0123456789ABCDEF").

(** Reading a colour of the form [#RRGGBB]. *)
Definition hex_to_rgb (s : string) : option rgb :=
  match s with
  | String "#"%char (String r1 (String r0 (String g1 (String g0 (String b1 (String b0 ""))))))
    =>
      r1 ← hex_value r1; r0 ← hex_value r0;
      g1 ← hex_value g1; g0 ← hex_value g0;
      b1 ← hex_value b1; b0 ← hex_value b0;
      Some (16 * r1 + r0, 16 * g1 + g0, 16 * b1 + b0)
  | _ => None
  end.

(** A channel is a byte. *)
Definition is_byte (n : Z) : Prop := 0 <= n <= 255.

(** The two characters of a byte read back as the byte. *)
Definition reads_back (i : nat) : bool :=
  match format_02X (Z.of_nat i) with
  | String c1 (String c0 "") =>
      match hex_value c1, hex_value c0 with
      | Some v1, Some v0 => 16 * v1 + v0 =? Z.of_nat i
      | _, _ => false
      end
  | _ => false
  end.

End PreprocessSpec.

(** * General facts *)

Section ListFacts.

Context {A : Type}.

Lemma insert_by_Permutation (le : A -> A -> bool) (a : A) (l : list A) :
  insert_by le a l ≡ₚ a :: l.
Proof.
  induction l as [|b l IH]; simpl; [done|].
  destruct (le a b); [done|].
  rewrite IH. apply Permutation_swap.
Qed.

Lemma sort_by_Permutation (le : A -> A -> bool) (l : list A) : sort_by le l ≡ₚ l.
Proof.
  induction l as [|a l IH]; simpl; [done|].
  unfold sort_by in IH. rewrite insert_by_Permutation. by f_equiv.
Qed.

Lemma pairwise_app (R : A -> A -> Prop) (l1 l2 : list A) :
  pairwise R (l1 ++ l2) <->
  pairwise R l1 /\ pairwise R l2 /\ Forall (fun a => Forall (R a) l2) l1.
Proof.
  induction l1 as [|a l1 IH]; simpl.
  - intuition.
  - rewrite Forall_app, IH, Forall_cons. tauto.
Qed.

Lemma pairwise_Permutation (R : A -> A -> Prop) (l1 l2 : list A) :
  (forall a b, R a b -> R b a) -> l1 ≡ₚ l2 -> pairwise R l1 -> pairwise R l2.
Proof.
  intros Hsym Hp. induction Hp as [|a l1 l2 Hp IH|a b l|l1 l2 l3 _ IH1 _ IH2]; simpl.
  - done.
  - intros [H1 H2]. split; [by rewrite <- Hp | auto].
  - intros [H1 [H2 H3]]. apply Forall_cons in H1 as [Hab H1].
    repeat split; auto.
  - auto.
Qed.

Lemma pairwise_lookup (R : A -> A -> Prop) (l : list A) (i j : nat) (a b : A) :
  (forall a b, R a b -> R b a) ->
  pairwise R l -> i <> j -> l !! i = Some a -> l !! j = Some b -> R a b.
Proof.
  intros Hsym. revert i j.
  induction l as [|c l IH]; intros i j Hl Hij Hi Hj; [done|].
  destruct Hl as [Hc Hl]. rewrite Forall_forall in Hc.
  destruct i as [|i], j as [|j]; simpl in *; simplify_eq.
  - apply Hc. by eapply list_elem_of_lookup_2.
  - apply Hsym, Hc. by eapply list_elem_of_lookup_2.
  - eapply (IH i j); eauto.
Qed.

Lemma map_lookup_total_seq `{!Inhabited A} (l : list A) :
  map (fun i => l !!! i) (seq 0 (length l)) = l.
Proof.
  induction l as [|a l IH]; simpl; [done|].
  f_equal. rewrite <- fmap_S_seq.
  change (map ?f (S <$> ?k)) with (map f (map S k)).
  rewrite map_map. simpl. exact IH.
Qed.

End ListFacts.

Lemma elem_of_py_range (start stop step x : Z) :
  0 < step -> x ∈ py_range start stop step -> start <= x < stop.
Proof.
  intros Hstep Hx. unfold py_range in Hx.
  apply list_elem_of_In, in_map_iff in Hx as (i & <- & Hi).
  apply in_seq in Hi.
  pose proof (Z.mul_div_le (stop - start + step - 1) step Hstep).
  assert (Z.of_nat i < (stop - start + step - 1) / step) by lia.
  nia.
Qed.

(** * The overlap test *)

Section Overlap.

Import GenerateImages PlacerSpec.

Lemma boxes_overlap_true (a b : Box) :
  boxes_overlap a b = true <->
  box_x a < box_x b + box_width b /\ box_x b < box_x a + box_width a /\
  box_y a < box_y b + box_height b /\ box_y b < box_y a + box_height a.
Proof.
  unfold boxes_overlap.
  repeat match goal with
         | |- context [?p <=? ?q] => destruct (Z.leb_spec p q)
         | |- context [?p >=? ?q] => rewrite (Z.geb_leb p q)
         end; simpl; split; (done || lia).
Qed.

Lemma boxes_overlap_sym (a b : Box) : boxes_overlap a b = boxes_overlap b a.
Proof.
  apply eq_true_iff_eq. rewrite !boxes_overlap_true. lia.
Qed.

Lemma disjoint_sym (a b : Box) : disjoint a b -> disjoint b a.
Proof. unfold disjoint. by rewrite boxes_overlap_sym. Qed.

(** C8: the test answers true exactly when the x-intervals and the
    y-intervals both meet under strict inequalities; for rectangles (positive
    width and height) that is when both pairs of intervals share an interval
    of positive length, the larger of the two lower ends being strictly below
    the smaller of the two upper ends; rectangles that touch at an edge do
    not overlap. *)
Theorem boxes_overlap_strict_interior (a b : Box) :
  (boxes_overlap a b = true <->
   (box_x a < box_x b + box_width b /\ box_x b < box_x a + box_width a) /\
   (box_y a < box_y b + box_height b /\ box_y b < box_y a + box_height a)) /\
  (0 < box_width a -> 0 < box_height a -> 0 < box_width b -> 0 < box_height b ->
   (boxes_overlap a b = true <->
    Z.max (box_x a) (box_x b) < Z.min (box_x a + box_width a) (box_x b + box_width b) /\
    Z.max (box_y a) (box_y b) < Z.min (box_y a + box_height a) (box_y b + box_height b))) /\
  (box_x a + box_width a = box_x b \/ box_x b + box_width b = box_x a \/
   box_y a + box_height a = box_y b \/ box_y b + box_height b = box_y a ->
   boxes_overlap a b = false).
Proof.
  split_and!.
  - rewrite boxes_overlap_true. lia.
  - intros Hwa Hha Hwb Hhb. rewrite boxes_overlap_true. lia.
  - intros Htouch. apply not_true_is_false. rewrite boxes_overlap_true. lia.
Qed.

Lemma boxes_overlap_strict_interior_witness :
  (boxes_overlap (mkBox 0 0 10 10 (255, 0, 0) "red")
                 (mkBox 9 3 5 5 (0, 255, 0) "green") = true <->
   Z.max 0 9 < Z.min (0 + 10) (9 + 5) /\ Z.max 0 3 < Z.min (0 + 10) (3 + 5)) /\
  boxes_overlap (mkBox 0 0 10 10 (255, 0, 0) "red")
                (mkBox 10 3 5 5 (0, 255, 0) "green") = false.
Proof.
  split.
  - destruct (boxes_overlap_strict_interior
                (mkBox 0 0 10 10 (255, 0, 0) "red")
                (mkBox 9 3 5 5 (0, 255, 0) "green")) as (_ & H & _).
    simpl in H. apply H; lia.
  - destruct (boxes_overlap_strict_interior
                (mkBox 0 0 10 10 (255, 0, 0) "red")
                (mkBox 10 3 5 5 (0, 255, 0) "green")) as (_ & _ & H).
    apply H. left. reflexivity.
Defined.

End Overlap.

(** * The randomized placer *)

Section PlacerFacts.

Import GenerateImages PlacerSpec.

Variable rng : nat -> Z.

Lemma bind_Ok {A B} (c : M A) (f : A -> M B) (k k2 : nat) (b : B) :
  bind c f k = Ok (b, k2) -> exists a k1, c k = Ok (a, k1) /\ f a k1 = Ok (b, k2).
Proof.
  unfold bind. destruct (c k) as [[a k1]|e]; [|done].
  intros H. by exists a, k1.
Qed.

Lemma bind_Raise {A B} (c : M A) (f : A -> M B) (k : nat) (e : exn) :
  bind c f k = Raise e ->
  c k = Raise e \/ exists a k1, c k = Ok (a, k1) /\ f a k1 = Raise e.
Proof.
  unfold bind. destruct (c k) as [[a k1]|e'].
  - intros H. right. by exists a, k1.
  - intros [= ->]. by left.
Qed.

Lemma randint_Ok (lo hi v : Z) (k k' : nat) :
  randint rng lo hi k = Ok (v, k') -> lo <= v <= hi.
Proof.
  unfold randint. destruct (Z.leb_spec lo hi); [|done].
  intros [= <- <-]. pose proof (Z.mod_pos_bound (rng k) (hi - lo + 1)). lia.
Qed.

(** Every value of the range is the outcome of some raw draw. *)
Lemma randint_onto (lo hi v : Z) (k : nat) :
  lo <= v <= hi -> rng k = v - lo -> randint rng lo hi k = Ok (v, S k).
Proof.
  intros Hv Hk. unfold randint. destruct (Z.leb_spec lo hi); [|lia].
  rewrite Hk, Z.mod_small by lia. do 2 f_equal. lia.
Qed.

Lemma randint_Raise (lo hi : Z) (k : nat) (e : exn) :
  randint rng lo hi k = Raise e -> e = ValueError.
Proof. unfold randint. destruct (lo <=? hi); [done | by intros [= <-]]. Qed.

Lemma same_shape_refl (b : Box) : same_shape b b.
Proof. by unfold same_shape. Qed.

Lemma same_shape_set_xy (b : Box) (x y : Z) : same_shape (set_xy b x y) b.
Proof. by unfold same_shape. Qed.

Lemma same_shape_trans (a b c : Box) : same_shape a b -> same_shape b c -> same_shape a c.
Proof. unfold same_shape. intuition congruence. Qed.

Lemma in_canvas_set_xy (b : Box) (x y : Z) :
  0 <= x <= IMAGE_WIDTH - box_width b -> 0 <= y <= IMAGE_HEIGHT - box_height b ->
  in_canvas (set_xy b x y).
Proof. unfold in_canvas. simpl. lia. Qed.


Lemma moved_refl (boxes_copy : list Box) (placed_boxes : list nat) (idx : nat) :
  moved boxes_copy placed_boxes idx boxes_copy false.
Proof.
  exists (boxes_copy !!! idx). split_and!; [|apply same_shape_refl|done].
  symmetry. apply list_insert_id'. intros Hi.
  by apply list_lookup_lookup_total_lt.
Qed.

Lemma moved_step (boxes_copy : list Box) (placed_boxes : list nat) (idx : nat)
    (b : Box) (boxes_copy' : list Box) (placed : bool) :
  (idx < length boxes_copy)%nat ->
  same_shape b (boxes_copy !!! idx) ->
  moved (<[idx := b]> boxes_copy) placed_boxes idx boxes_copy' placed ->
  moved boxes_copy placed_boxes idx boxes_copy' placed.
Proof.
  intros Hidx Hb (b' & -> & Hs & Hok).
  rewrite list_lookup_total_insert_eq in Hs by done.
  exists b'. rewrite list_insert_insert_eq in *.
  split_and!; [done | by eapply same_shape_trans | done].
Qed.

Lemma moved_here (boxes_copy : list Box) (placed_boxes : list nat) (idx : nat)
    (x y : Z) :
  (idx < length boxes_copy)%nat ->
  0 <= x <= IMAGE_WIDTH - box_width (boxes_copy !!! idx) ->
  0 <= y <= IMAGE_HEIGHT - box_height (boxes_copy !!! idx) ->
  all_clear (<[idx := set_xy (boxes_copy !!! idx) x y]> boxes_copy) idx placed_boxes = true ->
  moved boxes_copy placed_boxes idx
        (<[idx := set_xy (boxes_copy !!! idx) x y]> boxes_copy) true.
Proof.
  intros Hidx Hx Hy Hclear. eexists. split_and!; [done|apply same_shape_set_xy|].
  intros _. split; [done | by apply in_canvas_set_xy].
Qed.

Lemma random_attempts_moved (n : nat) (boxes_copy : list Box) (placed_boxes : list nat)
    (idx : nat) (k k' : nat) (boxes_copy' : list Box) (placed : bool) :
  (idx < length boxes_copy)%nat ->
  random_attempts rng n boxes_copy placed_boxes idx k = Ok ((boxes_copy', placed), k') ->
  moved boxes_copy placed_boxes idx boxes_copy' placed.
Proof.
  revert boxes_copy k. induction n as [|n IH]; intros boxes_copy k Hidx; simpl.
  - intros [= <- <- <-]. apply moved_refl.
  - intros H. apply bind_Ok in H as (x & k1 & Hx & H).
    apply bind_Ok in H as (y & k2 & Hy & H).
    apply randint_Ok in Hx, Hy.
    destruct (all_clear _ idx placed_boxes) eqn:Hclear.
    + injection H as <- <- <-. by apply moved_here.
    + apply IH in H; [|by rewrite length_insert].
      eapply moved_step; [done|apply same_shape_set_xy|done].
Qed.

Lemma scan_row_moved (boxes_copy : list Box) (placed_boxes : list nat) (idx : nat)
    (y : Z) (xs : list Z) (boxes_copy' : list Box) (placed : bool) :
  (idx < length boxes_copy)%nat ->
  0 <= y <= IMAGE_HEIGHT - box_height (boxes_copy !!! idx) ->
  Forall (fun x => 0 <= x <= IMAGE_WIDTH - box_width (boxes_copy !!! idx)) xs ->
  scan_row boxes_copy placed_boxes idx y xs = (boxes_copy', placed) ->
  moved boxes_copy placed_boxes idx boxes_copy' placed.
Proof.
  revert boxes_copy. induction xs as [|x xs IH]; intros boxes_copy Hidx Hy Hxs; simpl.
  - intros [= <- <-]. apply moved_refl.
  - apply Forall_cons in Hxs as [Hx Hxs].
    destruct (all_clear _ idx placed_boxes) eqn:Hclear.
    + intros [= <- <-]. by apply moved_here.
    + intros H. apply IH in H.
      * eapply moved_step; [done|apply same_shape_set_xy|done].
      * by rewrite length_insert.
      * by rewrite list_lookup_total_insert_eq.
      * by rewrite list_lookup_total_insert_eq.
Qed.

Lemma scan_grid_moved (boxes_copy : list Box) (placed_boxes : list nat) (idx : nat)
    (ys xs : list Z) (boxes_copy' : list Box) (placed : bool) :
  (idx < length boxes_copy)%nat ->
  Forall (fun y => 0 <= y <= IMAGE_HEIGHT - box_height (boxes_copy !!! idx)) ys ->
  Forall (fun x => 0 <= x <= IMAGE_WIDTH - box_width (boxes_copy !!! idx)) xs ->
  scan_grid boxes_copy placed_boxes idx ys xs = (boxes_copy', placed) ->
  moved boxes_copy placed_boxes idx boxes_copy' placed.
Proof.
  revert boxes_copy. induction ys as [|y ys IH]; intros boxes_copy Hidx Hys Hxs; simpl.
  - intros [= <- <-]. apply moved_refl.
  - apply Forall_cons in Hys as [Hy Hys].
    destruct (scan_row boxes_copy placed_boxes idx y xs) as [row ok] eqn:Hrow.
    pose proof (scan_row_moved _ _ _ _ _ _ _ Hidx Hy Hxs Hrow) as Hm.
    destruct ok.
    + by intros [= <- <-].
    + intros H. destruct Hm as (b & -> & Hs & _).
      apply IH in H.
      * eapply moved_step; [done|exact Hs|done].
      * by rewrite length_insert.
      * rewrite list_lookup_total_insert_eq by done.
        destruct Hs as (_ & -> & _). done.
      * rewrite list_lookup_total_insert_eq by done.
        destruct Hs as (-> & _). done.
Qed.

Lemma py_range_grid (limit : Z) :
  Forall (fun v => 0 <= v <= limit) (py_range 0 (limit + 1) 5).
Proof.
  apply Forall_forall. intros v Hv. apply elem_of_py_range in Hv; lia.
Qed.

Lemma grid_search_moved (boxes_copy : list Box) (placed_boxes : list nat) (idx : nat)
    (boxes_copy' : list Box) (placed : bool) :
  (idx < length boxes_copy)%nat ->
  grid_search boxes_copy placed_boxes idx = (boxes_copy', placed) ->
  moved boxes_copy placed_boxes idx boxes_copy' placed.
Proof.
  intros Hidx. unfold grid_search. apply scan_grid_moved; [done|..]; apply py_range_grid.
Qed.

(** [place_one] with its body spelled out. *)
Lemma place_one_unfold (boxes_copy : list Box) (placed_boxes : list nat) (idx : nat) :
  place_one rng boxes_copy placed_boxes idx =
  bind (random_attempts rng 500 boxes_copy placed_boxes idx)
       (fun r =>
          let '(boxes_copy1, placed) := r in
          let '(boxes_copy2, placed) :=
            if placed then (boxes_copy1, true)
            else grid_search boxes_copy1 placed_boxes idx in
          if placed then ret boxes_copy2 else raise RuntimeError).
Proof. reflexivity. Qed.

Lemma attempts_then_grid_moved (n : nat) (boxes_copy : list Box) (placed_boxes : list nat)
    (idx : nat) (k k' : nat) (boxes_copy' : list Box) :
  (idx < length boxes_copy)%nat ->
  bind (random_attempts rng n boxes_copy placed_boxes idx)
       (fun r =>
          let '(boxes_copy1, placed) := r in
          let '(boxes_copy2, placed) :=
            if placed then (boxes_copy1, true)
            else grid_search boxes_copy1 placed_boxes idx in
          if placed then ret boxes_copy2 else raise RuntimeError) k
  = Ok (boxes_copy', k') ->
  moved boxes_copy placed_boxes idx boxes_copy' true.
Proof.
  intros Hidx H.
  apply bind_Ok in H as ([s1 ok1] & k1 & Hrand & H).
  apply random_attempts_moved in Hrand; [|done].
  destruct ok1.
  - by injection H as <- <-.
  - destruct (grid_search s1 placed_boxes idx) as [s2 ok2] eqn:Hgrid.
    destruct ok2; [|done]. injection H as <- <-.
    destruct Hrand as (b & -> & Hs & _).
    apply grid_search_moved in Hgrid; [|by rewrite length_insert].
    eapply moved_step; [done|exact Hs|done].
Qed.

Lemma place_one_moved (boxes_copy : list Box) (placed_boxes : list nat) (idx : nat)
    (k k' : nat) (boxes_copy' : list Box) :
  (idx < length boxes_copy)%nat ->
  place_one rng boxes_copy placed_boxes idx k = Ok (boxes_copy', k') ->
  moved boxes_copy placed_boxes idx boxes_copy' true.
Proof.
  intros Hidx H. rewrite place_one_unfold in H.
  by eapply attempts_then_grid_moved.
Qed.


Lemma map_lookup_insert_fresh (boxes_copy : list Box) (idx : nat) (b : Box)
    (placed_boxes : list nat) :
  idx ∉ placed_boxes ->
  map (fun j => <[idx := b]> boxes_copy !!! j) placed_boxes
  = map (fun j => boxes_copy !!! j) placed_boxes.
Proof.
  intros Hfresh. apply map_ext_in. intros j Hj.
  apply list_lookup_total_insert_ne. intros ->. by apply Hfresh, list_elem_of_In.
Qed.

Lemma same_shape_insert (boxes_copy : list Box) (idx : nat) (b : Box) :
  same_shape b (boxes_copy !!! idx) ->
  Forall2 same_shape (<[idx := b]> boxes_copy) boxes_copy.
Proof.
  intros Hb.
  rewrite <- (list_insert_id' boxes_copy idx (boxes_copy !!! idx)) at 2.
  - apply Forall2_insert; [|done].
    apply Forall_Forall2_diag, Forall_forall. intros. apply same_shape_refl.
  - intros Hi. by apply list_lookup_lookup_total_lt.
Qed.

Lemma all_clear_disjoint (boxes_copy : list Box) (idx : nat) (placed_boxes : list nat) :
  all_clear boxes_copy idx placed_boxes = true ->
  Forall (fun a => Forall (disjoint a) [boxes_copy !!! idx])
         (map (fun j => boxes_copy !!! j) placed_boxes).
Proof.
  unfold all_clear. rewrite forallb_forall. intros Hclear.
  apply Forall_forall. intros a Ha.
  apply list_elem_of_In, in_map_iff in Ha as (j & <- & Hj).
  apply Forall_singleton, disjoint_sym. unfold disjoint.
  apply negb_true_iff. by apply Hclear.
Qed.

Lemma placed_ok_step (boxes_copy : list Box) (placed_boxes : list nat) (idx : nat)
    (boxes_copy' : list Box) :
  (idx < length boxes_copy)%nat ->
  idx ∉ placed_boxes ->
  placed_ok boxes_copy placed_boxes ->
  moved boxes_copy placed_boxes idx boxes_copy' true ->
  placed_ok boxes_copy' (placed_boxes ++ [idx]).
Proof.
  intros Hidx Hfresh [Hpair Hin] (b & -> & Hs & Hok).
  destruct Hok as [Hclear Hb]; [done|].
  apply all_clear_disjoint in Hclear.
  split.
  - rewrite map_app. apply pairwise_app. split_and!.
    + by rewrite map_lookup_insert_fresh.
    + simpl. auto.
    + exact Hclear.
  - apply Forall_app. split.
    + apply Forall_forall. intros j Hj. rewrite Forall_forall in Hin.
      rewrite list_lookup_total_insert_ne; [by apply Hin|].
      intros ->. by apply Hfresh.
    + apply Forall_singleton. by rewrite list_lookup_total_insert_eq.
Qed.

Lemma place_all_inv (order : list nat) :
  forall (boxes_copy : list Box) (placed_boxes : list nat) (k k' : nat)
         (boxes_copy' : list Box),
  NoDup (placed_boxes ++ order) ->
  Forall (fun i => (i < length boxes_copy)%nat) order ->
  placed_ok boxes_copy placed_boxes ->
  place_all rng order boxes_copy placed_boxes k = Ok (boxes_copy', k') ->
  Forall2 same_shape boxes_copy' boxes_copy /\
  placed_ok boxes_copy' (placed_boxes ++ order).
Proof.
  induction order as [|idx order IH];
    intros boxes_copy placed_boxes k k' boxes_copy' Hnodup Hlen Hok; simpl.
  - intros [= <- <-]. rewrite app_nil_r. split; [|done].
    apply Forall_Forall2_diag, Forall_forall. intros. apply same_shape_refl.
  - intros H. apply bind_Ok in H as (s1 & k1 & Hone & H).
    apply Forall_cons in Hlen as [Hidx Hlen].
    assert (idx ∉ placed_boxes) as Hfresh.
    { apply NoDup_app in Hnodup as (_ & Hdis & _).
      intros Hin. apply (Hdis idx Hin). left. }
    apply place_one_moved in Hone; [|done].
    pose proof (placed_ok_step _ _ _ _ Hidx Hfresh Hok Hone) as Hok1.
    destruct Hone as (b & -> & Hs & _).
    apply IH in H; [| |by rewrite length_insert|done].
    + destruct H as [Hshape Hfinal]. split.
      * eapply Forall2_trans; [|exact Hshape|by apply same_shape_insert].
        intros ???. apply same_shape_trans.
      * by rewrite <- app_assoc in Hfinal.
    + by rewrite <- app_assoc.
Qed.

Lemma placement_order_Permutation (boxes_copy : list Box) :
  placement_order boxes_copy ≡ₚ seq 0 (length boxes_copy).
Proof. apply sort_by_Permutation. Qed.

Lemma keyed_snd {K} (f : Box -> option K) (l : list Box) (keyed : list (K * Box)) :
  mapM (fun b => (fun k => (k, b)) <$> f b) l = Some keyed -> map snd keyed = l.
Proof.
  intros H. apply mapM_Some_1 in H.
  induction H as [|b kb l keyed Hkb _ IH]; simpl; [done|].
  destruct (f b); simplify_eq/=. by f_equal.
Qed.

Lemma sort_by_color_Permutation (boxes_copy ordered_boxes : list Box) :
  sort_by_color boxes_copy = Ok ordered_boxes -> ordered_boxes ≡ₚ boxes_copy.
Proof.
  unfold sort_by_color.
  destruct (mapM _ boxes_copy) as [keyed|] eqn:Hkeys; [|done].
  intros [= <-]. apply keyed_snd in Hkeys. rewrite <- Hkeys.
  apply Permutation_map, sort_by_Permutation.
Qed.

(** What a normal return of the placer gives: the output is a reordering of
    a list that has the shapes of the input, whose boxes are pairwise clear
    of each other and inside the canvas. *)
Lemma arrange_inv (boxes : list Box) (k k' : nat) (ordered_boxes : list Box) :
  arrange_boxes_without_overlap rng boxes k = Ok (ordered_boxes, k') ->
  exists boxes_copy,
    ordered_boxes ≡ₚ boxes_copy /\ Forall2 same_shape boxes_copy boxes /\
    pairwise disjoint boxes_copy /\ Forall in_canvas boxes_copy.
Proof.
  unfold arrange_boxes_without_overlap. intros H.
  apply bind_Ok in H as (boxes_copy & k1 & Hall & H).
  destruct (sort_by_color boxes_copy) as [out|e] eqn:Hsort; [|done].
  injection H as <- <-.
  pose proof (placement_order_Permutation boxes) as Hperm.
  apply place_all_inv in Hall.
  - destruct Hall as [Hshape [Hpair Hin]]. simpl in *.
    pose proof (Forall2_length _ _ _ Hshape) as Hlen.
    assert (map (fun j => boxes_copy !!! j) (placement_order boxes) ≡ₚ boxes_copy) as Hall.
    { rewrite Hperm, <- Hlen. by rewrite map_lookup_total_seq. }
    exists boxes_copy. split_and!.
    + by apply sort_by_color_Permutation.
    + done.
    + eapply pairwise_Permutation; [apply disjoint_sym|exact Hall|done].
    + rewrite <- Hall. apply Forall_forall. intros b Hb.
      apply list_elem_of_In, in_map_iff in Hb as (j & <- & Hj).
      rewrite Forall_forall in Hin. by apply Hin, list_elem_of_In.
  - simpl. rewrite Hperm. apply NoDup_seq.
  - apply Forall_forall. intros i Hi. rewrite Hperm in Hi.
    apply list_elem_of_In, in_seq in Hi. lia.
  - split; simpl; constructor.
Qed.

(** C1: whenever the placer returns, any two rectangles at different
    positions of the returned list do not overlap under [boxes_overlap]. *)
Theorem placer_no_overlap (boxes : list Box) (k k' : nat) (ordered_boxes : list Box) :
  arrange_boxes_without_overlap rng boxes k = Ok (ordered_boxes, k') ->
  forall (i j : nat) (a b : Box),
    i <> j -> ordered_boxes !! i = Some a -> ordered_boxes !! j = Some b ->
    boxes_overlap a b = false.
Proof.
  intros H i j a b Hij Hi Hj.
  apply arrange_inv in H as (boxes_copy & Hperm & _ & Hpair & _).
  eapply (pairwise_lookup disjoint ordered_boxes i j); eauto using disjoint_sym.
  eapply pairwise_Permutation; [apply disjoint_sym| |exact Hpair]. done.
Qed.

(** C7: whenever the placer returns, every rectangle of the returned list
    lies inside the canvas: 0 <= x, x + width <= 800, 0 <= y and
    y + height <= 600. *)
Theorem placer_in_canvas (boxes : list Box) (k k' : nat) (ordered_boxes : list Box) :
  arrange_boxes_without_overlap rng boxes k = Ok (ordered_boxes, k') ->
  forall b : Box, b ∈ ordered_boxes ->
    0 <= box_x b /\ box_x b + box_width b <= IMAGE_WIDTH /\
    0 <= box_y b /\ box_y b + box_height b <= IMAGE_HEIGHT.
Proof.
  intros H b Hb.
  apply arrange_inv in H as (boxes_copy & Hperm & _ & _ & Hin).
  rewrite <- Hperm in Hin. rewrite Forall_forall in Hin. by apply Hin.
Qed.

Lemma same_shape_triple (l1 l2 : list Box) :
  Forall2 same_shape l1 l2 -> map triple l1 = map triple l2.
Proof.
  induction 1 as [|a b l1 l2 (Hw & Hh & Hc & _) _ IH]; simpl; [done|].
  unfold triple at 1 3. by rewrite Hw, Hh, Hc, IH.
Qed.

Lemma placer_conserves (boxes : list Box) (k k' : nat) (ordered_boxes : list Box) :
  arrange_boxes_without_overlap rng boxes k = Ok (ordered_boxes, k') ->
  map triple ordered_boxes ≡ₚ map triple boxes.
Proof.
  intros H. apply arrange_inv in H as (boxes_copy & Hperm & Hshape & _).
  rewrite Hperm. by rewrite (same_shape_triple _ _ Hshape).
Qed.

(** *** When the fatal error is raised *)

Lemma all_clear_insert (boxes_copy : list Box) (placed_boxes : list nat) (idx : nat)
    (b : Box) :
  (idx < length boxes_copy)%nat -> idx ∉ placed_boxes ->
  all_clear (<[idx := b]> boxes_copy) idx placed_boxes = clear_at boxes_copy placed_boxes b.
Proof.
  intros Hidx Hfresh. unfold all_clear, clear_at.
  rewrite list_lookup_total_insert_eq by done.
  induction placed_boxes as [|j placed_boxes IH]; simpl; [done|].
  apply not_elem_of_cons in Hfresh as [Hj Hfresh].
  rewrite list_lookup_total_insert_ne by done. by rewrite IH.
Qed.

Lemma clear_at_insert (boxes_copy : list Box) (placed_boxes : list nat) (idx : nat)
    (b box : Box) :
  idx ∉ placed_boxes ->
  clear_at (<[idx := b]> boxes_copy) placed_boxes box = clear_at boxes_copy placed_boxes box.
Proof.
  intros Hfresh. unfold clear_at.
  induction placed_boxes as [|j placed_boxes IH]; simpl; [done|].
  apply not_elem_of_cons in Hfresh as [Hj Hfresh].
  rewrite list_lookup_total_insert_ne by done. by rewrite IH.
Qed.

Lemma same_shape_set_xy_eq (a b : Box) (x y : Z) :
  same_shape a b -> set_xy a x y = set_xy b x y.
Proof. intros (Hw & Hh & Hc & Hn). unfold set_xy. by rewrite Hw, Hh, Hc, Hn. Qed.

Lemma scan_row_blocked (boxes_copy : list Box) (placed_boxes : list nat) (idx : nat)
    (y : Z) (xs : list Z) (boxes_copy' : list Box) :
  (idx < length boxes_copy)%nat -> idx ∉ placed_boxes ->
  scan_row boxes_copy placed_boxes idx y xs = (boxes_copy', false) ->
  forall x, x ∈ xs ->
    clear_at boxes_copy placed_boxes (set_xy (boxes_copy !!! idx) x y) = false.
Proof.
  intros Hidx Hfresh. revert boxes_copy Hidx.
  induction xs as [|x0 xs IH]; intros boxes_copy Hidx; simpl.
  - intros _ x Hx. by apply elem_of_nil in Hx.
  - rewrite all_clear_insert by done.
    destruct (clear_at boxes_copy placed_boxes _) eqn:Hclear; [done|].
    intros H x Hx. apply elem_of_cons in Hx as [->|Hx]; [done|].
    pose proof (IH _ ltac:(by rewrite length_insert) H x Hx) as Hrec.
    rewrite clear_at_insert, list_lookup_total_insert_eq in Hrec by done.
    exact Hrec.
Qed.

Lemma scan_grid_blocked (boxes_copy : list Box) (placed_boxes : list nat) (idx : nat)
    (ys xs : list Z) (boxes_copy' : list Box) :
  (idx < length boxes_copy)%nat -> idx ∉ placed_boxes ->
  Forall (fun y => 0 <= y <= IMAGE_HEIGHT - box_height (boxes_copy !!! idx)) ys ->
  Forall (fun x => 0 <= x <= IMAGE_WIDTH - box_width (boxes_copy !!! idx)) xs ->
  scan_grid boxes_copy placed_boxes idx ys xs = (boxes_copy', false) ->
  forall x y, x ∈ xs -> y ∈ ys ->
    clear_at boxes_copy placed_boxes (set_xy (boxes_copy !!! idx) x y) = false.
Proof.
  intros Hidx Hfresh. revert boxes_copy Hidx.
  induction ys as [|y0 ys IH]; intros boxes_copy Hidx Hys Hxs; simpl.
  - intros _ x y _ Hy. by apply elem_of_nil in Hy.
  - apply Forall_cons in Hys as [Hy0 Hys].
    destruct (scan_row boxes_copy placed_boxes idx y0 xs) as [row ok] eqn:Hrow.
    destruct ok; [done|].
    intros H x y Hx Hy. apply elem_of_cons in Hy as [->|Hy].
    { by eapply scan_row_blocked. }
    apply scan_row_moved in Hrow as (b & -> & Hs & _); [|done..].
    assert (<[idx:=b]> boxes_copy !!! idx = b) as Hb
      by by rewrite list_lookup_total_insert_eq.
    pose proof Hs as (Hw & Hh & _).
    eapply IH in H; [| |rewrite Hb, Hh|rewrite Hb, Hw|exact Hx|exact Hy]; try done.
    + rewrite clear_at_insert, Hb in H by done.
      by rewrite <- (same_shape_set_xy_eq _ _ x y Hs).
    + by rewrite length_insert.
Qed.

Lemma grid_search_blocked (boxes_copy : list Box) (placed_boxes : list nat) (idx : nat)
    (boxes_copy' : list Box) :
  (idx < length boxes_copy)%nat -> idx ∉ placed_boxes ->
  grid_search boxes_copy placed_boxes idx = (boxes_copy', false) ->
  forall x y,
    x ∈ py_range 0 (IMAGE_WIDTH - box_width (boxes_copy !!! idx) + 1) 5 ->
    y ∈ py_range 0 (IMAGE_HEIGHT - box_height (boxes_copy !!! idx) + 1) 5 ->
    clear_at boxes_copy placed_boxes (set_xy (boxes_copy !!! idx) x y) = false.
Proof.
  intros Hidx Hfresh H x y Hx Hy. unfold grid_search in H.
  pose proof (scan_grid_blocked _ _ _ _ _ _ Hidx Hfresh
                (py_range_grid _) (py_range_grid _) H) as Hblocked.
  by apply Hblocked.
Qed.

Lemma random_attempts_Raise (n : nat) (boxes_copy : list Box) (placed_boxes : list nat)
    (idx : nat) (k : nat) (e : exn) :
  random_attempts rng n boxes_copy placed_boxes idx k = Raise e -> e = ValueError.
Proof.
  revert boxes_copy k. induction n as [|n IH]; intros boxes_copy k; simpl; [done|].
  intros H.
  apply bind_Raise in H as [H|(x & k1 & _ & H)]; [by eapply randint_Raise|].
  apply bind_Raise in H as [H|(y & k2 & _ & H)]; [by eapply randint_Raise|].
  destruct (all_clear _ idx placed_boxes); [done|]. by eapply IH.
Qed.

Lemma attempts_then_grid_RuntimeError (n : nat) (boxes_copy : list Box)
    (placed_boxes : list nat) (idx : nat) (k : nat) :
  (idx < length boxes_copy)%nat -> idx ∉ placed_boxes ->
  bind (random_attempts rng n boxes_copy placed_boxes idx)
       (fun r =>
          let '(boxes_copy1, placed) := r in
          let '(boxes_copy2, placed) :=
            if placed then (boxes_copy1, true)
            else grid_search boxes_copy1 placed_boxes idx in
          if placed then ret boxes_copy2 else raise RuntimeError) k
  = Raise RuntimeError ->
  forall x y,
    x ∈ py_range 0 (IMAGE_WIDTH - box_width (boxes_copy !!! idx) + 1) 5 ->
    y ∈ py_range 0 (IMAGE_HEIGHT - box_height (boxes_copy !!! idx) + 1) 5 ->
    clear_at boxes_copy placed_boxes (set_xy (boxes_copy !!! idx) x y) = false.
Proof.
  intros Hidx Hfresh H x y Hx Hy.
  apply bind_Raise in H as [H|([s1 ok1] & k1 & Hrand & H)].
  { by apply random_attempts_Raise in H. }
  destruct ok1; [done|].
  destruct (grid_search s1 placed_boxes idx) as [s2 ok2] eqn:Hgrid.
  destruct ok2; [done|].
  apply random_attempts_moved in Hrand as (b & -> & Hs & _); [|done].
  assert (<[idx:=b]> boxes_copy !!! idx = b) as Hb
    by by rewrite list_lookup_total_insert_eq.
  pose proof Hs as (Hw & Hh & _).
  assert (idx < length (<[idx:=b]> boxes_copy))%nat as Hidx'
    by by rewrite length_insert.
  pose proof (grid_search_blocked _ _ _ _ Hidx' Hfresh Hgrid x y) as Hblocked.
  rewrite Hb, Hw, Hh, clear_at_insert in Hblocked by done.
  rewrite <- (same_shape_set_xy_eq _ _ x y Hs). by apply Hblocked.
Qed.

Lemma place_one_RuntimeError (boxes_copy : list Box) (placed_boxes : list nat)
    (idx : nat) (k : nat) :
  (idx < length boxes_copy)%nat -> idx ∉ placed_boxes ->
  place_one rng boxes_copy placed_boxes idx k = Raise RuntimeError ->
  forall x y,
    x ∈ py_range 0 (IMAGE_WIDTH - box_width (boxes_copy !!! idx) + 1) 5 ->
    y ∈ py_range 0 (IMAGE_HEIGHT - box_height (boxes_copy !!! idx) + 1) 5 ->
    clear_at boxes_copy placed_boxes (set_xy (boxes_copy !!! idx) x y) = false.
Proof.
  intros Hidx Hfresh H. rewrite place_one_unfold in H.
  by eapply attempts_then_grid_RuntimeError.
Qed.

Lemma place_all_RuntimeError (boxes : list Box) (order : list nat) :
  forall (boxes_copy : list Box) (placed_boxes : list nat) (k : nat),
  NoDup (placed_boxes ++ order) ->
  Forall (fun i => (i < length boxes_copy)%nat) order ->
  placed_ok boxes_copy placed_boxes ->
  Forall2 same_shape boxes_copy boxes ->
  place_all rng order boxes_copy placed_boxes k = Raise RuntimeError ->
  exists (boxes_copy1 : list Box) (placed1 : list nat) (idx : nat),
    Forall2 same_shape boxes_copy1 boxes /\
    (idx < length boxes_copy1)%nat /\ NoDup (idx :: placed1) /\
    placed_ok boxes_copy1 placed1 /\
    forall x y,
      x ∈ py_range 0 (IMAGE_WIDTH - box_width (boxes_copy1 !!! idx) + 1) 5 ->
      y ∈ py_range 0 (IMAGE_HEIGHT - box_height (boxes_copy1 !!! idx) + 1) 5 ->
      clear_at boxes_copy1 placed1 (set_xy (boxes_copy1 !!! idx) x y) = false.
Proof.
  induction order as [|idx order IH];
    intros boxes_copy placed_boxes k Hnodup Hlen Hok Hshape; simpl; [done|].
  intros H.
  apply Forall_cons in Hlen as [Hidx Hlen].
  assert (idx ∉ placed_boxes) as Hfresh.
  { apply NoDup_app in Hnodup as (_ & Hdis & _).
    intros Hin. apply (Hdis idx Hin). left. }
  apply bind_Raise in H as [H|(s1 & k1 & Hone & H)].
  - exists boxes_copy, placed_boxes, idx. split_and!; [done..| |done|].
    + apply NoDup_cons. split; [done|]. by apply NoDup_app in Hnodup as (? & _).
    + by apply place_one_RuntimeError with (k := k).
  - apply place_one_moved in Hone; [|done].
    pose proof (placed_ok_step _ _ _ _ Hidx Hfresh Hok Hone) as Hok1.
    destruct Hone as (b & -> & Hs & _).
    eapply IH in H; [exact H| | |done|].
    + by rewrite <- app_assoc.
    + by rewrite length_insert.
    + eapply Forall2_trans; [|by apply same_shape_insert|exact Hshape].
      intros ???. apply same_shape_trans.
Qed.

Lemma sort_by_color_Raise (boxes_copy : list Box) (e : exn) :
  sort_by_color boxes_copy = Raise e -> e = ValueError.
Proof.
  unfold sort_by_color. destruct (mapM _ boxes_copy); [done|]. by intros [= <-].
Qed.

Lemma clear_at_false (boxes_copy : list Box) (placed_boxes : list nat) (box : Box) :
  clear_at boxes_copy placed_boxes box = false ->
  exists j, j ∈ placed_boxes /\ boxes_overlap box (boxes_copy !!! j) = true.
Proof.
  unfold clear_at. induction placed_boxes as [|j placed_boxes IH]; simpl; [done|].
  destruct (boxes_overlap box (boxes_copy !!! j)) eqn:Hj; simpl.
  - intros _. exists j. split; [left|done].
  - intros H. apply IH in H as (j' & Hin & Hov). exists j'. split; [by right|done].
Qed.

(** C4, as the code has it: when the placer raises its fatal error, the
    rectangles placed so far are inside the canvas and pairwise clear of each
    other, and the rectangle that was being placed overlaps one of them at
    every position of the step-5 grid.  Nothing follows about other positions
    of the rectangles placed before. *)
Theorem fatal_error_grid_exhausted (boxes : list Box) (k : nat) :
  arrange_boxes_without_overlap rng boxes k = Raise RuntimeError ->
  exists (boxes_copy : list Box) (placed_boxes : list nat) (idx : nat),
    Forall2 same_shape boxes_copy boxes /\
    (idx < length boxes)%nat /\ NoDup (idx :: placed_boxes) /\
    pairwise disjoint (map (fun j => boxes_copy !!! j) placed_boxes) /\
    Forall (fun j => in_canvas (boxes_copy !!! j)) placed_boxes /\
    forall x y,
      x ∈ py_range 0 (IMAGE_WIDTH - box_width (boxes !!! idx) + 1) 5 ->
      y ∈ py_range 0 (IMAGE_HEIGHT - box_height (boxes !!! idx) + 1) 5 ->
      exists j, j ∈ placed_boxes /\
                boxes_overlap (set_xy (boxes !!! idx) x y) (boxes_copy !!! j) = true.
Proof.
  unfold arrange_boxes_without_overlap. intros H.
  pose proof (placement_order_Permutation boxes) as Hperm.
  apply bind_Raise in H as [H|(s & k1 & _ & H)].
  - apply (place_all_RuntimeError boxes) in H.
    + destruct H as (boxes_copy & placed_boxes & idx & Hshape & Hidx & Hnd & Hok & Hgrid).
      pose proof (Forall2_length _ _ _ Hshape) as Hlen.
      assert (same_shape (boxes_copy !!! idx) (boxes !!! idx)) as Hs.
      { eapply Forall2_lookup_lr; [exact Hshape|..];
          apply list_lookup_lookup_total_lt; lia. }
      pose proof Hs as (Hw & Hh & _).
      exists boxes_copy, placed_boxes, idx. destruct Hok as [Hpair Hin].
      split_and!; [done|lia|done..|].
      intros x y Hx Hy. apply clear_at_false.
      rewrite <- (same_shape_set_xy_eq _ _ x y Hs).
      apply Hgrid; [by rewrite Hw | by rewrite Hh].
    + simpl. rewrite Hperm. apply NoDup_seq.
    + apply Forall_forall. intros i Hi. rewrite Hperm in Hi.
      apply list_elem_of_In, in_seq in Hi. lia.
    + split; simpl; constructor.
    + apply Forall_Forall2_diag, Forall_forall. intros. apply same_shape_refl.
  - destruct (sort_by_color s) as [out|e] eqn:Hsort; [done|].
    apply sort_by_color_Raise in Hsort. by injection H as ->.
Qed.

(** *** A rectangle with no free position

    When no position of the canvas is free for a rectangle, neither the
    random attempts nor the grid search can place it, whatever is drawn. *)

Lemma randint_in_range (lo hi : Z) (k : nat) :
  lo <= hi -> exists v, randint rng lo hi k = Ok (v, S k) /\ lo <= v <= hi.
Proof.
  intros Hle. unfold randint. destruct (Z.leb_spec lo hi); [|lia].
  eexists. split; [done|].
  pose proof (Z.mod_pos_bound (rng k) (hi - lo + 1)). lia.
Qed.

Lemma blocked_insert (boxes_copy : list Box) (placed_boxes : list nat) (idx : nat)
    (b : Box) :
  (idx < length boxes_copy)%nat -> idx ∉ placed_boxes ->
  same_shape b (boxes_copy !!! idx) ->
  blocked boxes_copy placed_boxes idx ->
  blocked (<[idx := b]> boxes_copy) placed_boxes idx.
Proof.
  intros Hidx Hfresh Hs Hblocked x y.
  rewrite list_lookup_total_insert_eq, clear_at_insert by done.
  pose proof Hs as (-> & -> & _).
  rewrite (same_shape_set_xy_eq _ _ x y Hs). apply Hblocked.
Qed.

Lemma random_attempts_blocked (n : nat) (placed_boxes : list nat) (idx : nat) :
  forall (boxes_copy : list Box) (k : nat),
  (idx < length boxes_copy)%nat -> idx ∉ placed_boxes ->
  box_width (boxes_copy !!! idx) <= IMAGE_WIDTH ->
  box_height (boxes_copy !!! idx) <= IMAGE_HEIGHT ->
  blocked boxes_copy placed_boxes idx ->
  exists b k',
    random_attempts rng n boxes_copy placed_boxes idx k
    = Ok ((<[idx := b]> boxes_copy, false), k') /\
    same_shape b (boxes_copy !!! idx).
Proof.
  induction n as [|n IH]; intros boxes_copy k Hidx Hfresh Hw Hh Hblocked; simpl.
  - exists (boxes_copy !!! idx), k. split; [|apply same_shape_refl].
    unfold ret. do 3 f_equal. symmetry. apply list_insert_id'.
    intros _. by apply list_lookup_lookup_total_lt.
  - destruct (randint_in_range 0 (IMAGE_WIDTH - box_width (boxes_copy !!! idx)) k)
      as (x & Hx & Hxr); [lia|].
    destruct (randint_in_range 0 (IMAGE_HEIGHT - box_height (boxes_copy !!! idx)) (S k))
      as (y & Hy & Hyr); [lia|].
    unfold bind at 1. rewrite Hx. unfold bind at 1. rewrite Hy.
    rewrite all_clear_insert, Hblocked by done.
    set (b1 := set_xy (boxes_copy !!! idx) x y).
    assert (same_shape b1 (boxes_copy !!! idx)) as Hs1 by apply same_shape_set_xy.
    destruct (IH (<[idx := b1]> boxes_copy) (S (S k))) as (b & k' & Hrec & Hs).
    + by rewrite length_insert.
    + done.
    + by rewrite list_lookup_total_insert_eq.
    + by rewrite list_lookup_total_insert_eq.
    + by apply blocked_insert.
    + exists b, k'. rewrite Hrec, list_insert_insert_eq. split; [done|].
      rewrite list_lookup_total_insert_eq in Hs by done.
      by eapply same_shape_trans.
Qed.

Lemma scan_row_all_blocked (placed_boxes : list nat) (idx : nat) (y : Z) (xs : list Z) :
  forall boxes_copy : list Box,
  (idx < length boxes_copy)%nat -> idx ∉ placed_boxes ->
  Forall (fun x => clear_at boxes_copy placed_boxes (set_xy (boxes_copy !!! idx) x y) = false)
         xs ->
  exists b, scan_row boxes_copy placed_boxes idx y xs = (<[idx := b]> boxes_copy, false) /\
            same_shape b (boxes_copy !!! idx).
Proof.
  induction xs as [|x xs IH]; intros boxes_copy Hidx Hfresh Hxs; simpl.
  - exists (boxes_copy !!! idx). split; [|apply same_shape_refl].
    f_equal. symmetry. apply list_insert_id'.
    intros _. by apply list_lookup_lookup_total_lt.
  - apply Forall_cons in Hxs as [Hx Hxs].
    rewrite all_clear_insert, Hx by done.
    set (b1 := set_xy (boxes_copy !!! idx) x y).
    destruct (IH (<[idx := b1]> boxes_copy)) as (b & Hrec & Hs).
    + by rewrite length_insert.
    + done.
    + eapply Forall_impl; [exact Hxs|]. intros x' Hx'.
      by rewrite clear_at_insert, list_lookup_total_insert_eq.
    + exists b. rewrite Hrec, list_insert_insert_eq. split; [done|].
      rewrite list_lookup_total_insert_eq in Hs by done.
      eapply same_shape_trans; [exact Hs|apply same_shape_set_xy].
Qed.

Lemma scan_grid_all_blocked (placed_boxes : list nat) (idx : nat) (ys xs : list Z) :
  forall boxes_copy : list Box,
  (idx < length boxes_copy)%nat -> idx ∉ placed_boxes ->
  Forall (fun y =>
            Forall (fun x => clear_at boxes_copy placed_boxes
                               (set_xy (boxes_copy !!! idx) x y) = false) xs) ys ->
  exists b, scan_grid boxes_copy placed_boxes idx ys xs = (<[idx := b]> boxes_copy, false) /\
            same_shape b (boxes_copy !!! idx).
Proof.
  induction ys as [|y ys IH]; intros boxes_copy Hidx Hfresh Hys; simpl.
  - exists (boxes_copy !!! idx). split; [|apply same_shape_refl].
    f_equal. symmetry. apply list_insert_id'.
    intros _. by apply list_lookup_lookup_total_lt.
  - apply Forall_cons in Hys as [Hy Hys].
    destruct (scan_row_all_blocked placed_boxes idx y xs boxes_copy Hidx Hfresh Hy)
      as (b1 & -> & Hs1).
    destruct (IH (<[idx := b1]> boxes_copy)) as (b & Hrec & Hs).
    + by rewrite length_insert.
    + done.
    + eapply Forall_impl; [exact Hys|]. intros y' Hy'.
      eapply Forall_impl; [exact Hy'|]. intros x' Hx'. simpl in Hx'.
      rewrite clear_at_insert, list_lookup_total_insert_eq by done.
      by rewrite (same_shape_set_xy_eq _ _ x' y' Hs1).
    + exists b. rewrite Hrec, list_insert_insert_eq. split; [done|].
      rewrite list_lookup_total_insert_eq in Hs by done.
      by eapply same_shape_trans.
Qed.

Lemma grid_search_all_blocked (boxes_copy : list Box) (placed_boxes : list nat)
    (idx : nat) :
  (idx < length boxes_copy)%nat -> idx ∉ placed_boxes ->
  blocked boxes_copy placed_boxes idx ->
  exists b, grid_search boxes_copy placed_boxes idx = (<[idx := b]> boxes_copy, false).
Proof.
  intros Hidx Hfresh Hblocked. unfold grid_search.
  destruct (scan_grid_all_blocked placed_boxes idx
              (py_range 0 (IMAGE_HEIGHT - box_height (boxes_copy !!! idx) + 1) 5)
              (py_range 0 (IMAGE_WIDTH - box_width (boxes_copy !!! idx) + 1) 5)
              boxes_copy Hidx Hfresh) as (b & Hgrid & _).
  - eapply Forall_impl; [apply py_range_grid|]. intros y Hy.
    eapply Forall_impl; [apply py_range_grid|]. intros x Hx. simpl in *.
    by apply Hblocked.
  - by exists b.
Qed.

Lemma attempts_then_grid_blocked (n : nat) (boxes_copy : list Box)
    (placed_boxes : list nat) (idx : nat) (k : nat) :
  (idx < length boxes_copy)%nat -> idx ∉ placed_boxes ->
  box_width (boxes_copy !!! idx) <= IMAGE_WIDTH ->
  box_height (boxes_copy !!! idx) <= IMAGE_HEIGHT ->
  blocked boxes_copy placed_boxes idx ->
  bind (random_attempts rng n boxes_copy placed_boxes idx)
       (fun r =>
          let '(boxes_copy1, placed) := r in
          let '(boxes_copy2, placed) :=
            if placed then (boxes_copy1, true)
            else grid_search boxes_copy1 placed_boxes idx in
          if placed then ret boxes_copy2 else raise RuntimeError) k
  = Raise RuntimeError.
Proof.
  intros Hidx Hfresh Hw Hh Hblocked.
  destruct (random_attempts_blocked n placed_boxes idx boxes_copy k)
    as (b & k' & Hrand & Hs); [done..|].
  unfold bind. rewrite Hrand.
  destruct (grid_search_all_blocked (<[idx := b]> boxes_copy) placed_boxes idx)
    as (b' & ->); [by rewrite length_insert|done|by apply blocked_insert|].
  done.
Qed.

(** Whatever is drawn, a rectangle that has no free position in the canvas
    makes the placer raise its fatal error. *)
Lemma place_one_blocked (boxes_copy : list Box) (placed_boxes : list nat) (idx : nat)
    (k : nat) :
  (idx < length boxes_copy)%nat -> idx ∉ placed_boxes ->
  box_width (boxes_copy !!! idx) <= IMAGE_WIDTH ->
  box_height (boxes_copy !!! idx) <= IMAGE_HEIGHT ->
  blocked boxes_copy placed_boxes idx ->
  place_one rng boxes_copy placed_boxes idx k = Raise RuntimeError.
Proof.
  intros. rewrite place_one_unfold. by apply attempts_then_grid_blocked.
Qed.

(** The first random attempt places a rectangle that is clear where it
    lands. *)
Lemma attempts_then_grid_first (n : nat) (boxes_copy : list Box)
    (placed_boxes : list nat) (idx : nat) (k k1 k2 : nat) (x y : Z) :
  randint rng 0 (IMAGE_WIDTH - box_width (boxes_copy !!! idx)) k = Ok (x, k1) ->
  randint rng 0 (IMAGE_HEIGHT - box_height (boxes_copy !!! idx)) k1 = Ok (y, k2) ->
  all_clear (<[idx := set_xy (boxes_copy !!! idx) x y]> boxes_copy) idx placed_boxes = true ->
  bind (random_attempts rng (S n) boxes_copy placed_boxes idx)
       (fun r =>
          let '(boxes_copy1, placed) := r in
          let '(boxes_copy2, placed) :=
            if placed then (boxes_copy1, true)
            else grid_search boxes_copy1 placed_boxes idx in
          if placed then ret boxes_copy2 else raise RuntimeError) k
  = Ok (<[idx := set_xy (boxes_copy !!! idx) x y]> boxes_copy, k2).
Proof.
  intros Hx Hy Hclear. simpl.
  unfold bind at 1. unfold bind at 1. rewrite Hx.
  unfold bind at 1. rewrite Hy, Hclear. done.
Qed.

Lemma place_one_first (boxes_copy : list Box) (placed_boxes : list nat) (idx : nat)
    (k k1 k2 : nat) (x y : Z) :
  randint rng 0 (IMAGE_WIDTH - box_width (boxes_copy !!! idx)) k = Ok (x, k1) ->
  randint rng 0 (IMAGE_HEIGHT - box_height (boxes_copy !!! idx)) k1 = Ok (y, k2) ->
  all_clear (<[idx := set_xy (boxes_copy !!! idx) x y]> boxes_copy) idx placed_boxes = true ->
  place_one rng boxes_copy placed_boxes idx k
  = Ok (<[idx := set_xy (boxes_copy !!! idx) x y]> boxes_copy, k2).
Proof.
  intros. rewrite place_one_unfold. by eapply attempts_then_grid_first.
Qed.

Lemma place_all_cons (idx : nat) (order : list nat) (boxes_copy : list Box)
    (placed_boxes : list nat) (k : nat) :
  place_all rng (idx :: order) boxes_copy placed_boxes k
  = match place_one rng boxes_copy placed_boxes idx k with
    | Ok (boxes_copy', k') => place_all rng order boxes_copy' (placed_boxes ++ [idx]) k'
    | Raise e => Raise e
    end.
Proof. reflexivity. Qed.

(** On the two rectangles that fill the canvas side by side, the placer
    fails whenever the first draw puts the wide one away from both edges:
    299 of the 301 possible positions. *)
Lemma blocked_boxes_fatal (k : nat) :
  1 <= rng k mod 301 <= 299 ->
  arrange_boxes_without_overlap rng blocked_boxes k = Raise RuntimeError.
Proof.
  intros Hdraw.
  assert (place_one rng blocked_boxes [] 0 k
          = Ok ([ mkBox (rng k mod 301) 0 500 600 (255, 0, 0) "red";
                  mkBox 0 0 300 600 (0, 255, 0) "green" ], S (S k))) as Hfirst.
  { rewrite (place_one_first blocked_boxes [] 0 k (S k) (S (S k)) (rng k mod 301) 0).
    - reflexivity.
    - unfold randint. reflexivity.
    - unfold randint. simpl. by rewrite Z.mod_1_r.
    - reflexivity. }
  assert (place_one rng [ mkBox (rng k mod 301) 0 500 600 (255, 0, 0) "red";
                          mkBox 0 0 300 600 (0, 255, 0) "green" ] [0%nat] 1 (S (S k))
          = Raise RuntimeError) as Hsecond.
  { apply place_one_blocked.
    - simpl. lia.
    - intros Hin. by apply list_elem_of_singleton in Hin.
    - vm_compute. discriminate.
    - vm_compute. discriminate.
    - intros x y Hx Hy. unfold clear_at. simpl in *.
      unfold IMAGE_WIDTH, IMAGE_HEIGHT in *.
      replace (boxes_overlap _ _) with true; [done|]. symmetry.
      apply boxes_overlap_true. simpl. lia. }
  unfold arrange_boxes_without_overlap, bind.
  replace (placement_order blocked_boxes) with [0%nat; 1%nat] by (vm_compute; reflexivity).
  rewrite place_all_cons, Hfirst. 
  change ([] ++ [0%nat]) with [0%nat].
  rewrite place_all_cons, Hsecond. reflexivity.
Qed.

End PlacerFacts.

Import GenerateImages PlacerSpec.

(** Largest first, ties in the original order. *)
Example placement_order_five_boxes :
  placement_order five_boxes = [3; 0; 2; 1; 4]%nat.
Proof. vm_compute. reflexivity. Qed.

(** When every draw is 0 both boxes are tried at the origin; the second one
    is then placed by the grid search. *)
Example grid_fallback_places_second_box :
  arrange_boxes_without_overlap (fun _ => 0) blocked_boxes 0%nat
  = Ok (blocked_boxes_fit, 1002%nat).
Proof. vm_compute. reflexivity. Qed.

Lemma placer_no_overlap_witness :
  exists out k',
    arrange_boxes_without_overlap lcg five_boxes 0%nat = Ok (out, k') /\
    forall (i j : nat) (a b : Box),
      i <> j -> out !! i = Some a -> out !! j = Some b -> boxes_overlap a b = false.
Proof.
  eexists _, _. split; [vm_compute; reflexivity|].
  eapply (placer_no_overlap lcg five_boxes 0%nat 10%nat). vm_compute. reflexivity.
Defined.

Lemma placer_in_canvas_witness :
  exists out k',
    arrange_boxes_without_overlap lcg five_boxes 0%nat = Ok (out, k') /\
    forall b : Box, b ∈ out ->
      0 <= box_x b /\ box_x b + box_width b <= IMAGE_WIDTH /\
      0 <= box_y b /\ box_y b + box_height b <= IMAGE_HEIGHT.
Proof.
  eexists _, _. split; [vm_compute; reflexivity|].
  eapply (placer_in_canvas lcg five_boxes 0%nat 10%nat). vm_compute. reflexivity.
Defined.

(** C4 fails as stated: with the first rectangle drawn at x = 100 the second
    one has no free position and the placer raises its fatal error, although
    the two rectangles fit side by side. *)
Lemma fatal_error_although_boxes_fit :
  arrange_boxes_without_overlap (fun _ => 100) blocked_boxes 0%nat = Raise RuntimeError /\
  Forall2 same_shape blocked_boxes_fit blocked_boxes /\
  Forall in_canvas blocked_boxes_fit /\
  forall (i j : nat) (a b : Box),
    i <> j -> blocked_boxes_fit !! i = Some a -> blocked_boxes_fit !! j = Some b ->
    boxes_overlap a b = false.
Proof.
  split_and!.
  - vm_compute. reflexivity.
  - repeat constructor.
  - repeat constructor; unfold IMAGE_WIDTH, IMAGE_HEIGHT; simpl; lia.
  - intros [|[|i]] [|[|j]] a b Hij Hi Hj; simplify_eq/=; reflexivity.
Qed.

Lemma fatal_error_grid_exhausted_witness :
  exists (boxes_copy : list Box) (placed_boxes : list nat) (idx : nat),
    Forall2 same_shape boxes_copy blocked_boxes /\
    (idx < length blocked_boxes)%nat /\ NoDup (idx :: placed_boxes) /\
    pairwise disjoint (map (fun j => boxes_copy !!! j) placed_boxes) /\
    Forall (fun j => in_canvas (boxes_copy !!! j)) placed_boxes /\
    forall x y,
      x ∈ py_range 0 (IMAGE_WIDTH - box_width (blocked_boxes !!! idx) + 1) 5 ->
      y ∈ py_range 0 (IMAGE_HEIGHT - box_height (blocked_boxes !!! idx) + 1) 5 ->
      exists j, j ∈ placed_boxes /\
                boxes_overlap (set_xy (blocked_boxes !!! idx) x y) (boxes_copy !!! j) = true.
Proof.
  apply (fatal_error_grid_exhausted (fun _ => 100) blocked_boxes 0%nat).
  vm_compute. reflexivity.
Defined.

(** * The colour based extractor *)

Section ExtractorFacts.

Import GenerateImages SolutionsGen ExtractorSpec.

Lemma COLORS_names_NoDup : NoDup (map fst COLORS).
Proof. apply (bool_decide_unpack _). vm_compute. exact I. Qed.

Lemma COLORS_rgb_NoDup : NoDup (map snd COLORS).
Proof. apply (bool_decide_unpack _). vm_compute. exact I. Qed.

Lemma COLOR_LOOKUP_spec (c : rgb) (name : string) :
  COLOR_LOOKUP !! c = Some name <-> (name, c) ∈ COLORS.
Proof.
  unfold COLOR_LOOKUP. rewrite <- elem_of_list_to_map.
  - rewrite elem_of_reverse, list_elem_of_fmap. split.
    + intros ([n c'] & [= -> ->] & H). done.
    + intros H. by exists (name, c).
  - rewrite <- fmap_reverse, reverse_Permutation.
    replace ((fun '(name, c) => (c, name)) <$> COLORS).*1 with (map snd COLORS)
      by reflexivity.
    apply COLORS_rgb_NoDup.
Qed.

Lemma COLORS_functional (name : string) (c c' : rgb) :
  (name, c) ∈ COLORS -> (name, c') ∈ COLORS -> c = c'.
Proof.
  intros H H'.
  assert ((list_to_map COLORS : gmap string rgb) !! name = Some c) as Hc
    by (apply elem_of_list_to_map_1; [apply COLORS_names_NoDup|done]).
  assert ((list_to_map COLORS : gmap string rgb) !! name = Some c') as Hc'
    by (apply elem_of_list_to_map_1; [apply COLORS_names_NoDup|done]).
  congruence.
Qed.

Lemma matches_color (img : Image) (name : string) (c : rgb) (x y : Z) :
  (name, c) ∈ COLORS ->
  COLOR_LOOKUP !! img_pixel img x y = Some name <-> img_pixel img x y = c.
Proof.
  intros Hin. rewrite COLOR_LOOKUP_spec. split.
  - intros H. by eapply COLORS_functional.
  - by intros ->.
Qed.

Lemma elem_of_py_range_1 (n x : Z) : x ∈ py_range 0 n 1 <-> 0 <= x < n.
Proof.
  unfold py_range. rewrite list_elem_of_In, in_map_iff.
  replace ((n - 0 + 1 - 1) / 1) with n by (rewrite Z.div_1_r; lia).
  split.
  - intros (i & <- & Hi). apply in_seq in Hi. lia.
  - intros Hx. exists (Z.to_nat x). split; [lia|]. apply in_seq. lia.
Qed.

Lemma elem_of_pixels_of (img : Image) (x y : Z) :
  (x, y) ∈ pixels_of img <-> 0 <= x < img_width img /\ 0 <= y < img_height img.
Proof.
  unfold pixels_of. rewrite list_elem_of_In, in_flat_map. split.
  - intros (y' & Hy & Hx). apply in_map_iff in Hx as (x' & [= -> ->] & Hx).
    by rewrite <- !list_elem_of_In, !elem_of_py_range_1 in *.
  - intros [Hx Hy]. exists y. rewrite <- list_elem_of_In, elem_of_py_range_1.
    split; [done|]. apply in_map_iff. exists x. split; [done|].
    by apply list_elem_of_In, elem_of_py_range_1.
Qed.

Lemma scan_image_pixels (img : Image) (bounds : gmap string Extent) :
  scan_image img bounds
  = foldl (fun bounds p => scan_pixel img bounds p.1 p.2) bounds (pixels_of img).
Proof.
  unfold scan_image, pixels_of. revert bounds.
  induction (py_range 0 (img_height img) 1) as [|y ys IH]; intros bounds; simpl; [done|].
  rewrite foldl_app, IH. f_equal.
  generalize (py_range 0 (img_width img) 1). intros xs. revert bounds.
  induction xs as [|x xs IHx]; intros bounds; simpl; [done|]. by rewrite IHx.
Qed.

Lemma scan_pixel_lookup (img : Image) (name : string) (x y : Z)
    (bounds : gmap string Extent) :
  scan_pixel img bounds x y !! name
  = (fun data => track_name img name data (x, y)) <$> bounds !! name.
Proof.
  unfold scan_pixel, track_name. simpl.
  destruct (COLOR_LOOKUP !! img_pixel img x y) as [c|].
  - rewrite lookup_alter. repeat case_decide; simplify_eq; by destruct (bounds !! name).
  - case_decide; [done|]. by destruct (bounds !! name).
Qed.

Lemma scan_lookup (img : Image) (name : string) (ps : list (Z * Z))
    (bounds : gmap string Extent) :
  foldl (fun bounds p => scan_pixel img bounds p.1 p.2) bounds ps !! name
  = (fun data => foldl (track_name img name) data ps) <$> bounds !! name.
Proof.
  revert bounds. induction ps as [|[x y] ps IH]; intros bounds; simpl.
  - by destruct (bounds !! name).
  - rewrite IH, scan_pixel_lookup. by destruct (bounds !! name).
Qed.

Lemma initial_bounds_lookup (width height : Z) (name : string) (c : rgb) :
  (name, c) ∈ COLORS ->
  initial_bounds width height !! name = Some (mkExtent width (-1) height (-1)).
Proof.
  intros Hin. unfold initial_bounds. apply elem_of_list_to_map_1.
  - unfold COLORS. simpl. apply (bool_decide_unpack _). vm_compute. exact I.
  - apply list_elem_of_fmap. by exists (name, c).
Qed.

Lemma bounds_items_scan_sub (img : Image) (l : list (string * rgb)) :
  Forall (fun entry => entry ∈ COLORS) l ->
  omap (fun '(name, c) =>
          (fun data => (name, c, data))
            <$> scan_image img (initial_bounds (img_width img) (img_height img)) !! name) l
  = map (fun '(name, c) => (name, c, final_extent img name)) l.
Proof.
  induction 1 as [|[name c] l' Hin _ IH]; simpl; [done|].
  rewrite scan_image_pixels, scan_lookup, (initial_bounds_lookup _ _ _ c Hin).
  simpl. f_equal. rewrite <- IH. by rewrite scan_image_pixels.
Qed.

Lemma bounds_items_scan (img : Image) :
  bounds_items (scan_image img (initial_bounds (img_width img) (img_height img)))
  = map (fun '(name, c) => (name, c, final_extent img name)) COLORS.
Proof. apply bounds_items_scan_sub. by apply Forall_forall. Qed.

(** One step of the scan, in closed form. *)
Lemma track_min_max (x y : Z) (data : Extent) :
  track x y data
  = mkExtent (Z.min x (min_x data)) (Z.max x (max_x data))
             (Z.min y (min_y data)) (Z.max y (max_y data)).
Proof.
  destruct data as [a b c e]. unfold track. simpl.
  destruct (Z.ltb_spec x a); simpl;
    rewrite (Z.gtb_ltb x b); destruct (Z.ltb_spec b x); simpl;
    destruct (Z.ltb_spec y c); simpl;
    rewrite (Z.gtb_ltb y e); destruct (Z.ltb_spec e y); simpl;
    f_equal; lia.
Qed.

Lemma track_valid (width height x y : Z) (data : Extent) :
  0 <= x < width -> 0 <= y < height ->
  data = mkExtent width (-1) height (-1) \/ valid_extent width height data ->
  valid_extent width height (track x y data).
Proof.
  intros Hx Hy Hdata. rewrite track_min_max.
  destruct Hdata as [->|(H1 & H2 & H3 & H4)]; unfold valid_extent; simpl; lia.
Qed.

Lemma track_name_fold (img : Image) (name : string) (ps : list (Z * Z)) (data : Extent) :
  let width := img_width img in
  let height := img_height img in
  Forall (fun p => 0 <= p.1 < width /\ 0 <= p.2 < height) ps ->
  data = mkExtent width (-1) height (-1) \/ valid_extent width height data ->
  (Exists (fun p => COLOR_LOOKUP !! img_pixel img p.1 p.2 = Some name) ps /\
   valid_extent width height (foldl (track_name img name) data ps)) \/
  (Forall (fun p => COLOR_LOOKUP !! img_pixel img p.1 p.2 <> Some name) ps /\
   foldl (track_name img name) data ps = data).
Proof.
  intros width height Hps. revert data.
  induction Hps as [|[x y] ps [Hx Hy] _ IH]; intros data Hdata; simpl.
  - right. by split.
  - unfold track_name at 2 4. simpl in *.
    destruct (decide (COLOR_LOOKUP !! img_pixel img x y = Some name)) as [Hm|Hm].
    + left. split; [by left|].
      pose proof (track_valid width height x y data Hx Hy Hdata) as Hv.
      destruct (IH (track x y data) (or_intror Hv)) as [[_ H]|[_ ->]]; done.
    + destruct (IH data Hdata) as [[Hex H]|[Hall H]].
      * left. split; [by right|done].
      * right. split; [by constructor|done].
Qed.

(** The extent of a colour after the scan: untouched when the colour is
    absent, inside the image otherwise. *)
Lemma final_extent_spec (img : Image) (name : string) (c : rgb) :
  (name, c) ∈ COLORS ->
  (color_present img c /\
   valid_extent (img_width img) (img_height img) (final_extent img name)) \/
  (~ color_present img c /\
   final_extent img name = mkExtent (img_width img) (-1) (img_height img) (-1)).
Proof.
  intros Hin. unfold final_extent.
  destruct (track_name_fold img name (pixels_of img)
              (mkExtent (img_width img) (-1) (img_height img) (-1)))
    as [[Hex Hv]|[Hall Heq]].
  - apply Forall_forall. intros [x y] Hp. by apply elem_of_pixels_of.
  - by left.
  - left. split; [|done]. apply Exists_exists in Hex as ([x y] & Hp & Hm).
    exists x, y. apply elem_of_pixels_of in Hp as [Hx Hy].
    simpl in Hm. split; [done|]. split; [done|].
    by apply (matches_color img name c x y Hin).
  - right. split; [|done]. intros (x & y & Hx & Hy & Hc).
    rewrite Forall_forall in Hall.
    apply (Hall (x, y)); [by apply elem_of_pixels_of|]. simpl.
    by apply (matches_color img name c x y Hin).
Qed.

Lemma elem_of_lefts {A B} (l : list (A + B)) (a : A) : a ∈ lefts l <-> inl a ∈ l.
Proof.
  unfold lefts. rewrite list_elem_of_omap. split.
  - intros ([a'|b] & Hin & [= ->]). done.
  - intros Hin. by exists (inl a).
Qed.

Lemma elem_of_rights {A B} (l : list (A + B)) (b : B) : b ∈ rights l <-> inr b ∈ l.
Proof.
  unfold rights. rewrite list_elem_of_omap. split.
  - intros ([a|b'] & Hin & [= ->]). done.
  - intros Hin. by exists (inr b).
Qed.

(** The rounds of the second loop of [extract_boxes]. *)
Lemma rounds_scan (img : Image) :
  map (box_of_extent (img_width img) (img_height img))
      (bounds_items (scan_image img (initial_bounds (img_width img) (img_height img))))
  = rounds_of img.
Proof.
  unfold rounds_of. rewrite bounds_items_scan, map_map. apply map_ext. by intros [name c].
Qed.

Lemma round_spec (img : Image) (name : string) (c : rgb) :
  (name, c) ∈ COLORS ->
  (color_present img c /\
   exists b, box_of_extent (img_width img) (img_height img)
                           (name, c, final_extent img name) = inr b /\
             sb_color_name b = name /\ sb_color b = c /\
             1 <= sb_width b /\ 1 <= sb_height b) \/
  (~ color_present img c /\
   box_of_extent (img_width img) (img_height img)
                 (name, c, final_extent img name) = inl name).
Proof.
  intros Hin. unfold box_of_extent.
  destruct (final_extent_spec img name c Hin) as [[Hc Hv]|[Hc ->]].
  - left. split; [done|]. destruct Hv as (H1 & H2 & H3 & H4).
    destruct (Z.eqb_spec (max_x (final_extent img name)) (-1)) as [Heq|_]; [lia|].
    eexists. split; [done|]. unfold OUTLINE_WIDTH. simpl. split_and!; [done..|lia|lia].
  - right. by split.
Qed.

Lemma extract_boxes_rounds (img : Image) :
  extract_boxes img
  = (lefts (rounds_of img),
     match rights (rounds_of img) with
     | [] => Raise ValueError
     | _ => Ok (rights (rounds_of img))
     end).
Proof. unfold extract_boxes. by rewrite rounds_scan. Qed.

Lemma elem_of_rounds (img : Image) (r : string + SizedBox) :
  r ∈ rounds_of img
  <-> exists name c, (name, c) ∈ COLORS /\
        r = box_of_extent (img_width img) (img_height img) (name, c, final_extent img name).
Proof.
  unfold rounds_of. rewrite list_elem_of_In, in_map_iff. split.
  - intros ([name c] & <- & Hin). exists name, c. by rewrite list_elem_of_In.
  - intros (name & c & Hin & ->). exists (name, c). by rewrite <- list_elem_of_In.
Qed.

Lemma warned_iff_absent (img : Image) (name : string) (c : rgb) :
  (name, c) ∈ COLORS ->
  name ∈ (extract_boxes img).1 <-> ~ color_present img c.
Proof.
  intros Hin. rewrite extract_boxes_rounds. cbn [fst snd].
  rewrite elem_of_lefts, elem_of_rounds. split.
  - intros (name' & c' & Hin' & Heq).
    destruct (round_spec img name' c' Hin') as [(_ & b & Hb & _)|[Hc Hl]]; [congruence|].
    rewrite Hl in Heq. injection Heq as ->.
    by rewrite (COLORS_functional _ _ _ Hin Hin').
  - intros Hc. exists name, c. split; [done|].
    destruct (round_spec img name c Hin) as [[Hc' _]|[_ ->]]; done.
Qed.

Lemma extracted_iff_present (img : Image) (name : string) (c : rgb) :
  (name, c) ∈ COLORS ->
  (exists b, b ∈ rights (rounds_of img) /\ sb_color_name b = name)
  <-> color_present img c.
Proof.
  intros Hin. split.
  - intros (b & Hb & Hname). apply elem_of_rights, elem_of_rounds in Hb.
    destruct Hb as (name' & c' & Hin' & Heq).
    destruct (round_spec img name' c' Hin') as [(Hc & b' & Hb' & Hn & _)|[_ Hl]];
      [|congruence].
    rewrite Hb' in Heq. injection Heq as ->.
    assert (name' = name) as -> by congruence.
    by rewrite (COLORS_functional _ _ _ Hin Hin').
  - intros Hc.
    destruct (round_spec img name c Hin) as [(_ & b & Hb & Hn & _)|[Hc' _]]; [|done].
    exists b. split; [|done]. apply elem_of_rights, elem_of_rounds.
    by exists name, c.
Qed.

(** C9: a palette colour is named in the warnings exactly when no pixel has
    it; when the extractor returns, the returned boxes are exactly those of
    the colours that are present; and the extractor raises (its
    [ValueError], nothing else) exactly when no palette colour is present. *)
Theorem extract_boxes_missing_colors (img : Image) :
  (forall name c, (name, c) ∈ COLORS ->
     (name ∈ (extract_boxes img).1 <-> ~ color_present img c)) /\
  (forall boxes, (extract_boxes img).2 = Ok boxes ->
     forall name c, (name, c) ∈ COLORS ->
       (name ∈ map sb_color_name boxes <-> color_present img c)) /\
  ((exists e, (extract_boxes img).2 = Raise e) <->
     forall name c, (name, c) ∈ COLORS -> ~ color_present img c) /\
  (forall e, (extract_boxes img).2 = Raise e -> e = ValueError).
Proof.
  split_and!.
  - intros name c Hin. by apply warned_iff_absent.
  - intros boxes Hok name c Hin.
    rewrite <- (extracted_iff_present img name c Hin).
    rewrite extract_boxes_rounds in Hok. cbn [fst snd] in Hok.
    destruct (rights _) as [|b0 bs] eqn:Hr; [done|]. injection Hok as <-.
    rewrite list_elem_of_In, in_map_iff. setoid_rewrite <- list_elem_of_In.
    split; intros (b & H1 & H2); by exists b.
  - rewrite extract_boxes_rounds. cbn [fst snd]. split.
    + intros [e He] name c Hin Hc.
      apply (extracted_iff_present img name c Hin) in Hc as (b & Hb & _).
      destruct (rights _); [by apply elem_of_nil in Hb|done].
    + intros Hnone. destruct (rights _) as [|b0 bs] eqn:Hr; [by eexists|].
      assert (b0 ∈ rights (rounds_of img)) as Hb0 by (rewrite Hr; left).
      apply elem_of_rights, elem_of_rounds in Hb0 as (name & c & Hin & Heq).
      destruct (round_spec img name c Hin) as [[Hc _]|[_ Hl]]; [|congruence].
      by destruct (Hnone name c Hin).
  - intros e. rewrite extract_boxes_rounds. cbn [fst snd].
    destruct (rights _); [by intros [= <-]|done].
Qed.

(** C10: every rectangle that the extractor returns is at least one pixel
    wide and one pixel high. *)
Theorem extract_boxes_positive_size (img : Image) (boxes : list SizedBox) :
  (extract_boxes img).2 = Ok boxes ->
  forall b, b ∈ boxes -> 1 <= sb_width b /\ 1 <= sb_height b.
Proof.
  rewrite extract_boxes_rounds. cbn [fst snd]. intros Hok b Hb.
  destruct (rights _) as [|b0 bs] eqn:Hr; [done|]. injection Hok as <-.
  rewrite <- Hr in Hb. apply elem_of_rights, elem_of_rounds in Hb.
  destruct Hb as (name & c & Hin & Heq).
  destruct (round_spec img name c Hin) as [(_ & b' & Hb' & _ & _ & Hw & Hh)|[_ Hl]];
    [|congruence].
  rewrite Hb' in Heq. by injection Heq as ->.
Qed.

End ExtractorFacts.

(** The red bar of three pixels grows by the outline margin on each side,
    the blue pixel in the corner is clamped to the image. *)
Example extract_boxes_small_image :
  SolutionsGen.extract_boxes ExtractorSpec.small_image
  = (["green"; "orange"; "yellow"]%string,
     Ok [ SolutionsGen.mkSizedBox "red" (255, 0, 0) 7 5;
          SolutionsGen.mkSizedBox "blue" (0, 0, 255) 3 3 ]).
Proof. vm_compute. reflexivity. Qed.

Lemma extract_boxes_positive_size_witness :
  exists boxes,
    (SolutionsGen.extract_boxes ExtractorSpec.small_image).2 = Ok boxes /\
    forall b, b ∈ boxes -> 1 <= SolutionsGen.sb_width b /\ 1 <= SolutionsGen.sb_height b.
Proof.
  eexists. split; [vm_compute; reflexivity|].
  eapply (extract_boxes_positive_size ExtractorSpec.small_image).
  vm_compute. reflexivity.
Defined.

(** * Area of pairwise disjoint boxes

    Boxes that do not overlap and lie in a region cover every pixel of the
    region at most once, so their areas add up to at most the area of the
    region. *)

Section AreaFacts.

Import GenerateImages PlacerSpec AreaSpec.

Lemma sumZ_ext {A} (f g : A -> Z) (l : list A) :
  (forall a, a ∈ l -> f a = g a) -> sumZ f l = sumZ g l.
Proof.
  induction l as [|a l IH]; intros H; simpl; [done|].
  rewrite (H a) by left. rewrite IH; [done|]. intros b Hb. apply H. by right.
Qed.

Lemma sumZ_add {A} (f g : A -> Z) (l : list A) :
  sumZ (fun a => f a + g a) l = sumZ f l + sumZ g l.
Proof. induction l as [|a l IH]; simpl; lia. Qed.

Lemma sumZ_scale {A} (c : Z) (f : A -> Z) (l : list A) :
  sumZ (fun a => c * f a) l = c * sumZ f l.
Proof. induction l as [|a l IH]; simpl; lia. Qed.

Lemma sumZ_zero {A} (l : list A) : sumZ (fun _ => 0) l = 0.
Proof. induction l as [|a l IH]; simpl; lia. Qed.

Lemma sumZ_le {A} (f g : A -> Z) (l : list A) :
  (forall a, a ∈ l -> f a <= g a) -> sumZ f l <= sumZ g l.
Proof.
  induction l as [|a l IH]; intros H; simpl; [done|].
  pose proof (H a ltac:(left)). 
  assert (sumZ f l <= sumZ g l) by (apply IH; intros b Hb; apply H; by right).
  lia.
Qed.

Lemma sumZ_const {A} (c : Z) (l : list A) : sumZ (fun _ => c) l = c * Z.of_nat (length l).
Proof. induction l as [|a l IH]; simpl; lia. Qed.

Lemma sumZ_swap {A B} (f : A -> B -> Z) (la : list A) (lb : list B) :
  sumZ (fun a => sumZ (fun b => f a b) lb) la
  = sumZ (fun b => sumZ (fun a => f a b) la) lb.
Proof.
  induction la as [|a la IH]; simpl.
  - by rewrite sumZ_zero.
  - by rewrite sumZ_add, IH.
Qed.

Lemma sumZ_Permutation {A} (f : A -> Z) (l k : list A) :
  l ≡ₚ k -> sumZ f l = sumZ f k.
Proof. induction 1; simpl; lia. Qed.

Lemma sumZ_map {A B} (f : B -> Z) (g : A -> B) (l : list A) :
  sumZ f (map g l) = sumZ (fun a => f (g a)) l.
Proof. induction l as [|a l IH]; simpl; [done|]. by rewrite IH. Qed.

Lemma zrange_succ (lo : Z) (n : nat) : zrange lo (S n) = lo :: zrange (lo + 1) n.
Proof.
  unfold zrange. simpl. f_equal; [lia|].
  rewrite <- seq_shift, map_map. apply map_ext. intros i. lia.
Qed.

(** The number of integers of [lo, lo + n) that lie in [a, b). *)
Lemma sum_interval (n : nat) :
  forall lo a b : Z,
    lo <= a -> a <= b -> b <= lo + Z.of_nat n ->
    sumZ (fun p => ind ((a <=? p) && (p <? b))) (zrange lo n) = b - a.
Proof.
  induction n as [|n IH]; intros lo a b Hlo Hab Hb.
  - simpl. lia.
  - rewrite zrange_succ. simpl.
    destruct (decide (a = b)) as [->|Hne].
    + rewrite (sumZ_ext _ (fun _ => 0)).
      * rewrite sumZ_zero. unfold ind.
        destruct (Z.leb_spec b lo), (Z.ltb_spec lo b); simpl; lia.
      * intros p _. unfold ind.
        destruct (Z.leb_spec b p), (Z.ltb_spec p b); simpl; lia.
    + destruct (decide (a = lo)) as [->|Hgt].
      * rewrite (sumZ_ext _ (fun p => ind ((lo + 1 <=? p) && (p <? b)))).
        -- rewrite IH by lia. unfold ind.
           destruct (Z.leb_spec lo lo), (Z.ltb_spec lo b); simpl; lia.
        -- intros p Hp. unfold zrange in Hp.
           apply list_elem_of_In, in_map_iff in Hp as (i & <- & _).
           unfold ind.
           destruct (Z.leb_spec lo (lo + 1 + Z.of_nat i)),
             (Z.leb_spec (lo + 1) (lo + 1 + Z.of_nat i)); simpl; lia.
      * rewrite IH by lia. unfold ind.
        destruct (Z.leb_spec a lo), (Z.ltb_spec lo b); simpl; lia.
Qed.

Lemma ind_andb (c d : bool) : ind (c && d) = ind c * ind d.
Proof. by destruct c, d. Qed.

(** The number of pixels of a region that a box inside it covers. *)
Lemma covered_pixels (b : Box) (left top : Z) (nx ny : nat) :
  0 <= box_width b -> 0 <= box_height b ->
  within left top (left + Z.of_nat nx) (top + Z.of_nat ny) b ->
  sumZ (fun py => sumZ (fun px => ind (covers b px py)) (zrange left nx)) (zrange top ny)
  = box_width b * box_height b.
Proof.
  intros Hw Hh (Hl & Hr & Ht & Hb).
  rewrite (sumZ_ext _ (fun py => ind ((box_y b <=? py) && (py <? box_y b + box_height b))
                                 * box_width b)).
  - rewrite (sumZ_ext _ (fun py => box_width b
                 * ind ((box_y b <=? py) && (py <? box_y b + box_height b))))
      by (intros; lia).
    rewrite sumZ_scale, sum_interval by lia. lia.
  - intros py _.
    rewrite (sumZ_ext _ (fun px => ind ((box_y b <=? py) && (py <? box_y b + box_height b))
                 * ind ((box_x b <=? px) && (px <? box_x b + box_width b)))).
    + rewrite sumZ_scale, sum_interval by lia. lia.
    + intros px _. unfold covers. rewrite <- andb_assoc, ind_andb. lia.
Qed.

Lemma covers_overlap (a b : Box) (px py : Z) :
  covers a px py = true -> covers b px py = true -> boxes_overlap a b = true.
Proof.
  unfold covers. rewrite !andb_true_iff, !Z.leb_le, !Z.ltb_lt, boxes_overlap_true. lia.
Qed.

Lemma covered_once (bs : list Box) (px py : Z) :
  pairwise disjoint bs -> sumZ (fun b => ind (covers b px py)) bs <= 1.
Proof.
  induction bs as [|b bs IH]; simpl; [lia|]. intros [Hb Hbs].
  specialize (IH Hbs). destruct (covers b px py) eqn:Hc; simpl; [|lia].
  rewrite (sumZ_ext _ (fun _ => 0)); [rewrite sumZ_zero; lia|].
  intros b' Hb'. rewrite Forall_forall in Hb. specialize (Hb b' Hb').
  destruct (covers b' px py) eqn:Hc'; [|done].
  unfold disjoint in Hb. by rewrite (covers_overlap b b' px py) in Hb.
Qed.

(** The areas of pairwise disjoint boxes in a region add up to at most the
    area of the region. *)
Lemma disjoint_area_le (bs : list Box) (left top : Z) (nx ny : nat) :
  Forall (fun b => 0 <= box_width b /\ 0 <= box_height b) bs ->
  Forall (within left top (left + Z.of_nat nx) (top + Z.of_nat ny)) bs ->
  pairwise disjoint bs ->
  sumZ box_area bs <= Z.of_nat nx * Z.of_nat ny.
Proof.
  intros Hpos Hin Hdis.
  rewrite (sumZ_ext box_area
             (fun b => sumZ (fun py => sumZ (fun px => ind (covers b px py))
                                            (zrange left nx)) (zrange top ny))).
  - rewrite sumZ_swap.
    etransitivity.
    + apply (sumZ_le _ (fun _ => Z.of_nat nx)). intros py _.
      rewrite sumZ_swap.
      etransitivity; [apply (sumZ_le _ (fun _ => 1)); intros px _;
                      by apply covered_once|].
      rewrite sumZ_const. unfold zrange. rewrite length_map, length_seq. lia.
    + rewrite sumZ_const. unfold zrange. rewrite length_map, length_seq. lia.
  - intros b Hb. rewrite Forall_forall in Hpos, Hin.
    destruct (Hpos b Hb). symmetry. by apply covered_pixels; [..|apply Hin].
Qed.

End AreaFacts.

(** * The candidate-bin search *)

Lemma rbind_Ok {A B} (r : result A) (f : A -> result B) (b : B) :
  r ≫= f = Ok b -> exists a, r = Ok a /\ f a = Ok b.
Proof. destruct r as [a|e]; simpl; [|done]. intros H. by exists a. Qed.


Section BoundsFacts.

Import GenerateImages SolutionsGen PackingSpec AreaSpec.

Lemma foldl_min_spec (l : list Z) :
  forall a, (foldl Z.min a l = a \/ foldl Z.min a l ∈ l) /\
            foldl Z.min a l <= a /\ Forall (fun b => foldl Z.min a l <= b) l.
Proof.
  induction l as [|b l IH]; intros a; simpl.
  - split_and!; [by left|lia|constructor].
  - destruct (IH (Z.min a b)) as (Hin & Hle & Hall). split_and!.
    + destruct Hin as [Heq|Hin]; [|right; by right].
      rewrite Heq. destruct (Z.min_spec a b) as [[_ ->]|[_ ->]]; [by left|right; left].
    + lia.
    + constructor; [lia|done].
Qed.

Lemma foldl_max_spec (l : list Z) :
  forall a, (foldl Z.max a l = a \/ foldl Z.max a l ∈ l) /\
            a <= foldl Z.max a l /\ Forall (fun b => b <= foldl Z.max a l) l.
Proof.
  induction l as [|b l IH]; intros a; simpl.
  - split_and!; [by left|lia|constructor].
  - destruct (IH (Z.max a b)) as (Hin & Hle & Hall). split_and!.
    + destruct Hin as [Heq|Hin]; [|right; by right].
      rewrite Heq. destruct (Z.max_spec a b) as [[_ ->]|[_ ->]]; [right; left|by left].
    + lia.
    + constructor; [lia|done].
Qed.

Lemma py_min_Ok (l : list Z) (m : Z) :
  py_min l = Ok m -> m ∈ l /\ Forall (fun a => m <= a) l.
Proof.
  destruct l as [|a l]; simpl; [done|]. intros [= <-].
  destruct (foldl_min_spec l a) as (Hin & Hle & Hall). split.
  - destruct Hin as [->|Hin]; [left|by right].
  - by constructor.
Qed.

Lemma py_max_Ok (l : list Z) (m : Z) :
  py_max l = Ok m -> m ∈ l /\ Forall (fun a => a <= m) l.
Proof.
  destruct l as [|a l]; simpl; [done|]. intros [= <-].
  destruct (foldl_max_spec l a) as (Hin & Hle & Hall). split.
  - destruct Hin as [->|Hin]; [left|by right].
  - by constructor.
Qed.

Lemma py_min_Permutation (l k : list Z) : l ≡ₚ k -> py_min l = py_min k.
Proof.
  intros Hp.
  destruct (py_min l) as [m|e] eqn:Hl, (py_min k) as [m'|e'] eqn:Hk.
  - apply py_min_Ok in Hl as [Hin Hall], Hk as [Hin' Hall'].
    rewrite Forall_forall in Hall, Hall'.
    rewrite Hp in Hin. rewrite <- Hp in Hin'.
    specialize (Hall _ Hin'). specialize (Hall' _ Hin). f_equal. lia.
  - destruct k; [|done]. apply Permutation_nil_r in Hp. by subst.
  - destruct l; [|done]. symmetry in Hp. apply Permutation_nil_r in Hp. by subst.
  - destruct l, k; simpl in *; congruence.
Qed.

Lemma py_max_Permutation (l k : list Z) : l ≡ₚ k -> py_max l = py_max k.
Proof.
  intros Hp.
  destruct (py_max l) as [m|e] eqn:Hl, (py_max k) as [m'|e'] eqn:Hk.
  - apply py_max_Ok in Hl as [Hin Hall], Hk as [Hin' Hall'].
    rewrite Forall_forall in Hall, Hall'.
    rewrite Hp in Hin. rewrite <- Hp in Hin'.
    specialize (Hall _ Hin'). specialize (Hall' _ Hin). f_equal. lia.
  - destruct k; [|done]. apply Permutation_nil_r in Hp. by subst.
  - destruct l; [|done]. symmetry in Hp. apply Permutation_nil_r in Hp. by subst.
  - destruct l, k; simpl in *; congruence.
Qed.

Lemma compute_bounds_Permutation (boxes boxes' : list Box) :
  boxes ≡ₚ boxes' -> compute_bounds boxes = compute_bounds boxes'.
Proof.
  intros Hp. unfold compute_bounds.
  rewrite (py_min_Permutation (map box_x boxes) (map box_x boxes'))
    by by apply Permutation_map.
  rewrite (py_min_Permutation (map box_y boxes) (map box_y boxes'))
    by by apply Permutation_map.
  rewrite (py_max_Permutation (map (fun box => box_x box + box_width box) boxes)
             (map (fun box => box_x box + box_width box) boxes'))
    by by apply Permutation_map.
  rewrite (py_max_Permutation (map (fun box => box_y box + box_height box) boxes)
             (map (fun box => box_y box + box_height box) boxes'))
    by by apply Permutation_map.
  done.
Qed.

(** The computed bounds enclose every box that lies in the canvas. *)
Lemma compute_bounds_within (boxes : list Box) (bounds : Bounds) :
  compute_bounds boxes = Ok bounds ->
  Forall (in_bin IMAGE_WIDTH IMAGE_HEIGHT) boxes ->
  Forall (within (bd_left bounds) (bd_top bounds) (bd_right bounds) (bd_bottom bounds))
         boxes.
Proof.
  unfold compute_bounds. intros H Hin.
  apply rbind_Ok in H as (x0 & Hx0 & H).
  apply rbind_Ok in H as (y0 & Hy0 & H).
  apply rbind_Ok in H as (x1 & Hx1 & H).
  apply rbind_Ok in H as (y1 & Hy1 & H).
  injection H as <-.
  apply py_min_Ok in Hx0 as [_ Hx0], Hy0 as [_ Hy0].
  apply py_max_Ok in Hx1 as [_ Hx1], Hy1 as [_ Hy1].
  rewrite Forall_forall in Hx0. rewrite Forall_forall in Hy0.
  rewrite Forall_forall in Hx1. rewrite Forall_forall in Hy1.
  rewrite Forall_forall in Hin.
  apply Forall_forall. intros b Hb.
  specialize (Hx0 (box_x b) ltac:(by apply list_elem_of_fmap_2)).
  specialize (Hy0 (box_y b) ltac:(by apply list_elem_of_fmap_2)).
  specialize (Hx1 (box_x b + box_width b)
                  ltac:(by apply (list_elem_of_fmap_2 (fun b => box_x b + box_width b)))).
  specialize (Hy1 (box_y b + box_height b)
                  ltac:(by apply (list_elem_of_fmap_2 (fun b => box_y b + box_height b)))).
  destruct (Hin b Hb) as (? & ? & ? & ?).
  unfold within, OUTLINE_WIDTH. simpl. lia.
Qed.

(** The bounds of pairwise disjoint boxes in the canvas have at least the
    area of the boxes. *)
Lemma bounds_area_ge (boxes : list Box) (bounds : Bounds) :
  compute_bounds boxes = Ok bounds ->
  Forall (in_bin IMAGE_WIDTH IMAGE_HEIGHT) boxes ->
  Forall (fun b => 0 <= box_width b /\ 0 <= box_height b) boxes ->
  pairwise PlacerSpec.disjoint boxes ->
  sumZ box_area boxes <= bounds_area bounds.
Proof.
  intros Hb Hin Hpos Hdis.
  pose proof (compute_bounds_within _ _ Hb Hin) as Hwithin.
  destruct boxes as [|b0 boxes]; [done|].
  assert (bd_left bounds <= bd_right bounds /\ bd_top bounds <= bd_bottom bounds)
    as [Hlr Htb].
  { apply Forall_cons in Hwithin as [(? & ? & ? & ?) _].
    apply Forall_cons in Hpos as [[? ?] _]. lia. }
  unfold bounds_area.
  replace (bd_right bounds - bd_left bounds)
    with (Z.of_nat (Z.to_nat (bd_right bounds - bd_left bounds))) by lia.
  replace (bd_bottom bounds - bd_top bounds)
    with (Z.of_nat (Z.to_nat (bd_bottom bounds - bd_top bounds))) by lia.
  apply (disjoint_area_le _ (bd_left bounds) (bd_top bounds)); [done| |done].
  eapply Forall_impl; [exact Hwithin|]. unfold within. intros b ?. lia.
Qed.

End BoundsFacts.

Section CandidateFacts.

Import GenerateImages SolutionsGen PackingSpec.

Lemma elem_of_sort_by {A} (le : A -> A -> bool) (l : list A) (a : A) :
  a ∈ sort_by le l <-> a ∈ l.
Proof. by rewrite sort_by_Permutation. Qed.

Lemma elem_of_bins (widths heights : list Z) (max_width max_height w h : Z) :
  (w, h) ∈ flat_map (fun w =>
              flat_map (fun h =>
                          if (w >=? max_width) && (h >=? max_height) then [(w, h)] else [])
                       heights)
              widths
  <-> w ∈ widths /\ h ∈ heights /\ max_width <= w /\ max_height <= h.
Proof.
  rewrite list_elem_of_In, in_flat_map. setoid_rewrite in_flat_map.
  setoid_rewrite <- list_elem_of_In. split.
  - intros (w' & Hw & h' & Hh & Hin).
    destruct (Z.geb_spec w' max_width), (Z.geb_spec h' max_height); simpl in Hin;
      try by apply elem_of_nil in Hin.
    apply list_elem_of_singleton in Hin as [= -> ->]. split_and!; [done..|lia|lia].
  - intros (Hw & Hh & Hmw & Hmh). exists w. split; [done|]. exists h. split; [done|].
    destruct (Z.geb_spec w max_width), (Z.geb_spec h max_height); simpl; try lia.
    by apply list_elem_of_singleton.
Qed.

Lemma bins_spec (width_candidates height_candidates : list Z) (max_width max_height : Z) :
  let widths :=
    sort_by Z.leb (remove_dups (filter (fun w => w <= IMAGE_WIDTH) width_candidates)) in
  let heights :=
    sort_by Z.leb (remove_dups (filter (fun h => h <= IMAGE_HEIGHT) height_candidates)) in
  let bins :=
    sort_by (fun a b => a.1 * a.2 <=? b.1 * b.2)
      (flat_map (fun w =>
                   flat_map (fun h =>
                               if (w >=? max_width) && (h >=? max_height)
                               then [(w, h)] else [])
                            heights)
                widths) in
  IMAGE_WIDTH ∈ width_candidates -> IMAGE_HEIGHT ∈ height_candidates ->
  (forall w h, (w, h) ∈ bins -> w <= IMAGE_WIDTH /\ h <= IMAGE_HEIGHT) /\
  (bins <> [] -> (IMAGE_WIDTH, IMAGE_HEIGHT) ∈ bins).
Proof.
  intros widths heights bins HW HH.
  assert (forall w, w ∈ widths <-> w <= IMAGE_WIDTH /\ w ∈ width_candidates) as Hwidths.
  { intros w. unfold widths.
    by rewrite elem_of_sort_by, elem_of_remove_dups, list_elem_of_filter. }
  assert (forall h, h ∈ heights <-> h <= IMAGE_HEIGHT /\ h ∈ height_candidates) as Hheights.
  { intros h. unfold heights.
    by rewrite elem_of_sort_by, elem_of_remove_dups, list_elem_of_filter. }
  assert (forall w h, (w, h) ∈ bins <->
            w ∈ widths /\ h ∈ heights /\ max_width <= w /\ max_height <= h) as Hbins.
  { intros w h. unfold bins. by rewrite elem_of_sort_by, elem_of_bins. }
  split.
  - intros w h Hin. apply Hbins in Hin as (Hw & Hh & _).
    apply Hwidths in Hw as [Hw _]. apply Hheights in Hh as [Hh _]. done.
  - intros Hne. destruct bins as [|[w h] bins'] eqn:Hsort; [done|].
    assert ((w, h) ∈ (w, h) :: bins') as Hin by left.
    apply Hbins in Hin as (Hw & Hh & Hmw & Hmh).
    apply Hwidths in Hw as [Hw _]. apply Hheights in Hh as [Hh _].
    apply Hbins. rewrite Hwidths, Hheights. split_and!; (done || lia).
Qed.

(** Every candidate bin lies in the canvas, and the canvas itself is a
    candidate whenever there is a candidate at all. *)
Lemma generate_candidate_bins_spec (boxes : list SizedBox) (bins : list (Z * Z)) :
  generate_candidate_bins boxes = Ok bins ->
  (forall w h, (w, h) ∈ bins -> w <= IMAGE_WIDTH /\ h <= IMAGE_HEIGHT) /\
  (bins <> [] -> (IMAGE_WIDTH, IMAGE_HEIGHT) ∈ bins).
Proof.
  unfold generate_candidate_bins. intros H.
  apply rbind_Ok in H as (max_width & _ & H).
  apply rbind_Ok in H as (max_height & _ & H).
  apply rbind_Ok in H as (base & _ & H).
  injection H as <-.
  apply bins_spec; do 2 right; left.
Qed.


End CandidateFacts.

Section PackingFacts.

Import GenerateImages SolutionsGen PackingSpec.

Variable rectpack : list (Z * Z) -> Z -> Z -> list PackedRect.
Variable boxes : list SizedBox.

Hypothesis rectpack_ok :
  forall width height,
    rectpack_contract (dims boxes) width height (rectpack (dims boxes) width height).

Lemma pairwise_Forall2 {A B} (R : A -> A -> Prop) (R' : B -> B -> Prop)
    (Q : A -> B -> Prop) (l : list A) (k : list B) :
  (forall a a' b b', Q a b -> Q a' b' -> R a a' -> R' b b') ->
  Forall2 Q l k -> pairwise R l -> pairwise R' k.
Proof.
  intros HQ H. induction H as [|a b l k Hab Hlk IH]; simpl; [done|].
  intros [Ha Hl]. split; [|auto].
  clear IH Hl. induction Hlk as [|a' b' l k Hab' _ IH]; [constructor|].
  apply Forall_cons in Ha as [Haa' Ha]. constructor; eauto.
Qed.

(** A placement is its packed rectangle with the colour of the source. *)
Lemma placement_of_Some (r : PackedRect) (b : Box) :
  placement_of boxes r = Some b ->
  exists source, boxes !! pr_rid r = Some source /\
    b = mkBox (pr_x r) (pr_y r) (pr_w r) (pr_h r) (sb_color source) (sb_color_name source).
Proof.
  unfold placement_of. destruct (boxes !! pr_rid r) as [source|]; simpl; [|done].
  intros [= <-]. by exists source.
Qed.

Lemma rids_Permutation (rects : list PackedRect) :
  NoDup (map pr_rid rects) ->
  Forall (fun r => is_Some (boxes !! pr_rid r)) rects ->
  (length boxes <= length rects)%nat ->
  map pr_rid rects ≡ₚ seq 0 (length boxes).
Proof.
  intros Hnd Hin Hlen. apply submseteq_length_Permutation.
  - apply NoDup_submseteq; [done|]. intros i Hi.
    apply list_elem_of_fmap in Hi as (r & -> & Hr).
    rewrite Forall_forall in Hin. apply Hin, lookup_lt_is_Some in Hr.
    apply elem_of_seq. lia.
  - by rewrite length_seq, length_map.
Qed.

(** What a successful attempt returns, given the contract of the packer. *)
Lemma try_pack_in_bin_Some (width height : Z) (placements : list Box) (used_area : Z) :
  try_pack_in_bin rectpack boxes width height = Ok (Some (placements, used_area)) ->
  map unrotated placements ≡ₚ map unrotated_sb boxes /\
  Forall (in_bin width height) placements /\
  pairwise PlacerSpec.disjoint placements /\
  (Forall (fun b => 0 < sb_width b /\ 0 < sb_height b) boxes ->
   Forall (fun b => 0 <= box_width b /\ 0 <= box_height b) placements) /\
  exists bounds, compute_bounds placements = Ok bounds /\ used_area = bounds_area bounds.
Proof.
  unfold try_pack_in_bin. fold (dims boxes).
  destruct (rectpack_ok width height) as [Hnd Hdims Hinside Hsep].
  set (rects := rectpack (dims boxes) width height) in *.
  destruct (length rects <? length boxes)%nat eqn:Hlen; [done|].
  apply Nat.ltb_ge in Hlen.
  destruct (mapM (placement_of boxes) rects) as [ps|] eqn:Hps; [|done].
  intros H. apply rbind_Ok in H as (bounds & Hbounds & H). injection H as <- <-.
  apply mapM_Some_1 in Hps.
  assert (Forall2 (fun r b =>
            exists source, boxes !! pr_rid r = Some source /\
              b = mkBox (pr_x r) (pr_y r) (pr_w r) (pr_h r)
                        (sb_color source) (sb_color_name source)) rects ps) as Hsrc.
  { eapply Forall2_impl; [exact Hps|]. intros r b. apply placement_of_Some. }
  clear Hps. split_and!.
  - assert (map unrotated ps
            = map (fun i => unrotated_sb (boxes !!! i)) (map pr_rid rects)) as ->.
    { clear Hnd Hinside Hsep Hlen Hbounds.
      induction Hsrc as [|r b rects' ps' (source & Hsource & ->) _ IH]; simpl; [done|].
      apply Forall_cons in Hdims as [(w & h & Hwh & Hrot) Hdims].
      rewrite IH by done. f_equal.
      rewrite (list_lookup_total_correct _ _ _ Hsource).
      unfold dims in Hwh. rewrite list_lookup_fmap, Hsource in Hwh.
      injection Hwh as <- <-. unfold unrotated, unrotated_sb. simpl.
      destruct Hrot as [[-> ->]|[-> ->]]; [done|].
      by rewrite Z.min_comm, Z.max_comm. }
    rewrite rids_Permutation; [|done| |done].
    + replace (map unrotated_sb boxes)
        with (map unrotated_sb (map (fun i => boxes !!! i) (seq 0 (length boxes))))
        by (by rewrite map_lookup_total_seq).
      by rewrite map_map.
    + clear -Hsrc. induction Hsrc as [|r b ?? (source & Hsource & _) _ IH];
        constructor; [by exists source|done].
  - clear -Hsrc Hinside.
    induction Hsrc as [|r b ?? (source & _ & ->) _ IH]; [constructor|].
    apply Forall_cons in Hinside as [? ?]. constructor; [|auto].
    unfold in_bin. simpl. lia.
  - eapply (pairwise_Forall2 separated); [|exact Hsrc|exact Hsep].
    intros r r' b b' (s & _ & ->) (s' & _ & ->) Hrr'.
    unfold PlacerSpec.disjoint. apply not_true_is_false.
    rewrite boxes_overlap_true. unfold separated in Hrr'. simpl. lia.
  - intros Hpos. clear -Hsrc Hdims Hpos.
    induction Hsrc as [|r b ?? (source & Hsource & ->) _ IH]; [constructor|].
    apply Forall_cons in Hdims as [(w & h & Hwh & Hrot) Hdims].
    constructor; [|auto]. simpl.
    unfold dims in Hwh. rewrite list_lookup_fmap, Hsource in Hwh.
    injection Hwh as <- <-.
    rewrite Forall_forall in Hpos.
    destruct (Hpos source) as [? ?]; [by eapply list_elem_of_lookup_2|]. lia.
  - by exists bounds.
Qed.

Lemma unrotated_area (ps : list Box) :
  map unrotated ps ≡ₚ map unrotated_sb boxes ->
  sumZ box_area ps = sumZ sb_area boxes.
Proof.
  intros Hp.
  rewrite (sumZ_ext box_area (fun b => (fun t => t.1.1 * t.1.2) (unrotated b))).
  - rewrite <- (sumZ_map (fun t => t.1.1 * t.1.2) unrotated).
    rewrite (sumZ_Permutation _ _ _ Hp), sumZ_map.
    apply sumZ_ext. intros b _. unfold unrotated_sb, sb_area. simpl. lia.
  - intros b _. unfold unrotated, box_area. simpl. lia.
Qed.

(** The used area of a successful attempt in a bin of the canvas is at least
    the total area of the rectangles. *)
Lemma try_pack_in_bin_area (width height : Z) (placements : list Box) (used_area : Z) :
  width <= IMAGE_WIDTH -> height <= IMAGE_HEIGHT ->
  Forall (fun b => 0 < sb_width b /\ 0 < sb_height b) boxes ->
  try_pack_in_bin rectpack boxes width height = Ok (Some (placements, used_area)) ->
  sumZ sb_area boxes <= used_area.
Proof.
  intros Hw Hh Hpos H.
  apply try_pack_in_bin_Some in H as (Hperm & Hin & Hdis & Hnonneg & bounds & Hb & ->).
  rewrite <- (unrotated_area placements Hperm).
  apply bounds_area_ge; [done| |by apply Hnonneg|done].
  eapply Forall_impl; [exact Hin|]. unfold in_bin. intros b ?. lia.
Qed.

(** The result of the loop over the candidate bins: it comes from the
    initial best result or from a bin of the list, and unless it reached the
    theoretical minimum no successful bin of the list did better. *)
Lemma pack_loop_spec (min_possible_area : Z) (bins : list (Z * Z)) :
  forall (best_result res : option (list Box * Z)),
  pack_loop rectpack boxes min_possible_area bins best_result = Ok res ->
  match res with
  | None =>
      best_result = None /\
      forall w h, (w, h) ∈ bins -> try_pack_in_bin rectpack boxes w h = Ok None
  | Some (p, a) =>
      (best_result = Some (p, a) \/
       exists w h, (w, h) ∈ bins /\
                   try_pack_in_bin rectpack boxes w h = Ok (Some (p, a))) /\
      (a <= min_possible_area \/
       ((forall p0 a0, best_result = Some (p0, a0) -> a <= a0) /\
        forall w h p' a',
          (w, h) ∈ bins ->
          try_pack_in_bin rectpack boxes w h = Ok (Some (p', a')) -> a <= a'))
  end.
Proof.
  induction bins as [|[w h] bins IH]; intros best_result res; simpl.
  - intros [= <-]. destruct best_result as [[p a]|].
    + split; [by left|]. right. split.
      * intros p0 a0 [= <- <-]. lia.
      * intros ???? Hin. by apply elem_of_nil in Hin.
    + split; [done|]. intros ?? Hin. by apply elem_of_nil in Hin.
  - intros H. apply rbind_Ok in H as (attempt & Hattempt & H).
    destruct attempt as [[p1 a1]|].
    + destruct (match best_result with
                | Some best => a1 <? best.2
                | None => true
                end) eqn:Hbetter.
      * destruct (Z.leb_spec a1 min_possible_area) as [Hmin|Hmin].
        { injection H as <-. split; [|by left].
          right. exists w, h. split; [left|done]. }
        apply IH in H. destruct res as [[p a]|]; [|by destruct H].
        destruct H as [Hfrom Hbest]. split.
        { destruct Hfrom as [[= <- <-]|(w' & h' & Hin & Hatt)].
          - right. exists w, h. split; [left|done].
          - right. exists w', h'. split; [by right|done]. }
        destruct Hbest as [Hle|[Hle Hall]]; [by left|right].
        specialize (Hle p1 a1 eq_refl). split.
        { intros p0 a0 ->. simpl in Hbetter. apply Z.ltb_lt in Hbetter. lia. }
        intros w' h' p' a' Hin Hatt. apply elem_of_cons in Hin as [[= -> ->]|Hin].
        { rewrite Hattempt in Hatt. injection Hatt as <- <-. done. }
        by eapply Hall.
      * destruct best_result as [[p0 a0]|]; [|done]. simpl in Hbetter.
        apply Z.ltb_ge in Hbetter.
        apply IH in H. destruct res as [[p a]|]; [|by destruct H].
        destruct H as [Hfrom Hbest]. split.
        { destruct Hfrom as [Heq|(w' & h' & Hin & Hatt)]; [by left|].
          right. exists w', h'. split; [by right|done]. }
        destruct Hbest as [Hle|[Hle Hall]]; [by left|right].
        specialize (Hle p0 a0 eq_refl). split.
        { by intros ?? [= <- <-]. }
        intros w' h' p' a' Hin Hatt. apply elem_of_cons in Hin as [[= -> ->]|Hin].
        { rewrite Hattempt in Hatt. injection Hatt as <- <-. lia. }
        by eapply Hall.
    + apply IH in H. destruct res as [[p a]|].
      * destruct H as [Hfrom Hbest]. split.
        { destruct Hfrom as [Heq|(w' & h' & Hin & Hatt)]; [by left|].
          right. exists w', h'. split; [by right|done]. }
        destruct Hbest as [Hle|[Hle Hall]]; [by left|right]. split; [done|].
        intros w' h' p' a' Hin Hatt. apply elem_of_cons in Hin as [[= -> ->]|Hin].
        { rewrite Hattempt in Hatt. done. }
        by eapply Hall.
      * destruct H as [Hnone Hall]. split; [done|].
        intros w' h' Hin. apply elem_of_cons in Hin as [[= -> ->]|Hin]; [done|].
        by apply Hall.
Qed.

(** The chosen candidate: a successful attempt in a bin of the canvas that
    is no worse than the attempt in the full canvas, unless it reached the
    theoretical minimum. *)
Lemma best_packing_spec (placements : list Box) (used_area : Z) :
  best_packing rectpack boxes = Ok (placements, used_area) ->
  (exists w h, w <= IMAGE_WIDTH /\ h <= IMAGE_HEIGHT /\
     try_pack_in_bin rectpack boxes w h = Ok (Some (placements, used_area))) /\
  (forall full used_full,
     try_pack_in_bin rectpack boxes IMAGE_WIDTH IMAGE_HEIGHT = Ok (Some (full, used_full)) ->
     used_area <= used_full \/ used_area <= sumZ sb_area boxes).
Proof.
  unfold best_packing. intros H.
  apply rbind_Ok in H as (bins & Hbins & H).
  apply rbind_Ok in H as (res & Hloop & H).
  apply generate_candidate_bins_spec in Hbins as [Hcanvas Hfull].
  apply pack_loop_spec in Hloop.
  destruct res as [[p a]|].
  - injection H as -> ->.
    destruct Hloop as [[?|(w & h & Hin & Hatt)] Hbest]; [done|]. split.
    + exists w, h. destruct (Hcanvas w h Hin). done.
    + intros full used_full Hatt_full.
      destruct Hbest as [Hle|[_ Hall]]; [by right|left].
      eapply Hall; [|exact Hatt_full]. apply Hfull. intros ->. by apply elem_of_nil in Hin.
  - destruct Hloop as [_ Hnone].
    apply rbind_Ok in H as (fallback & Hfallback & H).
    destruct fallback as [best|]; [|done]. injection H as ->. split.
    + exists IMAGE_WIDTH, IMAGE_HEIGHT. done.
    + intros full used_full Hatt_full. left.
      rewrite Hfallback in Hatt_full. injection Hatt_full as <- <-. lia.
Qed.

Lemma sort_placements_Permutation (placements ordered : list Box) :
  sort_placements placements = Ok ordered -> ordered ≡ₚ placements.
Proof.
  unfold sort_placements.
  destruct (mapM _ placements) as [keyed|] eqn:Hkeys; [|done].
  intros [= <-]. apply keyed_snd in Hkeys. rewrite <- Hkeys.
  apply Permutation_map, sort_by_Permutation.
Qed.

Lemma pack_boxes_Ok (result : list Box) :
  pack_boxes rectpack boxes = Ok result ->
  exists placements used_area,
    best_packing rectpack boxes = Ok (placements, used_area) /\ result ≡ₚ placements.
Proof.
  unfold pack_boxes. intros H. apply rbind_Ok in H as ([p a] & Hbest & H).
  exists p, a. split; [done|]. by apply sort_placements_Permutation.
Qed.

Lemma pack_boxes_conserves (result : list Box) :
  pack_boxes rectpack boxes = Ok result ->
  map unrotated result ≡ₚ map unrotated_sb boxes.
Proof.
  intros H. apply pack_boxes_Ok in H as (p & a & Hbest & Hperm).
  apply best_packing_spec in Hbest as [(w & h & _ & _ & Hatt) _].
  apply try_pack_in_bin_Some in Hatt as (Hconserve & _).
  by rewrite Hperm.
Qed.

(** C5: when the packer honours its contract and the rectangles have
    positive width and height, the bounds of the placement that [pack_boxes]
    returns have an area of at least the sum of the rectangle areas. *)
Theorem pack_boxes_area_lower_bound (result : list Box) :
  Forall (fun b => 0 < sb_width b /\ 0 < sb_height b) boxes ->
  pack_boxes rectpack boxes = Ok result ->
  exists bounds,
    compute_bounds result = Ok bounds /\ sumZ sb_area boxes <= bounds_area bounds.
Proof.
  intros Hpos H. apply pack_boxes_Ok in H as (p & a & Hbest & Hperm).
  apply best_packing_spec in Hbest as [(w & h & Hw & Hh & Hatt) _].
  pose proof (try_pack_in_bin_area w h p a Hw Hh Hpos Hatt) as Harea.
  apply try_pack_in_bin_Some in Hatt as (_ & _ & _ & _ & bounds & Hbounds & ->).
  exists bounds. split; [|done].
  by rewrite (compute_bounds_Permutation _ _ Hperm).
Qed.

(** C6: under the same conditions, the bounds of the placement that
    [pack_boxes] returns have an area of at most the area of the bounds
    obtained by packing into the full canvas directly. *)
Theorem pack_boxes_area_le_full_canvas (result full : list Box) (used_full : Z) :
  Forall (fun b => 0 < sb_width b /\ 0 < sb_height b) boxes ->
  pack_boxes rectpack boxes = Ok result ->
  try_pack_in_bin rectpack boxes IMAGE_WIDTH IMAGE_HEIGHT = Ok (Some (full, used_full)) ->
  exists bounds bounds_full,
    compute_bounds result = Ok bounds /\ compute_bounds full = Ok bounds_full /\
    used_full = bounds_area bounds_full /\
    bounds_area bounds <= bounds_area bounds_full.
Proof.
  intros Hpos H Hfull. apply pack_boxes_Ok in H as (p & a & Hbest & Hperm).
  apply best_packing_spec in Hbest as [(w & h & Hw & Hh & Hatt) Hle].
  specialize (Hle full used_full Hfull).
  pose proof (try_pack_in_bin_area IMAGE_WIDTH IMAGE_HEIGHT full used_full
                (Z.le_refl _) (Z.le_refl _) Hpos Hfull) as Harea.
  apply try_pack_in_bin_Some in Hatt as (_ & _ & _ & _ & bounds & Hbounds & ->).
  apply try_pack_in_bin_Some in Hfull as (_ & _ & _ & _ & bounds_full & Hbf & ->).
  exists bounds, bounds_full. split_and!; [|done|done|lia].
  by rewrite (compute_bounds_Permutation _ _ Hperm).
Qed.

End PackingFacts.

(** * Conservation *)

Section RowPack.

Import GenerateImages SolutionsGen PackingSpec.

(** The row packer honours the contract on the two example boxes. *)
Lemma row_pack_two_boxes_contract (width height : Z) :
  rectpack_contract (dims two_boxes) width height
                    (row_pack (dims two_boxes) width height).
Proof.
  unfold row_pack, dims, two_boxes. simpl.
  repeat match goal with
         | |- context [?a <=? ?b] => destruct (Z.leb_spec a b); simpl
         end;
    (constructor; simpl;
     [ apply (bool_decide_unpack _); vm_compute; exact I
     | repeat constructor; eexists _, _; (split; [reflexivity|by left])
     | repeat constructor; simpl; lia
     | unfold separated; simpl; repeat split; repeat constructor; simpl; lia ]).
Qed.

End RowPack.

(** C2: the placer returns the (width, height, color) triples of its input
    as a multiset; when the packer honours its contract, [pack_boxes]
    returns them up to swapping width and height of single rectangles. *)
Theorem conservation (boxes : list GenerateImages.Box)
    (rectpack : list (Z * Z) -> Z -> Z -> list SolutionsGen.PackedRect)
    (sized_boxes : list SolutionsGen.SizedBox) :
  (forall rng k k' out,
     GenerateImages.arrange_boxes_without_overlap rng boxes k = Ok (out, k') ->
     map PlacerSpec.triple out ≡ₚ map PlacerSpec.triple boxes) /\
  ((forall width height,
      PackingSpec.rectpack_contract (PackingSpec.dims sized_boxes) width height
        (rectpack (PackingSpec.dims sized_boxes) width height)) ->
   forall out,
     SolutionsGen.pack_boxes rectpack sized_boxes = Ok out ->
     map PackingSpec.unrotated out ≡ₚ map PackingSpec.unrotated_sb sized_boxes).
Proof.
  split.
  - intros rng k k' out. apply placer_conserves.
  - intros Hok out. by apply pack_boxes_conserves.
Qed.

Lemma conservation_witness :
  (exists out k',
     GenerateImages.arrange_boxes_without_overlap PlacerSpec.lcg PlacerSpec.five_boxes 0%nat
     = Ok (out, k') /\
     map PlacerSpec.triple out ≡ₚ map PlacerSpec.triple PlacerSpec.five_boxes) /\
  (exists out,
     SolutionsGen.pack_boxes PackingSpec.row_pack PackingSpec.two_boxes = Ok out /\
     map PackingSpec.unrotated out
     ≡ₚ map PackingSpec.unrotated_sb PackingSpec.two_boxes).
Proof.
  destruct (conservation PlacerSpec.five_boxes PackingSpec.row_pack PackingSpec.two_boxes)
    as [Hplace Hpack].
  split.
  - eexists _, _. split; [vm_compute; reflexivity|].
    eapply (Hplace PlacerSpec.lcg 0%nat 10%nat). vm_compute. reflexivity.
  - eexists. split; [vm_compute; reflexivity|].
    apply Hpack; [apply row_pack_two_boxes_contract|]. vm_compute. reflexivity.
Defined.

Lemma pack_boxes_area_lower_bound_witness :
  exists result bounds,
    SolutionsGen.pack_boxes PackingSpec.row_pack PackingSpec.two_boxes = Ok result /\
    SolutionsGen.compute_bounds result = Ok bounds /\
    sumZ SolutionsGen.sb_area PackingSpec.two_boxes <= PackingSpec.bounds_area bounds.
Proof.
  eexists. 
  destruct (pack_boxes_area_lower_bound PackingSpec.row_pack PackingSpec.two_boxes
              row_pack_two_boxes_contract
              [ GenerateImages.mkBox 0 0 100 80 (255, 0, 0) "red";
                GenerateImages.mkBox 100 0 60 60 (0, 255, 0) "green" ])
    as (bounds & Hbounds & Harea).
  - repeat constructor.
  - vm_compute. reflexivity.
  - exists bounds. split; [vm_compute; reflexivity|]. by split.
Defined.

Lemma pack_boxes_area_le_full_canvas_witness :
  exists result full used_full bounds bounds_full,
    SolutionsGen.pack_boxes PackingSpec.row_pack PackingSpec.two_boxes = Ok result /\
    SolutionsGen.try_pack_in_bin PackingSpec.row_pack PackingSpec.two_boxes
      GenerateImages.IMAGE_WIDTH GenerateImages.IMAGE_HEIGHT = Ok (Some (full, used_full)) /\
    SolutionsGen.compute_bounds result = Ok bounds /\
    SolutionsGen.compute_bounds full = Ok bounds_full /\
    used_full = PackingSpec.bounds_area bounds_full /\
    PackingSpec.bounds_area bounds <= PackingSpec.bounds_area bounds_full.
Proof.
  destruct (pack_boxes_area_le_full_canvas PackingSpec.row_pack PackingSpec.two_boxes
              row_pack_two_boxes_contract
              [ GenerateImages.mkBox 0 0 100 80 (255, 0, 0) "red";
                GenerateImages.mkBox 100 0 60 60 (0, 255, 0) "green" ]
              [ GenerateImages.mkBox 0 0 100 80 (255, 0, 0) "red";
                GenerateImages.mkBox 100 0 60 60 (0, 255, 0) "green" ]
              13284)
    as (bounds & bounds_full & H1 & H2 & H3 & H4).
  - repeat constructor.
  - vm_compute. reflexivity.
  - vm_compute. reflexivity.
  - eexists _, _, _, bounds, bounds_full.
    split; [vm_compute; reflexivity|]. split; [vm_compute; reflexivity|]. done.
Defined.

(** * The occupancy mask *)

(** C3 fails on the code: the mask is filled up to the corner
    (x + w, y + h) included, one pixel more than the w x h region per axis.
    For two 30 x 30 bounding boxes that share one pixel in a 64 x 64 image
    the mask has 1918 pixels set, more than the sum 1800 of the two areas;
    a single 30 x 30 box already sets 961 pixels. *)
Theorem occupied_pixels_exceed_area_sum (dominant_color_rgb : Z * Z * Z * Z -> rgb) :
  let summary :=
    Validation.analyze_rectangles_and_empty_space dominant_color_rgb 64 64
      ValidationSpec.overlapping_bboxes in
  GenerateImages.boxes_overlap (ValidationSpec.box_of_bbox (0, 0, 30, 30))
                               (ValidationSpec.box_of_bbox (29, 29, 30, 30)) = true /\
  Validation.occupied_pixels summary = 1918 /\
  sumZ Validation.rect_area (Validation.rectangles summary) = 1800 /\
  ~ Validation.occupied_pixels summary
    < sumZ Validation.rect_area (Validation.rectangles summary) /\
  Validation.occupied_pixels
    (Validation.analyze_rectangles_and_empty_space dominant_color_rgb 64 64 [(0, 0, 30, 30)])
  = 961.
Proof.
  assert (Validation.occupied_pixels
            (Validation.analyze_rectangles_and_empty_space dominant_color_rgb 64 64
               ValidationSpec.overlapping_bboxes) = 1918) as Hocc
    by (vm_compute; reflexivity).
  assert (sumZ Validation.rect_area
            (Validation.rectangles
               (Validation.analyze_rectangles_and_empty_space dominant_color_rgb 64 64
                  ValidationSpec.overlapping_bboxes)) = 1800) as Hsum
    by (vm_compute; reflexivity).
  cbv zeta. rewrite Hocc, Hsum. split_and!; [reflexivity|done|done|lia|].
  vm_compute. reflexivity.
Qed.

(** * Further properties of the placer *)

Section SortFacts.

Context {A : Type}.

(** Sorting a sorted list changes nothing. *)
Lemma sort_by_sorted_id (le : A -> A -> bool) (l : list A) :
  Sorted (fun a b => le a b = true) l -> sort_by le l = l.
Proof.
  induction 1 as [|a l Hl IH Hhd]; [done|].
  change (sort_by le (a :: l)) with (insert_by le a (sort_by le l)).
  rewrite IH. destruct Hhd as [|b l Hab]; [done|]. simpl. by rewrite Hab.
Qed.

Lemma insert_by_Sorted (le : A -> A -> bool) (a : A) (l : list A) :
  (forall a b, le a b = false -> le b a = true) ->
  Sorted (fun a b => le a b = true) l ->
  Sorted (fun a b => le a b = true) (insert_by le a l).
Proof.
  intros Htotal. induction 1 as [|b l Hl IH Hhd]; simpl.
  - by repeat constructor.
  - destruct (le a b) eqn:Hab.
    + constructor; [by constructor|by constructor].
    + constructor; [done|].
      destruct Hhd as [|c l Hbc]; simpl.
      * constructor. by apply Htotal.
      * destruct (le a c); constructor; [by apply Htotal|done].
Qed.

Lemma sort_by_Sorted (le : A -> A -> bool) (l : list A) :
  (forall a b, le a b = false -> le b a = true) ->
  Sorted (fun a b => le a b = true) (sort_by le l).
Proof.
  intros Htotal. induction l as [|a l IH]; [constructor|].
  by apply insert_by_Sorted.
Qed.

(** The sort is stable: the elements of one key keep their order. *)
Lemma filter_insert_by (key : A -> nat) (n : nat) (a : A) (l : list A) :
  filter (fun b => key b = n) (insert_by (fun a b => (key a <=? key b)%nat) a l) =
  filter (fun b => key b = n) (a :: l).
Proof.
  induction l as [|b l IH]; simpl; [done|].
  destruct (Nat.leb_spec (key a) (key b)) as [Hab|Hab]; [done|].
  rewrite !filter_cons in *.
  destruct (decide (key b = n)) as [Hb|Hb], (decide (key a = n)) as [Ha|Ha];
    try lia; by rewrite IH.
Qed.

Lemma filter_sort_by (key : A -> nat) (n : nat) (l : list A) :
  filter (fun b => key b = n) (sort_by (fun a b => (key a <=? key b)%nat) l) =
  filter (fun b => key b = n) l.
Proof.
  induction l as [|a l IH]; [done|].
  change (sort_by ?le (a :: l)) with (insert_by le a (sort_by le l)).
  by rewrite filter_insert_by, !filter_cons, IH.
Qed.

Lemma sort_by_ext (le le' : A -> A -> bool) (l : list A) :
  (forall a b, a ∈ l -> b ∈ l -> le a b = le' a b) -> sort_by le l = sort_by le' l.
Proof.
  induction l as [|a l IH]; intros Hext; [done|].
  change (sort_by ?le (a :: l)) with (insert_by le a (sort_by le l)).
  rewrite <- IH by (intros; apply Hext; by right).
  assert (forall b, b ∈ sort_by le l -> le a b = le' a b) as Ha.
  { intros b Hb. apply Hext; [left|right].
    by rewrite <- (sort_by_Permutation le l). }
  revert Ha. generalize (sort_by le l) as k.
  induction k as [|b k IHk]; intros Ha; simpl; [done|].
  rewrite <- Ha by left. destruct (le a b); [done|].
  f_equal. apply IHk. intros c Hc. apply Ha. by right.
Qed.

End SortFacts.

Section CreateFacts.

Import GenerateImages PlacerSpec.

Variable rng : nat -> Z.

Lemma bind_run {A B} (c : M A) (f : A -> M B) (k k1 : nat) (a : A) :
  c k = Ok (a, k1) -> bind c f k = f a k1.
Proof. unfold bind. by intros ->. Qed.

Lemma create_boxes_loop_spec (colors : list (string * rgb)) :
  forall (boxes : list Box) (k : nat),
  exists new,
    create_boxes_loop rng colors boxes k
    = Ok (boxes ++ new, (k + 4 * length colors)%nat) /\
    map (fun b => (box_color_name b, box_color b)) new = colors /\
    Forall (fun b => 50 <= box_width b <= 200 /\ 50 <= box_height b <= 200 /\
                     in_canvas b) new.
Proof.
  induction colors as [|[color_name color_value] colors IH]; intros boxes k.
  - exists []. simpl. rewrite app_nil_r, Nat.add_0_r. by split_and!.
  - simpl create_boxes_loop.
    destruct (randint_in_range rng 50 200 k) as (w & Hw & Hwr); [lia|].
    destruct (randint_in_range rng 50 200 (S k)) as (h & Hh & Hhr); [lia|].
    destruct (randint_in_range rng 0 (IMAGE_WIDTH - w) (S (S k)))
      as (x & Hx & Hxr); [unfold IMAGE_WIDTH; lia|].
    destruct (randint_in_range rng 0 (IMAGE_HEIGHT - h) (S (S (S k))))
      as (y & Hy & Hyr); [unfold IMAGE_HEIGHT; lia|].
    rewrite (bind_run _ _ _ _ _ Hw), (bind_run _ _ _ _ _ Hh),
      (bind_run _ _ _ _ _ Hx), (bind_run _ _ _ _ _ Hy).
    destruct (IH (boxes ++ [mkBox x y w h color_value color_name]) (S (S (S (S k)))))
      as (new & Hnew & Hnames & Hok).
    exists (mkBox x y w h color_value color_name :: new). split_and!.
    + rewrite Hnew, <- app_assoc. simpl. do 2 f_equal. lia.
    + simpl. by rewrite Hnames.
    + constructor; [|done]. unfold in_canvas. simpl. lia.
Qed.

Lemma create_random_boxes_run (k : nat) :
  exists boxes,
    create_random_boxes rng k = Ok (boxes, (k + 20)%nat) /\
    map (fun b => (box_color_name b, box_color b)) boxes = COLORS /\
    Forall (fun b => 50 <= box_width b <= 200 /\ 50 <= box_height b <= 200 /\
                     in_canvas b) boxes.
Proof.
  destruct (create_boxes_loop_spec COLORS [] k) as (new & H & Hnames & Hok).
  exists new. by split_and!.
Qed.

(** X1: [create_random_boxes] never fails and consumes twenty draws; it
    returns one box per palette colour, in palette order, with sides between
    50 and 200 and inside the canvas. *)
Theorem create_random_boxes_spec (k : nat) :
  exists boxes,
    create_random_boxes rng k = Ok (boxes, (k + 20)%nat) /\
    map (fun b => (box_color_name b, box_color b)) boxes = COLORS /\
    Forall (fun b => 50 <= box_width b <= 200 /\ 50 <= box_height b <= 200 /\
                     in_canvas b) boxes.
Proof. apply create_random_boxes_run. Qed.

End CreateFacts.

Section PlacerErrors.

Import GenerateImages PlacerSpec.

Variable rng : nat -> Z.

Lemma random_attempts_fits (n : nat) (placed_boxes : list nat) (idx : nat) :
  forall (boxes_copy : list Box) (k : nat),
  (idx < length boxes_copy)%nat ->
  box_width (boxes_copy !!! idx) <= IMAGE_WIDTH ->
  box_height (boxes_copy !!! idx) <= IMAGE_HEIGHT ->
  exists r k', random_attempts rng n boxes_copy placed_boxes idx k = Ok (r, k').
Proof.
  induction n as [|n IH]; intros s k Hidx Hw Hh; simpl.
  - by eexists _, _.
  - destruct (randint_in_range rng 0 (IMAGE_WIDTH - box_width (s !!! idx)) k)
      as (x & Hx & _); [lia|].
    destruct (randint_in_range rng 0 (IMAGE_HEIGHT - box_height (s !!! idx)) (S k))
      as (y & Hy & _); [lia|].
    rewrite (bind_run _ _ _ _ _ Hx), (bind_run _ _ _ _ _ Hy).
    destruct (all_clear _ idx placed_boxes); [by eexists _, _|].
    apply IH; rewrite ?length_insert, ?list_lookup_total_insert_eq; done.
Qed.

Lemma attempts_then_grid_no_ValueError (n : nat) (boxes_copy : list Box)
    (placed_boxes : list nat) (idx : nat) (k : nat) (e : exn) :
  (idx < length boxes_copy)%nat ->
  box_width (boxes_copy !!! idx) <= IMAGE_WIDTH ->
  box_height (boxes_copy !!! idx) <= IMAGE_HEIGHT ->
  bind (random_attempts rng n boxes_copy placed_boxes idx)
       (fun r =>
          let '(boxes_copy1, placed) := r in
          let '(boxes_copy2, placed) :=
            if placed then (boxes_copy1, true)
            else grid_search boxes_copy1 placed_boxes idx in
          if placed then ret boxes_copy2 else raise RuntimeError) k
  = Raise e ->
  e = RuntimeError.
Proof.
  intros Hidx Hw Hh H.
  destruct (random_attempts_fits n placed_boxes idx boxes_copy k Hidx Hw Hh)
    as ([s1 ok1] & k1 & Hr).
  rewrite (bind_run _ _ _ _ _ Hr) in H.
  destruct ok1; [done|].
  destruct (grid_search s1 placed_boxes idx) as [s2 ok2].
  destruct ok2; [done|]. unfold raise in H. congruence.
Qed.

Lemma place_one_no_ValueError (boxes_copy : list Box) (placed_boxes : list nat)
    (idx : nat) (k : nat) (e : exn) :
  (idx < length boxes_copy)%nat ->
  box_width (boxes_copy !!! idx) <= IMAGE_WIDTH ->
  box_height (boxes_copy !!! idx) <= IMAGE_HEIGHT ->
  place_one rng boxes_copy placed_boxes idx k = Raise e -> e = RuntimeError.
Proof.
  intros Hidx Hw Hh H. rewrite place_one_unfold in H.
  by eapply attempts_then_grid_no_ValueError.
Qed.

Lemma place_all_no_ValueError (order : list nat) :
  forall (boxes_copy : list Box) (placed_boxes : list nat) (k : nat) (e : exn),
  Forall (fun i => (i < length boxes_copy)%nat) order ->
  Forall (fun b => box_width b <= IMAGE_WIDTH /\ box_height b <= IMAGE_HEIGHT) boxes_copy ->
  place_all rng order boxes_copy placed_boxes k = Raise e -> e = RuntimeError.
Proof.
  induction order as [|idx order IH]; intros s placed k e Hlen Hfit; simpl; [done|].
  intros H. apply Forall_cons in Hlen as [Hidx Hlen].
  assert (box_width (s !!! idx) <= IMAGE_WIDTH /\ box_height (s !!! idx) <= IMAGE_HEIGHT)
    as [Hw Hh].
  { rewrite Forall_forall in Hfit. apply Hfit, list_elem_of_lookup_total_2, Hidx. }
  apply bind_Raise in H as [H|(s1 & k1 & Hone & H)].
  - by eapply place_one_no_ValueError.
  - apply place_one_moved in Hone as (b & -> & (Hbw & Hbh & _) & _); [|done].
    eapply IH; [| |exact H].
    + by rewrite length_insert.
    + apply Forall_insert; [done|]. lia.
Qed.

Lemma py_index_is_Some {A} `{EqDecision A} (a : A) (l : list A) :
  a ∈ l -> is_Some (py_index a l).
Proof.
  induction 1 as [|a b l _ IH]; simpl.
  - by rewrite decide_True.
  - destruct (decide (a = b)); [done|]. destruct IH as [i ->]. by eexists.
Qed.

Lemma sort_by_color_is_Ok (boxes_copy : list Box) :
  Forall (fun b => box_color_name b ∈ map fst COLORS) boxes_copy ->
  exists ordered_boxes, sort_by_color boxes_copy = Ok ordered_boxes.
Proof.
  intros Hnames. unfold sort_by_color.
  destruct (mapM _ boxes_copy) as [keyed|] eqn:Hkeys; [by eexists|].
  exfalso. apply eq_None_not_Some in Hkeys. apply Hkeys, mapM_is_Some.
  eapply Forall_impl; [exact Hnames|]. intros b Hb. unfold compose. cbv beta.
  destruct (py_index_is_Some _ _ Hb) as [i ->]. by eexists.
Qed.

Lemma arrange_raises_only_RuntimeError_aux (boxes : list Box) (k : nat) (e : exn) :
  Forall placeable boxes ->
  arrange_boxes_without_overlap rng boxes k = Raise e -> e = RuntimeError.
Proof.
  intros Hok H. unfold arrange_boxes_without_overlap in H.
  pose proof (placement_order_Permutation boxes) as Hperm.
  apply bind_Raise in H as [H|(s & k1 & Hall & H)].
  - eapply place_all_no_ValueError; [| |exact H].
    + apply Forall_forall. intros i Hi. rewrite Hperm in Hi.
      apply list_elem_of_In, in_seq in Hi. lia.
    + eapply Forall_impl; [exact Hok|]. by intros b (? & ? & _).
  - apply place_all_inv in Hall as [Hshape _].
    + destruct (sort_by_color_is_Ok s) as [out Hout]; [|by rewrite Hout in H].
      clear H Hperm. induction Hshape as [|b c s boxes Hbc _ IH]; [done|].
      apply Forall_cons in Hok as [(_ & _ & Hc) Hok].
      constructor; [|by apply IH].
      destruct Hbc as (_ & _ & _ & ->). done.
    + simpl. rewrite Hperm. apply NoDup_seq.
    + apply Forall_forall. intros i Hi. rewrite Hperm in Hi.
      apply list_elem_of_In, in_seq in Hi. lia.
    + split; simpl; constructor.
Qed.

(** X2: on boxes that are not larger than the canvas and carry palette
    colours the placer never raises [ValueError] or [IndexError]: its only
    exception is the [RuntimeError] of a failed placement. *)
Theorem arrange_raises_only_RuntimeError (boxes : list Box) (k : nat) (e : exn) :
  Forall placeable boxes ->
  arrange_boxes_without_overlap rng boxes k = Raise e -> e = RuntimeError.
Proof. apply arrange_raises_only_RuntimeError_aux. Qed.

End PlacerErrors.

Lemma arrange_raises_only_RuntimeError_witness :
  Forall PlacerSpec.placeable PlacerSpec.blocked_boxes /\
  arrange_boxes_without_overlap (fun _ => 100) PlacerSpec.blocked_boxes 0%nat
  = Raise RuntimeError.
Proof.
  assert (Forall placeable blocked_boxes) as Hok.
  { repeat constructor; unfold IMAGE_WIDTH, IMAGE_HEIGHT; simpl; try lia;
      apply (bool_decide_unpack _); vm_compute; exact I. }
  split; [exact Hok|].
  destruct (arrange_boxes_without_overlap (fun _ => 100) blocked_boxes 0%nat)
    as [[out k']|e] eqn:H.
  - exfalso. revert H. vm_compute. discriminate.
  - f_equal. exact (arrange_raises_only_RuntimeError (fun _ => 100) blocked_boxes 0%nat e Hok H).
Defined.

Section ColorOrder.

Import GenerateImages PlacerSpec.

Lemma keyed_rank {K} (f : Box -> option K) (l : list Box) (keyed : list (K * Box)) :
  mapM (fun b => (fun k => (k, b)) <$> f b) l = Some keyed ->
  Forall (fun kb => f kb.2 = Some kb.1) keyed.
Proof.
  intros H. apply mapM_Some_1 in H.
  induction H as [|b kb l keyed Hkb _ IH]; [done|].
  constructor; [|done]. destruct (f b) eqn:Hf; by simplify_eq/=.
Qed.

Lemma py_index_lookup {A} `{EqDecision A} (a : A) (l : list A) (i : nat) :
  py_index a l = Some i -> l !! i = Some a.
Proof.
  revert i. induction l as [|b l IH]; intros i; simpl; [done|].
  destruct (decide (a = b)) as [->|_]; [by intros [= <-]|].
  destruct (py_index a l) as [j|]; [|done]. intros [= <-]. by apply IH.
Qed.

Lemma filter_map_snd {K} (P : Box -> Prop) (Q : K * Box -> Prop)
    `{!forall b, Decision (P b)} `{!forall kb, Decision (Q kb)} (l : list (K * Box)) :
  Forall (fun kb => P kb.2 <-> Q kb) l ->
  filter P (map snd l) = map snd (filter Q l).
Proof.
  induction 1 as [|kb l Hkb _ IH]; [done|]. simpl map.
  rewrite !filter_cons.
  destruct (decide (P kb.2)), (decide (Q kb)); simpl; try tauto; by rewrite IH.
Qed.

Lemma filter_none {A} (l : list A) : filter (fun _ => False) l = [].
Proof. induction l as [|a l IH]; [done|]. rewrite filter_cons. by destruct (decide False). Qed.

(** The keys of the final sort, sorted. *)
Lemma sort_by_color_keyed (boxes_copy ordered_boxes : list Box) :
  sort_by_color boxes_copy = Ok ordered_boxes ->
  exists keyed,
    map snd keyed = boxes_copy /\
    Forall (fun kb => color_rank kb.2 = Some kb.1) keyed /\
    ordered_boxes = map snd (sort_by (fun a b => (a.1 <=? b.1)%nat) keyed).
Proof.
  unfold sort_by_color.
  destruct (mapM _ boxes_copy) as [keyed|] eqn:Hkeys; [|done].
  intros [= <-]. exists keyed. split_and!; [|by apply keyed_rank in Hkeys|done].
  by apply keyed_snd in Hkeys.
Qed.

Lemma sort_by_color_sorted (boxes_copy ordered_boxes : list Box) :
  sort_by_color boxes_copy = Ok ordered_boxes -> StronglySorted color_le ordered_boxes.
Proof.
  intros H. apply sort_by_color_keyed in H as (keyed & _ & Hrank & ->).
  set (le := fun a b : nat * Box => (a.1 <=? b.1)%nat).
  assert (Forall (fun kb => color_rank kb.2 = Some kb.1) (sort_by le keyed)) as Hrank'.
  { by rewrite sort_by_Permutation. }
  assert (StronglySorted (fun a b => le a b = true) (sort_by le keyed)) as Hsorted.
  { apply Sorted_StronglySorted.
    - intros a b c Hab Hbc. unfold le in *.
      apply Nat.leb_le in Hab, Hbc. apply Nat.leb_le. lia.
    - apply sort_by_Sorted. intros a b Hab. unfold le in *.
      apply Nat.leb_gt in Hab. apply Nat.leb_le. lia. }
  induction Hsorted as [|kb l _ IH Hkb]; [constructor|].
  apply Forall_cons in Hrank' as [Hr Hrank']. simpl. constructor; [by apply IH|].
  clear IH. induction Hkb as [|kc l Hle _ IH]; [constructor|].
  apply Forall_cons in Hrank' as [Hc Hrank']. simpl. constructor; [|by apply IH].
  exists kb.1, kc.1. split_and!; [done..|]. by apply Nat.leb_le.
Qed.

Lemma sort_by_color_stable (boxes_copy ordered_boxes : list Box) (name : string) :
  sort_by_color boxes_copy = Ok ordered_boxes ->
  filter (fun b => box_color_name b = name) ordered_boxes =
  filter (fun b => box_color_name b = name) boxes_copy.
Proof.
  intros H. apply sort_by_color_keyed in H as (keyed & <- & Hrank & ->).
  set (le := fun a b : nat * Box => (a.1 <=? b.1)%nat).
  assert (Forall (fun kb => color_rank kb.2 = Some kb.1) (sort_by le keyed)) as Hrank'.
  { by rewrite sort_by_Permutation. }
  destruct (py_index name (map fst COLORS)) as [n|] eqn:Hn.
  - assert (forall l : list (nat * Box),
              Forall (fun kb => color_rank kb.2 = Some kb.1) l ->
              Forall (fun kb => box_color_name kb.2 = name <-> kb.1 = n) l) as Hiff.
    { intros l Hl. eapply Forall_impl; [exact Hl|]. intros kb Hkb. unfold color_rank in Hkb. split.
      - intros Heq. rewrite Heq in Hkb. congruence.
      - intros Heq. rewrite Heq in Hkb.
        apply py_index_lookup in Hkb, Hn. congruence. }
    rewrite (filter_map_snd _ (fun kb => kb.1 = n)) by by apply Hiff.
    rewrite (filter_map_snd _ (fun kb => kb.1 = n) keyed) by by apply Hiff.
    f_equal. apply (filter_sort_by fst).
  - assert (forall l : list (nat * Box),
              Forall (fun kb => color_rank kb.2 = Some kb.1) l ->
              Forall (fun kb => box_color_name kb.2 = name <-> False) l) as Hiff.
    { intros l Hl. eapply Forall_impl; [exact Hl|]. intros kb Hkb. unfold color_rank in Hkb. split; [|done].
      intros Heq. rewrite Heq in Hkb. congruence. }
    rewrite (filter_map_snd _ (fun _ => False)) by by apply Hiff.
    rewrite (filter_map_snd _ (fun _ => False) keyed) by by apply Hiff.
    by rewrite !filter_none.
Qed.

Lemma same_shape_filter (name : string) (l1 l2 : list Box) :
  Forall2 same_shape l1 l2 ->
  Forall2 same_shape (filter (fun b => box_color_name b = name) l1)
                     (filter (fun b => box_color_name b = name) l2).
Proof.
  induction 1 as [|b c l1 l2 Hbc _ IH]; [constructor|].
  rewrite !filter_cons. pose proof Hbc as (_ & _ & _ & Hname).
  destruct (decide (box_color_name b = name)), (decide (box_color_name c = name));
    try congruence; by try constructor.
Qed.

Variable rng : nat -> Z.

(** The state that the main loop leaves to the final sort. *)
Lemma arrange_Ok_inv (boxes : list Box) (k k' : nat) (ordered_boxes : list Box) :
  arrange_boxes_without_overlap rng boxes k = Ok (ordered_boxes, k') ->
  exists boxes_copy,
    place_all rng (placement_order boxes) boxes [] k = Ok (boxes_copy, k') /\
    sort_by_color boxes_copy = Ok ordered_boxes /\
    Forall2 same_shape boxes_copy boxes /\
    pairwise disjoint boxes_copy /\ Forall in_canvas boxes_copy.
Proof.
  unfold arrange_boxes_without_overlap. intros H.
  apply bind_Ok in H as (boxes_copy & k1 & Hall & H).
  destruct (sort_by_color boxes_copy) as [out|e] eqn:Hsort; [|done].
  injection H as <- <-. exists boxes_copy. split; [done|]. split; [done|].
  pose proof (placement_order_Permutation boxes) as Hperm.
  apply place_all_inv in Hall.
  - destruct Hall as [Hshape [Hpair Hin]]. simpl in *.
    pose proof (Forall2_length _ _ _ Hshape) as Hlen.
    assert (map (fun j => boxes_copy !!! j) (placement_order boxes) ≡ₚ boxes_copy) as Hall.
    { rewrite Hperm, <- Hlen. by rewrite map_lookup_total_seq. }
    split_and!.
    + done.
    + eapply pairwise_Permutation; [apply disjoint_sym|exact Hall|done].
    + rewrite <- Hall. apply Forall_forall. intros b Hb.
      apply list_elem_of_In, in_map_iff in Hb as (j & <- & Hj).
      rewrite Forall_forall in Hin. by apply Hin, list_elem_of_In.
  - simpl. rewrite Hperm. apply NoDup_seq.
  - apply Forall_forall. intros i Hi. rewrite Hperm in Hi.
    apply list_elem_of_In, in_seq in Hi. lia.
  - split; simpl; constructor.
Qed.

(** X3: the list that the placer returns is in the canonical colour order,
    and the boxes of one colour come in the order they had in the input,
    with the shapes they had there. *)
Theorem arrange_color_order (boxes : list Box) (k k' : nat) (ordered_boxes : list Box) :
  arrange_boxes_without_overlap rng boxes k = Ok (ordered_boxes, k') ->
  StronglySorted color_le ordered_boxes /\
  forall name,
    Forall2 same_shape (filter (fun b => box_color_name b = name) ordered_boxes)
                       (filter (fun b => box_color_name b = name) boxes).
Proof.
  intros H. apply arrange_Ok_inv in H as (s & _ & Hsort & Hshape & _).
  split; [by eapply sort_by_color_sorted|].
  intros name. rewrite (sort_by_color_stable _ _ name Hsort).
  by apply same_shape_filter.
Qed.

End ColorOrder.

Lemma arrange_color_order_witness :
  exists out k',
    arrange_boxes_without_overlap PlacerSpec.lcg PlacerSpec.repeated_colors 0%nat
    = Ok (out, k') /\
    StronglySorted PlacerSpec.color_le out /\
    forall name,
      Forall2 PlacerSpec.same_shape
        (filter (fun b => box_color_name b = name) out)
        (filter (fun b => box_color_name b = name) PlacerSpec.repeated_colors).
Proof.
  eexists _, _. split; [vm_compute; reflexivity|].
  eapply (arrange_color_order PlacerSpec.lcg PlacerSpec.repeated_colors 0%nat).
  vm_compute. reflexivity.
Defined.

Section Pipeline.

Import GenerateImages PlacerSpec.

Variable rng : nat -> Z.

(** Boxes in palette order are already sorted. *)
Lemma sort_by_color_palette (boxes_copy : list Box) :
  map box_color_name boxes_copy = map fst COLORS -> sort_by_color boxes_copy = Ok boxes_copy.
Proof.
  intros H.
  destruct boxes_copy as [|b1 [|b2 [|b3 [|b4 [|b5 [|b6 l]]]]]]; try discriminate H.
  injection H as H1 H2 H3 H4 H5.
  unfold sort_by_color. simpl map. simpl mapM. rewrite H1, H2, H3, H4, H5.
  reflexivity.
Qed.

(** X4: what [generate_images_for_index] draws.  Whatever is drawn at
    random, either the placement fails with [RuntimeError], or the second
    image shows, position by position, the boxes of the first one, moved so
    that no two overlap and all lie inside the canvas. *)
Theorem generate_images_for_index_spec (k : nat) :
  (exists boxes boxes_no_overlap k',
     generate_images_for_index rng k = Ok ((boxes, boxes_no_overlap), k') /\
     map (fun b => (box_color_name b, box_color b)) boxes = COLORS /\
     Forall2 same_shape boxes_no_overlap boxes /\
     pairwise disjoint boxes_no_overlap /\ Forall in_canvas boxes_no_overlap) \/
  generate_images_for_index rng k = Raise RuntimeError.
Proof.
  destruct (create_random_boxes_run rng k) as (boxes & Hc & Hnames & Hsize).
  unfold generate_images_for_index. rewrite (bind_run _ _ _ _ _ Hc).
  assert (map box_color_name boxes = map fst COLORS) as Hfst.
  { rewrite <- Hnames, map_map. done. }
  destruct (arrange_boxes_without_overlap rng boxes (k + 20)%nat) as [[out k']|e] eqn:Ha.
  - left. exists boxes, out, k'. rewrite (bind_run _ _ _ _ _ Ha).
    split; [done|]. split; [done|].
    apply arrange_Ok_inv in Ha as (s & _ & Hsort & Hshape & Hdis & Hin).
    rewrite sort_by_color_palette in Hsort.
    + by injection Hsort as <-.
    + rewrite <- Hfst. clear -Hshape.
      induction Hshape as [|b c s boxes (_ & _ & _ & Hn) _ IH]; simpl; congruence.
  - right. unfold bind. rewrite Ha. f_equal.
    eapply arrange_raises_only_RuntimeError_aux; [|exact Ha].
    apply Forall_forall. intros b Hb. rewrite Forall_forall in Hsize.
    destruct (Hsize b Hb) as (Hw & Hh & _).
    unfold placeable, IMAGE_WIDTH, IMAGE_HEIGHT. split_and!; [lia..|].
    rewrite <- Hfst. apply list_elem_of_In, in_map. by apply list_elem_of_In.
Qed.

End Pipeline.

(** ** The input positions are ignored *)

Section Positions.

Import GenerateImages PlacerSpec.

Variable rng : nat -> Z.

Lemma alike_bind {A B} (R : A -> A -> Prop) (R' : B -> B -> Prop)
    (c c' : M A) (f f' : A -> M B) (k : nat) :
  alike R (c k) (c' k) ->
  (forall a a' k1, c k = Ok (a, k1) -> c' k = Ok (a', k1) -> R a a' ->
                   alike R' (f a k1) (f' a' k1)) ->
  alike R' (bind c f k) (bind c' f' k).
Proof.
  unfold bind. destruct (c k) as [[a k1]|e], (c' k) as [[a' k1']|e']; simpl; try done.
  intros [HR ->] Hf. by apply Hf.
Qed.

Lemma alike_refl {A} (r : result (A * nat)) : alike eq r r.
Proof. by destruct r as [[a k]|e]. Qed.

Lemma Forall2_same_shape_lookup (s s' : list Box) (idx : nat) :
  Forall2 same_shape s s' -> (idx < length s)%nat -> same_shape (s !!! idx) (s' !!! idx).
Proof.
  intros H Hidx.
  destruct (lookup_lt_is_Some_2 s idx Hidx) as [b Hb].
  destruct (Forall2_lookup_l _ _ _ _ _ H Hb) as (c & Hc & Hbc).
  by rewrite (list_lookup_total_correct _ _ _ Hb), (list_lookup_total_correct _ _ _ Hc).
Qed.

Lemma all_clear_agree (s s' : list Box) (idx : nat) (placed_boxes : list nat) :
  s !!! idx = s' !!! idx -> (forall j, j ∈ placed_boxes -> s !!! j = s' !!! j) ->
  all_clear s idx placed_boxes = all_clear s' idx placed_boxes.
Proof.
  intros Hi Hp. unfold all_clear. rewrite Hi.
  induction placed_boxes as [|j placed_boxes IH]; simpl; [done|].
  rewrite (Hp j) by left. f_equal. apply IH. intros j' Hj'. apply Hp. by right.
Qed.

Lemma agree_insert (placed_boxes : list nat) (s s' : list Box) (idx : nat) (b : Box) :
  agree placed_boxes s s' -> (idx < length s)%nat ->
  agree placed_boxes (<[idx := b]> s) (<[idx := b]> s') /\
  <[idx := b]> s !!! idx = <[idx := b]> s' !!! idx.
Proof.
  intros [Hs Hp] Hidx. pose proof (Forall2_length _ _ _ Hs) as Hlen.
  split; [split|].
  - apply Forall2_insert; [done|apply same_shape_refl].
  - intros j Hj. destruct (decide (j = idx)) as [->|Hne].
    + by rewrite !list_lookup_total_insert_eq by lia.
    + rewrite !list_lookup_total_insert_ne by done. by apply Hp.
  - by rewrite !list_lookup_total_insert_eq by lia.
Qed.

Lemma searched_here (placed_boxes : list nat) (s s' : list Box) (idx : nat) (b : Box) :
  agree placed_boxes s s' -> (idx < length s)%nat ->
  searched placed_boxes idx (<[idx := b]> s, true) (<[idx := b]> s', true).
Proof.
  intros Hag Hidx. destruct (agree_insert _ _ _ _ b Hag Hidx) as [Hag' Hi].
  unfold searched. simpl. split_and!; [done| |done|done].
  rewrite !length_insert. exact (Forall2_length _ _ _ (proj1 Hag)).
Qed.

Lemma searched_none (placed_boxes : list nat) (s s' : list Box) (idx : nat) :
  agree placed_boxes s s' -> searched placed_boxes idx (s, false) (s', false).
Proof.
  intros Hag. unfold searched. simpl. split_and!; [done| |done|done].
  exact (Forall2_length _ _ _ (proj1 Hag)).
Qed.

Lemma random_attempts_alike (n : nat) (placed_boxes : list nat) (idx : nat) :
  forall (s s' : list Box) (k : nat),
  agree placed_boxes s s' -> (idx < length s)%nat ->
  alike (searched placed_boxes idx)
        (random_attempts rng n s placed_boxes idx k)
        (random_attempts rng n s' placed_boxes idx k).
Proof.
  induction n as [|n IH]; intros s s' k Hag Hidx; simpl.
  - split; [|done]. by apply searched_none.
  - pose proof (Forall2_same_shape_lookup _ _ _ (proj1 Hag) Hidx) as Hs.
    pose proof Hs as (Hw & Hh & _). rewrite <- Hw, <- Hh.
    eapply alike_bind; [apply alike_refl|]. intros x ? k1 _ _ <-.
    eapply alike_bind; [apply alike_refl|]. intros y ? k2 _ _ <-.
    rewrite <- (same_shape_set_xy_eq _ _ x y Hs).
    destruct (agree_insert _ _ _ _ (set_xy (s !!! idx) x y) Hag Hidx) as [Hag' Hi].
    rewrite <- (all_clear_agree _ _ idx placed_boxes Hi (proj2 Hag')).
    destruct (all_clear _ idx placed_boxes).
    + split; [|done]. by apply searched_here.
    + apply IH; [done|by rewrite length_insert].
Qed.

Lemma scan_row_alike (placed_boxes : list nat) (idx : nat) (y : Z) (xs : list Z) :
  forall (s s' : list Box),
  agree placed_boxes s s' -> (idx < length s)%nat ->
  searched placed_boxes idx (scan_row s placed_boxes idx y xs)
                            (scan_row s' placed_boxes idx y xs).
Proof.
  induction xs as [|x xs IH]; intros s s' Hag Hidx; simpl.
  - by apply searched_none.
  - pose proof (Forall2_same_shape_lookup _ _ _ (proj1 Hag) Hidx) as Hs.
    rewrite <- (same_shape_set_xy_eq _ _ x y Hs).
    destruct (agree_insert _ _ _ _ (set_xy (s !!! idx) x y) Hag Hidx) as [Hag' Hi].
    rewrite <- (all_clear_agree _ _ idx placed_boxes Hi (proj2 Hag')).
    destruct (all_clear _ idx placed_boxes).
    + by apply searched_here.
    + apply IH; [done|by rewrite length_insert].
Qed.

Lemma scan_row_length (placed_boxes : list nat) (idx : nat) (y : Z) (xs : list Z) :
  forall (s : list Box), length (scan_row s placed_boxes idx y xs).1 = length s.
Proof.
  induction xs as [|x xs IH]; intros s; simpl; [done|].
  destruct (all_clear _ idx placed_boxes); simpl; [by rewrite length_insert|].
  by rewrite IH, length_insert.
Qed.

Lemma scan_grid_alike (placed_boxes : list nat) (idx : nat) (ys xs : list Z) :
  forall (s s' : list Box),
  agree placed_boxes s s' -> (idx < length s)%nat ->
  searched placed_boxes idx (scan_grid s placed_boxes idx ys xs)
                            (scan_grid s' placed_boxes idx ys xs).
Proof.
  induction ys as [|y ys IH]; intros s s' Hag Hidx; simpl.
  - by apply searched_none.
  - pose proof (scan_row_alike placed_boxes idx y xs s s' Hag Hidx) as Hrow.
    pose proof (scan_row_length placed_boxes idx y xs s) as Hlen.
    destruct (scan_row s placed_boxes idx y xs) as [s1 ok1].
    destruct (scan_row s' placed_boxes idx y xs) as [s1' ok1'].
    pose proof Hrow as (Hok & Hl & Hag1 & Hi). simpl in *. subst ok1'.
    destruct ok1; [done|]. apply IH; [done|lia].
Qed.

Lemma grid_search_alike (placed_boxes : list nat) (idx : nat) (s s' : list Box) :
  agree placed_boxes s s' -> (idx < length s)%nat ->
  searched placed_boxes idx (grid_search s placed_boxes idx) (grid_search s' placed_boxes idx).
Proof.
  intros Hag Hidx. unfold grid_search.
  pose proof (Forall2_same_shape_lookup _ _ _ (proj1 Hag) Hidx) as (Hw & Hh & _).
  rewrite <- Hw, <- Hh. by apply scan_grid_alike.
Qed.

Lemma agree_snoc (placed_boxes : list nat) (idx : nat) (s s' : list Box) :
  agree placed_boxes s s' -> s !!! idx = s' !!! idx -> agree (placed_boxes ++ [idx]) s s'.
Proof.
  intros [Hs Hp] Hi. split; [done|]. intros j Hj.
  apply elem_of_app in Hj as [Hj|Hj]; [by apply Hp|].
  by apply list_elem_of_singleton in Hj as ->.
Qed.

Lemma attempts_then_grid_alike (n : nat) (placed_boxes : list nat) (idx : nat)
    (s s' : list Box) (k : nat) :
  agree placed_boxes s s' -> (idx < length s)%nat ->
  alike (agree (placed_boxes ++ [idx]))
    (bind (random_attempts rng n s placed_boxes idx)
       (fun r =>
          let '(boxes_copy1, placed) := r in
          let '(boxes_copy2, placed) :=
            if placed then (boxes_copy1, true)
            else grid_search boxes_copy1 placed_boxes idx in
          if placed then ret boxes_copy2 else raise RuntimeError) k)
    (bind (random_attempts rng n s' placed_boxes idx)
       (fun r =>
          let '(boxes_copy1, placed) := r in
          let '(boxes_copy2, placed) :=
            if placed then (boxes_copy1, true)
            else grid_search boxes_copy1 placed_boxes idx in
          if placed then ret boxes_copy2 else raise RuntimeError) k).
Proof.
  intros Hag Hidx.
  eapply alike_bind; [by apply random_attempts_alike|].
  intros [s1 ok1] [s1' ok1'] k1 Hr _ (Hok & Hl & Hag1 & Hi). simpl in *. subst ok1'.
  destruct ok1.
  - split; [|done]. apply agree_snoc; [done|by apply Hi].
  - apply random_attempts_moved in Hr as (b & Hs1 & _); [|done].
    assert (idx < length s1)%nat as Hidx1 by (subst s1; by rewrite length_insert).
    pose proof (grid_search_alike placed_boxes idx s1 s1' Hag1 Hidx1) as Hgrid.
    destruct (grid_search s1 placed_boxes idx) as [s2 ok2].
    destruct (grid_search s1' placed_boxes idx) as [s2' ok2'].
    destruct Hgrid as (Hok2 & _ & Hag2 & Hi2). simpl in *. subst ok2'.
    destruct ok2; [|done].
    split; [|done]. apply agree_snoc; [done|by apply Hi2].
Qed.

Lemma place_one_alike (placed_boxes : list nat) (idx : nat) (s s' : list Box) (k : nat) :
  agree placed_boxes s s' -> (idx < length s)%nat ->
  alike (agree (placed_boxes ++ [idx]))
        (place_one rng s placed_boxes idx k) (place_one rng s' placed_boxes idx k).
Proof.
  intros Hag Hidx. rewrite !place_one_unfold. by apply attempts_then_grid_alike.
Qed.

Lemma place_all_alike (order : list nat) :
  forall (placed_boxes : list nat) (s s' : list Box) (k : nat),
  agree placed_boxes s s' -> Forall (fun i => (i < length s)%nat) order ->
  alike (agree (placed_boxes ++ order))
        (place_all rng order s placed_boxes k) (place_all rng order s' placed_boxes k).
Proof.
  induction order as [|idx order IH]; intros placed s s' k Hag Hlen; simpl.
  - split; [|done]. by rewrite app_nil_r.
  - apply Forall_cons in Hlen as [Hidx Hlen].
    eapply alike_bind; [by apply place_one_alike|].
    intros s1 s1' k1 Hone _ Hag1.
    apply place_one_moved in Hone as (b & -> & _); [|done].
    rewrite (cons_middle idx placed order), (app_assoc placed [idx] order).
    apply IH; [done|].
    by rewrite length_insert.
Qed.

Lemma placement_order_same_shape (boxes boxes' : list Box) :
  Forall2 same_shape boxes boxes' -> placement_order boxes = placement_order boxes'.
Proof.
  intros Hs. unfold placement_order. rewrite <- (Forall2_length _ _ _ Hs).
  apply sort_by_ext. intros i j Hi Hj.
  apply list_elem_of_In, in_seq in Hi, Hj.
  pose proof (Forall2_same_shape_lookup _ _ i Hs) as (Hwi & Hhi & _); [lia|].
  pose proof (Forall2_same_shape_lookup _ _ j Hs) as (Hwj & Hhj & _); [lia|].
  unfold box_area. by rewrite Hwi, Hhi, Hwj, Hhj.
Qed.

Lemma agree_all (order : list nat) (s s' : list Box) :
  order ≡ₚ seq 0 (length s) -> agree order s s' -> s = s'.
Proof.
  intros Hperm [Hs Hp]. pose proof (Forall2_length _ _ _ Hs) as Hlen.
  apply list_eq. intros i. destruct (decide (i < length s)%nat) as [Hi|Hi].
  - rewrite (list_lookup_lookup_total_lt s i), (list_lookup_lookup_total_lt s' i) by lia.
    f_equal. apply Hp. rewrite Hperm. apply list_elem_of_In, in_seq. lia.
  - by rewrite !lookup_ge_None_2 by lia.
Qed.

(** X5: the placer ignores where the boxes are in its input: two inputs
    that differ only in positions give the same result on the same draws,
    be it a list or an exception. *)
Theorem arrange_ignores_positions (boxes boxes' : list Box) (k : nat) :
  Forall2 same_shape boxes boxes' ->
  arrange_boxes_without_overlap rng boxes k = arrange_boxes_without_overlap rng boxes' k.
Proof.
  intros Hs. unfold arrange_boxes_without_overlap.
  rewrite <- (placement_order_same_shape _ _ Hs).
  pose proof (placement_order_Permutation boxes) as Hperm.
  assert (Forall (fun i => (i < length boxes)%nat) (placement_order boxes)) as Hlen.
  { apply Forall_forall. intros i Hi. rewrite Hperm in Hi.
    apply list_elem_of_In, in_seq in Hi. lia. }
  assert (agree [] boxes boxes') as Hag by (split; [done|by intros j Hj%elem_of_nil]).
  pose proof (place_all_alike (placement_order boxes) [] boxes boxes' k Hag Hlen) as Hall.
  unfold bind.
  destruct (place_all rng (placement_order boxes) boxes [] k) as [[s k1]|e] eqn:H1,
    (place_all rng (placement_order boxes) boxes' [] k) as [[s' k1']|e'] eqn:H2;
    simpl in Hall; try done; [|by subst].
  destruct Hall as [Hall ->].
  apply place_all_inv in H1 as [Hshape _].
  - apply agree_all in Hall; [by subst|].
    by rewrite (Forall2_length _ _ _ Hshape).
  - simpl. rewrite Hperm. apply NoDup_seq.
  - done.
  - split; simpl; constructor.
Qed.

End Positions.

Lemma arrange_ignores_positions_witness :
  Forall2 PlacerSpec.same_shape PlacerSpec.five_boxes PlacerSpec.five_boxes_elsewhere /\
  arrange_boxes_without_overlap PlacerSpec.lcg PlacerSpec.five_boxes 0%nat
  = arrange_boxes_without_overlap PlacerSpec.lcg PlacerSpec.five_boxes_elsewhere 0%nat.
Proof.
  assert (Forall2 same_shape five_boxes five_boxes_elsewhere) as Hs
    by (repeat constructor).
  split; [exact Hs|].
  exact (arrange_ignores_positions lcg five_boxes five_boxes_elsewhere 0%nat Hs).
Defined.

(** ** The order of placement *)

Section PlacementOrder.

Import GenerateImages PlacerSpec.

Lemma insert_by_StronglySorted {A} (R : A -> A -> Prop) (le : A -> A -> bool)
    (a : A) (l : list A) :
  (forall a b c, R a b -> R b c -> R a c) ->
  (forall b, b ∈ l -> if le a b then R a b else R b a) ->
  StronglySorted R l -> StronglySorted R (insert_by le a l).
Proof.
  intros Htrans Ha Hl. induction Hl as [|b l Hl IH Hb]; simpl.
  - by repeat constructor.
  - pose proof (Ha b ltac:(left)) as Hab. destruct (le a b).
    + constructor; [by constructor|]. constructor; [done|].
      eapply Forall_impl; [exact Hb|]. intros c Hbc. by eapply Htrans.
    + constructor.
      * apply IH. intros c Hc. apply Ha. by right.
      * rewrite insert_by_Permutation. by constructor.
Qed.

Lemma sort_by_seq_StronglySorted (key : nat -> Z) (n : nat) :
  forall start,
  StronglySorted (fun i j => key j < key i \/ (key i = key j /\ (i < j)%nat))
                 (sort_by (fun i j => key j <=? key i) (seq start n)).
Proof.
  induction n as [|n IH]; intros start; [constructor|].
  change (sort_by ?le (seq start (S n)))
    with (insert_by le start (sort_by le (seq (S start) n))).
  apply insert_by_StronglySorted; [|
    |apply IH].
  - intros a b c. lia.
  - intros b Hb. rewrite sort_by_Permutation in Hb.
    apply list_elem_of_In, in_seq in Hb.
    destruct (Z.leb_spec (key b) (key start)); lia.
Qed.

(** X6: the boxes are placed largest first, boxes of equal area in the
    order of the input, and every box is placed once. *)
Theorem placement_order_largest_first (boxes : list Box) :
  placement_order boxes ≡ₚ seq 0 (length boxes) /\
  StronglySorted (placed_before boxes) (placement_order boxes).
Proof.
  split; [apply sort_by_Permutation|].
  apply (sort_by_seq_StronglySorted (fun i => box_area (boxes !!! i))).
Qed.

End PlacementOrder.

(** * The crop bounds *)

Section CropBounds.

Import GenerateImages SolutionsGen PlacerSpec AreaSpec.

Lemma compute_bounds_same (boxes : list Box) :
  GenerateImagesDraw.compute_bounds boxes = SolutionsGen.compute_bounds boxes.
Proof. reflexivity. Qed.

Lemma py_min_cons (a : Z) (l : list Z) : exists m, py_min (a :: l) = Ok m.
Proof. by eexists. Qed.

Lemma py_max_cons (a : Z) (l : list Z) : exists m, py_max (a :: l) = Ok m.
Proof. by eexists. Qed.

(** The four extremes that [compute_bounds] starts from. *)
Lemma compute_bounds_Ok (boxes : list Box) (bounds : Bounds) :
  compute_bounds boxes = Ok bounds ->
  exists x0 y0 x1 y1,
    py_min (map box_x boxes) = Ok x0 /\ py_min (map box_y boxes) = Ok y0 /\
    py_max (map (fun box => box_x box + box_width box) boxes) = Ok x1 /\
    py_max (map (fun box => box_y box + box_height box) boxes) = Ok y1 /\
    bounds = mkBounds (Z.max (x0 - 2) 0) (Z.max (y0 - 2) 0)
                      (Z.min (x1 + 2) IMAGE_WIDTH) (Z.min (y1 + 2) IMAGE_HEIGHT).
Proof.
  unfold compute_bounds. intros H.
  apply rbind_Ok in H as (x0 & Hx0 & H).
  apply rbind_Ok in H as (y0 & Hy0 & H).
  apply rbind_Ok in H as (x1 & Hx1 & H).
  apply rbind_Ok in H as (y1 & Hy1 & H).
  injection H as <-. by exists x0, y0, x1, y1.
Qed.

Lemma compute_bounds_cons (b : Box) (boxes : list Box) :
  exists bounds, compute_bounds (b :: boxes) = Ok bounds.
Proof. unfold compute_bounds. simpl. by eexists. Qed.

(** X7: [compute_bounds] (the same function in generate_images.py and in
    solutions_gen.py) raises [ValueError] exactly on the empty list, and
    the bounds it returns never leave the canvas, wherever the boxes are. *)
Theorem compute_bounds_in_canvas (boxes : list Box) :
  GenerateImagesDraw.compute_bounds boxes = SolutionsGen.compute_bounds boxes /\
  match SolutionsGen.compute_bounds boxes with
  | Ok bounds =>
      boxes <> [] /\ 0 <= bd_left bounds /\ 0 <= bd_top bounds /\
      bd_right bounds <= IMAGE_WIDTH /\ bd_bottom bounds <= IMAGE_HEIGHT
  | Raise e => boxes = [] /\ e = ValueError
  end.
Proof.
  split; [done|].
  destruct boxes as [|b boxes]; [done|].
  destruct (compute_bounds_cons b boxes) as [bounds H]. rewrite H.
  apply compute_bounds_Ok in H as (x0 & y0 & x1 & y1 & _ & _ & _ & _ & ->).
  simpl. split; [done|]. lia.
Qed.

(** X8: for boxes of positive size inside the canvas the bounds enclose
    every box, are not empty, and are tight: each side is the side of some
    box moved outwards by the outline width and cut off at the canvas. *)
Theorem compute_bounds_encloses (boxes : list Box) :
  boxes <> [] -> Forall in_canvas boxes ->
  Forall (fun b => 0 < box_width b /\ 0 < box_height b) boxes ->
  exists bounds,
    compute_bounds boxes = Ok bounds /\
    Forall (within (bd_left bounds) (bd_top bounds) (bd_right bounds) (bd_bottom bounds))
           boxes /\
    bd_left bounds < bd_right bounds /\ bd_top bounds < bd_bottom bounds /\
    (exists b, b ∈ boxes /\ bd_left bounds = Z.max (box_x b - OUTLINE_WIDTH) 0) /\
    (exists b, b ∈ boxes /\ bd_top bounds = Z.max (box_y b - OUTLINE_WIDTH) 0) /\
    (exists b, b ∈ boxes /\
               bd_right bounds = Z.min (box_x b + box_width b + OUTLINE_WIDTH) IMAGE_WIDTH) /\
    (exists b, b ∈ boxes /\
               bd_bottom bounds = Z.min (box_y b + box_height b + OUTLINE_WIDTH) IMAGE_HEIGHT).
Proof.
  intros Hne Hin Hpos. destruct boxes as [|b0 boxes]; [done|].
  destruct (compute_bounds_cons b0 boxes) as [bounds H]. exists bounds.
  split; [done|].
  assert (Forall (PackingSpec.in_bin IMAGE_WIDTH IMAGE_HEIGHT) (b0 :: boxes)) as Hbin.
  { eapply Forall_impl; [exact Hin|]. unfold in_canvas, PackingSpec.in_bin. intros b ?. lia. }
  pose proof (compute_bounds_within _ _ H Hbin) as Hwithin.
  split; [done|].
  apply Forall_cons in Hwithin as [(? & ? & ? & ?) _].
  apply Forall_cons in Hpos as [[? ?] _].
  split; [lia|]. split; [lia|].
  apply compute_bounds_Ok in H as (x0 & y0 & x1 & y1 & Hx0 & Hy0 & Hx1 & Hy1 & ->).
  apply py_min_Ok in Hx0 as [Hx0 _], Hy0 as [Hy0 _].
  apply py_max_Ok in Hx1 as [Hx1 _], Hy1 as [Hy1 _].
  apply list_elem_of_fmap in Hx0 as (bx0 & -> & ?), Hy0 as (by0 & -> & ?).
  apply list_elem_of_fmap in Hx1 as (bx1 & -> & ?), Hy1 as (by1 & -> & ?).
  unfold OUTLINE_WIDTH. simpl.
  split_and!; [by exists bx0|by exists by0|by exists bx1|by exists by1].
Qed.

End CropBounds.

Lemma compute_bounds_encloses_witness :
  exists bounds,
    SolutionsGen.compute_bounds PlacerSpec.blocked_boxes_fit = Ok bounds /\
    Forall (AreaSpec.within (SolutionsGen.bd_left bounds) (SolutionsGen.bd_top bounds)
                            (SolutionsGen.bd_right bounds) (SolutionsGen.bd_bottom bounds))
           PlacerSpec.blocked_boxes_fit /\
    SolutionsGen.bd_left bounds < SolutionsGen.bd_right bounds /\ SolutionsGen.bd_top bounds < SolutionsGen.bd_bottom bounds /\
    (exists b, b ∈ PlacerSpec.blocked_boxes_fit /\
               SolutionsGen.bd_left bounds = Z.max (box_x b - OUTLINE_WIDTH) 0) /\
    (exists b, b ∈ PlacerSpec.blocked_boxes_fit /\
               SolutionsGen.bd_top bounds = Z.max (box_y b - OUTLINE_WIDTH) 0) /\
    (exists b, b ∈ PlacerSpec.blocked_boxes_fit /\
               SolutionsGen.bd_right bounds = Z.min (box_x b + box_width b + OUTLINE_WIDTH) IMAGE_WIDTH) /\
    (exists b, b ∈ PlacerSpec.blocked_boxes_fit /\
               SolutionsGen.bd_bottom bounds = Z.min (box_y b + box_height b + OUTLINE_WIDTH) IMAGE_HEIGHT).
Proof.
  apply (compute_bounds_encloses PlacerSpec.blocked_boxes_fit).
  - discriminate.
  - repeat constructor; unfold IMAGE_WIDTH, IMAGE_HEIGHT; simpl; lia.
  - repeat constructor; simpl; lia.
Defined.

(** * What the extractor measures *)

Section ExtractorExtent.

Import GenerateImages SolutionsGen ExtractorSpec.

(** The scan in closed form: minima and maxima over the matching pixels. *)
Lemma track_name_fold_min_max (img : Image) (name : string) (ps : list (Z * Z)) :
  forall data,
  foldl (track_name img name) data ps
  = mkExtent (foldl Z.min (min_x data) (map fst (matching img name ps)))
             (foldl Z.max (max_x data) (map fst (matching img name ps)))
             (foldl Z.min (min_y data) (map snd (matching img name ps)))
             (foldl Z.max (max_y data) (map snd (matching img name ps))).
Proof.
  unfold matching. induction ps as [|[x y] ps IH]; intros data; simpl.
  - by destruct data.
  - rewrite IH, filter_cons. unfold track_name at 1 2 3 4. simpl.
    destruct (decide (COLOR_LOOKUP !! img_pixel img x y = Some name)) as [Hm|Hm];
      [|done].
    rewrite track_min_max. simpl.
    by rewrite (Z.min_comm x), (Z.max_comm x), (Z.min_comm y), (Z.max_comm y).
Qed.

Lemma foldl_min_attained (l : list Z) (a : Z) :
  l <> [] -> Forall (fun b => b < a) l ->
  foldl Z.min a l ∈ l /\ Forall (fun b => foldl Z.min a l <= b) l.
Proof.
  intros Hne Hlt. destruct (foldl_min_spec l a) as ([Heq|Hin] & _ & Hall).
  - destruct l as [|b l]; [done|]. apply Forall_cons in Hlt as [Hb _].
    apply Forall_cons in Hall as [Hb' _]. lia.
  - done.
Qed.

Lemma foldl_max_attained (l : list Z) (a : Z) :
  l <> [] -> Forall (fun b => a < b) l ->
  foldl Z.max a l ∈ l /\ Forall (fun b => b <= foldl Z.max a l) l.
Proof.
  intros Hne Hlt. destruct (foldl_max_spec l a) as ([Heq|Hin] & _ & Hall).
  - destruct l as [|b l]; [done|]. apply Forall_cons in Hlt as [Hb _].
    apply Forall_cons in Hall as [Hb' _]. lia.
  - done.
Qed.

Lemma elem_of_matching (img : Image) (name : string) (c : rgb) (x y : Z) :
  (name, c) ∈ COLORS ->
  (x, y) ∈ matching img name (pixels_of img) <-> has_color img c x y.
Proof.
  intros Hin. unfold matching, has_color.
  rewrite list_elem_of_filter, elem_of_pixels_of. simpl.
  rewrite (matches_color img name c x y Hin). tauto.
Qed.

(** After the scan the extent of a colour that is present is the bounding
    box of its pixels. *)
Lemma final_extent_is_extent (img : Image) (name : string) (c : rgb) :
  (name, c) ∈ COLORS -> color_present img c -> is_extent img c (final_extent img name).
Proof.
  intros Hin (x0 & y0 & Hx0 & Hy0 & Hc0).
  unfold final_extent. rewrite track_name_fold_min_max. simpl.
  set (ms := matching img name (pixels_of img)).
  assert (forall x y, (x, y) ∈ ms <-> has_color img c x y) as Hms
    by (intros; by apply elem_of_matching).
  assert (ms <> []) as Hne.
  { intros Heq. assert ((x0, y0) ∈ ms) as H by by apply Hms.
    rewrite Heq in H. by apply elem_of_nil in H. }
  assert (Forall (fun p => has_color img c p.1 p.2) ms) as Hall.
  { apply Forall_forall. intros [x y] Hp. by apply Hms. }
  assert (map fst ms <> [] /\ map snd ms <> []) as [Hne1 Hne2]
    by (by destruct ms).
  destruct (foldl_min_attained (map fst ms) (img_width img) Hne1) as [Hx1 Hx1'].
  { apply Forall_fmap. eapply Forall_impl; [exact Hall|]. intros p (? & ? & ?). simpl. lia. }
  destruct (foldl_max_attained (map fst ms) (-1) Hne1) as [Hx2 Hx2'].
  { apply Forall_fmap. eapply Forall_impl; [exact Hall|]. intros p (? & ? & ?). simpl. lia. }
  destruct (foldl_min_attained (map snd ms) (img_height img) Hne2) as [Hy1 Hy1'].
  { apply Forall_fmap. eapply Forall_impl; [exact Hall|]. intros p (? & ? & ?). simpl. lia. }
  destruct (foldl_max_attained (map snd ms) (-1) Hne2) as [Hy2 Hy2'].
  { apply Forall_fmap. eapply Forall_impl; [exact Hall|]. intros p (? & ? & ?). simpl. lia. }
  unfold is_extent. simpl. split_and!.
  - apply list_elem_of_fmap in Hx1 as ([x y] & -> & Hp). exists y. by apply Hms.
  - apply list_elem_of_fmap in Hx2 as ([x y] & -> & Hp). exists y. by apply Hms.
  - apply list_elem_of_fmap in Hy1 as ([x y] & -> & Hp). exists x. by apply Hms.
  - apply list_elem_of_fmap in Hy2 as ([x y] & -> & Hp). exists x. by apply Hms.
  - intros x y Hp. apply Hms in Hp.
    rewrite Forall_forall in Hx1'. rewrite Forall_forall in Hx2'.
    rewrite Forall_forall in Hy1'. rewrite Forall_forall in Hy2'.
    pose proof (Hx1' x (list_elem_of_fmap_2 fst _ _ Hp)).
    pose proof (Hx2' x (list_elem_of_fmap_2 fst _ _ Hp)).
    pose proof (Hy1' y (list_elem_of_fmap_2 snd _ _ Hp)).
    pose proof (Hy2' y (list_elem_of_fmap_2 snd _ _ Hp)).
    lia.
Qed.

(** The box of a round, spelled out. *)
Lemma box_of_extent_inr (width height : Z) (name : string) (c : rgb) (data : Extent)
    (b : SizedBox) :
  box_of_extent width height (name, c, data) = inr b ->
  b = mkSizedBox name c
        (Z.min (max_x data + OUTLINE_WIDTH) (width - 1)
         - Z.max (min_x data - OUTLINE_WIDTH) 0 + 1)
        (Z.min (max_y data + OUTLINE_WIDTH) (height - 1)
         - Z.max (min_y data - OUTLINE_WIDTH) 0 + 1).
Proof. unfold box_of_extent. destruct (max_x data =? -1); [done|]. by intros [= <-]. Qed.

Lemma extracted_round (img : Image) (boxes : list SizedBox) (b : SizedBox) :
  (extract_boxes img).2 = Ok boxes -> b ∈ boxes ->
  exists name c,
    (name, c) ∈ COLORS /\ color_present img c /\
    box_of_extent (img_width img) (img_height img) (name, c, final_extent img name) = inr b.
Proof.
  rewrite extract_boxes_rounds. cbn [fst snd]. intros Hok Hb.
  destruct (rights _) as [|b0 bs] eqn:Hr; [done|]. injection Hok as <-.
  rewrite <- Hr in Hb. apply elem_of_rights, elem_of_rounds in Hb.
  destruct Hb as (name & c & Hin & Heq). exists name, c.
  destruct (round_spec img name c Hin) as [(Hc & b' & Hb' & _)|[_ Hl]]; [|congruence].
  by rewrite <- Heq.
Qed.

(** X9: the size that the extractor returns for a colour is that of the
    bounding box of the pixels of exactly that colour, widened by the
    outline width on every side and cut off at the border of the image. *)
Theorem extract_boxes_bounding_box (img : Image) (boxes : list SizedBox) (b : SizedBox) :
  (extract_boxes img).2 = Ok boxes -> b ∈ boxes ->
  exists e,
    is_extent img (sb_color b) e /\
    sb_width b = Z.min (max_x e + OUTLINE_WIDTH) (img_width img - 1)
                 - Z.max (min_x e - OUTLINE_WIDTH) 0 + 1 /\
    sb_height b = Z.min (max_y e + OUTLINE_WIDTH) (img_height img - 1)
                  - Z.max (min_y e - OUTLINE_WIDTH) 0 + 1.
Proof.
  intros Hok Hb.
  destruct (extracted_round img boxes b Hok Hb) as (name & c & Hin & Hc & Hround).
  apply box_of_extent_inr in Hround as ->. simpl.
  exists (final_extent img name). split; [|done].
  by apply final_extent_is_extent.
Qed.

Lemma lefts_cons {A B} (r : A + B) (l : list (A + B)) :
  lefts (r :: l) = match r with inl a => a :: lefts l | inr _ => lefts l end.
Proof. by destruct r. Qed.

Lemma rights_cons {A B} (r : A + B) (l : list (A + B)) :
  rights (r :: l) = match r with inl _ => rights l | inr b => b :: rights l end.
Proof. by destruct r. Qed.

Lemma rounds_sublist (width height : Z) (f : string -> Extent) (l : list (string * rgb)) :
  let rounds := map (fun '(name, c) => box_of_extent width height (name, c, f name)) l in
  sublist (lefts rounds) (map fst l) /\
  sublist (map (fun b => (sb_color_name b, sb_color b)) (rights rounds)) l /\
  (length (lefts rounds) + length (rights rounds) = length l)%nat /\
  Forall (fun b => sb_width b <= width /\ sb_height b <= height) (rights rounds).
Proof.
  induction l as [|[name c] l IH]; cbn zeta.
  - split_and!; [constructor..|done|constructor].
  - cbn zeta in IH. destruct IH as (IH1 & IH2 & IH3 & IH4).
    cbn [map fst length]. rewrite lefts_cons, rights_cons.
    destruct (box_of_extent width height (name, c, f name)) as [n|b] eqn:Hb.
    + assert (n = name) as ->.
      { unfold box_of_extent in Hb. destruct (max_x (f name) =? -1); congruence. }
      split_and!; [by apply sublist_skip|by apply sublist_cons| |done].
      cbn [length]. lia.
    + apply box_of_extent_inr in Hb as ->.
      split_and!; [by apply sublist_cons|by apply sublist_skip| |].
      * cbn [length]. lia.
      * constructor; [|done]. unfold OUTLINE_WIDTH. simpl. lia.
Qed.

(** X10: the extractor returns its boxes in palette order, at most one per
    palette colour and with the colour of its name; the warnings name the
    other palette colours, also in palette order; and no box is wider or
    higher than the image. *)
Theorem extract_boxes_palette_order (img : Image) (boxes : list SizedBox) :
  (extract_boxes img).2 = Ok boxes ->
  sublist (map (fun b => (sb_color_name b, sb_color b)) boxes) COLORS /\
  sublist (extract_boxes img).1 (map fst COLORS) /\
  (length (extract_boxes img).1 + length boxes = length COLORS)%nat /\
  Forall (fun b => sb_width b <= img_width img /\ sb_height b <= img_height img) boxes.
Proof.
  rewrite extract_boxes_rounds. cbn [fst snd]. intros Hok.
  destruct (rights (rounds_of img)) as [|b0 bs] eqn:Hr; [done|]. injection Hok as <-.
  rewrite <- Hr.
  destruct (rounds_sublist (img_width img) (img_height img) (final_extent img) COLORS)
    as (H1 & H2 & H3 & H4).
  by split_and!.
Qed.

End ExtractorExtent.

Lemma extract_boxes_bounding_box_witness :
  exists e,
    ExtractorSpec.is_extent ExtractorSpec.small_image (255, 0, 0) e /\
    7 = Z.min (SolutionsGen.max_x e + OUTLINE_WIDTH)
              (SolutionsGen.img_width ExtractorSpec.small_image - 1)
        - Z.max (SolutionsGen.min_x e - OUTLINE_WIDTH) 0 + 1 /\
    5 = Z.min (SolutionsGen.max_y e + OUTLINE_WIDTH)
              (SolutionsGen.img_height ExtractorSpec.small_image - 1)
        - Z.max (SolutionsGen.min_y e - OUTLINE_WIDTH) 0 + 1.
Proof.
  apply (extract_boxes_bounding_box ExtractorSpec.small_image
           [SolutionsGen.mkSizedBox "red" (255, 0, 0) 7 5;
            SolutionsGen.mkSizedBox "blue" (0, 0, 255) 3 3]
           (SolutionsGen.mkSizedBox "red" (255, 0, 0) 7 5)).
  - vm_compute. reflexivity.
  - left.
Defined.

Lemma extract_boxes_palette_order_witness :
  sublist [("red"%string, (255, 0, 0)); ("blue"%string, (0, 0, 255))] COLORS /\
  sublist (SolutionsGen.extract_boxes ExtractorSpec.small_image).1 (map fst COLORS) /\
  (length (SolutionsGen.extract_boxes ExtractorSpec.small_image).1 + 2 = length COLORS)%nat /\
  Forall (fun b => SolutionsGen.sb_width b <= 10 /\ SolutionsGen.sb_height b <= 8)
         [SolutionsGen.mkSizedBox "red" (255, 0, 0) 7 5;
          SolutionsGen.mkSizedBox "blue" (0, 0, 255) 3 3].
Proof.
  apply (extract_boxes_palette_order ExtractorSpec.small_image
           [SolutionsGen.mkSizedBox "red" (255, 0, 0) 7 5;
            SolutionsGen.mkSizedBox "blue" (0, 0, 255) 3 3]).
  vm_compute. reflexivity.
Defined.

(** * Drawing and extracting again *)

Section RenderFacts.

Import GenerateImages SolutionsGen PlacerSpec ExtractorSpec RenderSpec.

Variable rectangle : Image -> Z * Z * Z * Z -> rgb -> rgb -> Z -> result Image.
Variable crop : Image -> Z * Z * Z * Z -> result Image.

Hypothesis pillow_ok : pillow_contract rectangle crop.

Lemma draw_loop_paint (boxes : list Box) :
  forall img, SolutionsGen.draw_loop rectangle img boxes = paint rectangle 0 img boxes.
Proof.
  induction boxes as [|b boxes IH]; intros img; simpl; [done|].
  unfold corners.
  replace (box_x b + box_width b - 1 + 0) with (box_x b + box_width b - 1) by lia.
  replace (box_y b + box_height b - 1 + 0) with (box_y b + box_height b - 1) by lia.
  destruct (rectangle img _ (box_color b) BLACK OUTLINE_WIDTH) as [img'|e]; simpl; [|done].
  apply IH.
Qed.

Lemma draw_loop_paint_plus (boxes : list Box) :
  forall img, GenerateImagesDraw.draw_loop rectangle img boxes = paint rectangle 1 img boxes.
Proof.
  induction boxes as [|b boxes IH]; intros img; simpl; [done|].
  unfold corners.
  replace (box_x b + box_width b - 1 + 1) with (box_x b + box_width b) by lia.
  replace (box_y b + box_height b - 1 + 1) with (box_y b + box_height b) by lia.
  destruct (rectangle img _ (box_color b) BLACK OUTLINE_WIDTH) as [img'|e]; simpl; [|done].
  apply IH.
Qed.

Lemma draw_boxes_render (boxes : list Box) :
  SolutionsGen.draw_boxes rectangle crop boxes = render rectangle crop 0 boxes.
Proof. unfold SolutionsGen.draw_boxes, render. by rewrite draw_loop_paint. Qed.

Lemma draw_boxes_render_plus (boxes : list Box) :
  GenerateImagesDraw.draw_boxes rectangle crop boxes = render rectangle crop 1 boxes.
Proof. unfold GenerateImagesDraw.draw_boxes, render. by rewrite draw_loop_paint_plus. Qed.

Lemma between_true (x0 y0 x1 y1 x y : Z) :
  between (x0, y0, x1, y1) x y = true <-> x0 <= x <= x1 /\ y0 <= y <= y1.
Proof. unfold between. rewrite !andb_true_iff, !Z.leb_le. lia. Qed.

Lemma in_rect_iff (d : Z) (b : Box) (x y : Z) :
  between (corners d b) x y = true <->
  box_x b <= x <= box_x b + box_width b - 1 + d /\
  box_y b <= y <= box_y b + box_height b - 1 + d.
Proof. unfold corners. by rewrite between_true. Qed.

Lemma in_fill_iff (d : Z) (b : Box) (x y : Z) :
  between (shrink (corners d b) OUTLINE_WIDTH) x y = true <->
  box_x b + 2 <= x <= box_x b + box_width b + d - 3 /\
  box_y b + 2 <= y <= box_y b + box_height b + d - 3.
Proof. unfold corners, shrink, OUTLINE_WIDTH. rewrite between_true. lia. Qed.

(** The canvas after the loop of [draw_boxes]. *)
Lemma paint_spec (d : Z) (boxes : list Box) :
  Forall (fun b => 4 <= box_width b + d /\ 4 <= box_height b + d) boxes ->
  forall img,
  exists img',
    paint rectangle d img boxes = Ok img' /\
    img_width img' = img_width img /\ img_height img' = img_height img /\
    forall x y, inside img x y ->
                painted d boxes x y (img_pixel img x y) (img_pixel img' x y).
Proof.
  induction 1 as [|b boxes [Hw Hh] _ IH]; intros img; simpl.
  - exists img. split_and!; [done..|]. intros x y _. right.
    split; [|done]. intros b Hb. by apply elem_of_nil in Hb.
  - destruct (pc_rectangle _ _ pillow_ok img (box_x b) (box_y b)
                (box_x b + box_width b - 1 + d) (box_y b + box_height b - 1 + d)
                (box_color b) BLACK OUTLINE_WIDTH)
      as (img1 & Hr & Hw1 & Hh1 & Hpix); [unfold OUTLINE_WIDTH; lia..|].
    unfold corners at 1. rewrite Hr. simpl.
    destruct (IH img1) as (img' & Hp & Hw' & Hh' & Hpix').
    exists img'. split_and!; [done|congruence|congruence|].
    intros x y Hin.
    assert (inside img1 x y) as Hin1 by (unfold inside in *; by rewrite Hw1, Hh1).
    destruct (Hpix' x y Hin1) as [(b' & Hb' & Hbt & Hnew)|[Hnone Hnew]].
    + left. exists b'. split_and!; [by right|done|done].
    + rewrite Hnew, (Hpix x y Hin).
      change (box_x b, box_y b, box_x b + box_width b - 1 + d,
              box_y b + box_height b - 1 + d) with (corners d b).
      destruct (between (corners d b) x y) eqn:Hbt.
      * left. exists b. split_and!; [left|done|done].
      * right. split; [|done]. intros b' Hb'.
        apply elem_of_cons in Hb' as [->|Hb']; [done|by apply Hnone].
Qed.

Lemma pairwise_elem {A} (R : A -> A -> Prop) (l : list A) (a b : A) :
  (forall a b, R a b -> R b a) -> pairwise R l -> a ∈ l -> b ∈ l -> a = b \/ R a b.
Proof.
  intros Hsym. induction l as [|c l IH]; intros Hl Ha Hb; [by apply elem_of_nil in Ha|].
  destruct Hl as [Hc Hl]. rewrite Forall_forall in Hc.
  apply elem_of_cons in Ha as [->|Ha], Hb as [->|Hb]; auto.
Qed.

(** A pixel that shows the colour of a box lies in no other rectangle. *)
Lemma fill_unique (d : Z) (boxes : list Box) (b b' : Box) (x y : Z) :
  0 <= d <= 1 -> pairwise disjoint boxes -> b ∈ boxes -> b' ∈ boxes ->
  between (shrink (corners d b) OUTLINE_WIDTH) x y = true ->
  between (corners d b') x y = true -> b = b'.
Proof.
  intros Hd Hdis Hb Hb' Hfill Hrect.
  destruct (pairwise_elem disjoint boxes b b' disjoint_sym Hdis Hb Hb') as [|Hbb]; [done|].
  exfalso. unfold disjoint in Hbb.
  apply in_fill_iff in Hfill. apply in_rect_iff in Hrect.
  assert (boxes_overlap b b' = true) as Hov by (apply boxes_overlap_true; lia).
  congruence.
Qed.

Lemma lookup_palette (b : Box) :
  (box_color_name b, box_color b) ∈ COLORS ->
  COLOR_LOOKUP !! box_color b = Some (box_color_name b).
Proof. intros H. by apply COLOR_LOOKUP_spec. Qed.

(** Which pixels of the canvas the extractor attributes to a colour name. *)
Lemma painted_lookup (d : Z) (boxes : list Box) (x y : Z) (new : rgb) (name : string) :
  0 <= d <= 1 -> pairwise disjoint boxes ->
  Forall (fun b => (box_color_name b, box_color b) ∈ COLORS) boxes ->
  painted d boxes x y WHITE new ->
  COLOR_LOOKUP !! new = Some name <->
  exists b, b ∈ boxes /\ between (shrink (corners d b) OUTLINE_WIDTH) x y = true /\
            box_color_name b = name.
Proof.
  intros Hd Hdis Hpal Hp. rewrite Forall_forall in Hpal. split.
  - intros Hl. destruct Hp as [(b & Hb & Hrect & ->)|[_ ->]]; [|done].
    destruct (between (shrink (corners d b) OUTLINE_WIDTH) x y) eqn:Hfill; [|done].
    exists b. split_and!; [done..|].
    rewrite (lookup_palette b (Hpal b Hb)) in Hl. congruence.
  - intros (b & Hb & Hfill & <-).
    assert (between (corners d b) x y = true) as Hrect.
    { apply in_fill_iff in Hfill. apply in_rect_iff. lia. }
    destruct Hp as [(b' & Hb' & Hrect' & ->)|[Hnone _]].
    + assert (b = b') as <- by by eapply fill_unique.
      rewrite Hfill. by apply lookup_palette, Hpal.
    + rewrite (Hnone b Hb) in Hrect. done.
Qed.

Lemma bounds_facts (boxes : list Box) (bounds : Bounds) :
  compute_bounds boxes = Ok bounds -> Forall in_canvas boxes ->
  Forall (fun b =>
            0 <= bd_left bounds <= box_x b /\
            Z.min (box_x b + box_width b + 2) IMAGE_WIDTH <= bd_right bounds <= IMAGE_WIDTH /\
            0 <= bd_top bounds <= box_y b /\
            Z.min (box_y b + box_height b + 2) IMAGE_HEIGHT <= bd_bottom bounds
              <= IMAGE_HEIGHT) boxes.
Proof.
  intros H Hin.
  apply compute_bounds_Ok in H as (x0 & y0 & x1 & y1 & Hx0 & Hy0 & Hx1 & Hy1 & ->).
  apply py_min_Ok in Hx0 as [_ Hx0], Hy0 as [_ Hy0].
  apply py_max_Ok in Hx1 as [_ Hx1], Hy1 as [_ Hy1].
  rewrite Forall_forall in Hx0. rewrite Forall_forall in Hy0.
  rewrite Forall_forall in Hx1. rewrite Forall_forall in Hy1.
  rewrite Forall_forall in Hin.
  apply Forall_forall. intros b Hb.
  pose proof (Hx0 (box_x b) (list_elem_of_fmap_2 box_x _ _ Hb)).
  pose proof (Hy0 (box_y b) (list_elem_of_fmap_2 box_y _ _ Hb)).
  pose proof (Hx1 (box_x b + box_width b)
                (list_elem_of_fmap_2 (fun b => box_x b + box_width b) _ _ Hb)).
  pose proof (Hy1 (box_y b + box_height b)
                (list_elem_of_fmap_2 (fun b => box_y b + box_height b) _ _ Hb)).
  destruct (Hin b Hb) as (? & ? & ? & ?). simpl. lia.
Qed.

Lemma NoDup_fmap_eq {A B} (f : A -> B) (l : list A) (a b : A) :
  NoDup (map f l) -> a ∈ l -> b ∈ l -> f a = f b -> a = b.
Proof.
  induction l as [|c l IH]; intros Hnd Ha Hb Hf; [by apply elem_of_nil in Ha|].
  simpl in Hnd. apply NoDup_cons in Hnd as [Hc Hnd].
  apply elem_of_cons in Ha as [->|Ha], Hb as [->|Hb]; [done| | |by apply IH].
  - destruct Hc. rewrite Hf. by apply (list_elem_of_fmap_2 f).
  - destruct Hc. rewrite <- Hf. by apply (list_elem_of_fmap_2 f).
Qed.

(** The image that [draw_boxes] saves, as the extractor reads it. *)
Lemma render_Ok (d : Z) (boxes : list Box) :
  0 <= d <= 1 -> drawable (5 - d) boxes ->
  exists img bounds,
    render rectangle crop d boxes = Ok img /\
    compute_bounds boxes = Ok bounds /\
    img_width img = bd_right bounds - bd_left bounds /\
    img_height img = bd_bottom bounds - bd_top bounds /\
    forall i j, inside img i j -> forall name,
      COLOR_LOOKUP !! img_pixel img i j = Some name <->
      exists b, b ∈ boxes /\
                between (shrink (corners d b) OUTLINE_WIDTH)
                        (i + bd_left bounds) (j + bd_top bounds) = true /\
                box_color_name b = name.
Proof.
  intros Hd [Hne Hcanvas Hdis Hsize Hpal Hnames].
  destruct (paint_spec d boxes) with (img := Image_new IMAGE_WIDTH IMAGE_HEIGHT WHITE)
    as (cv & Hpaint & Hcw & Hch & Hpix).
  { eapply Forall_impl; [exact Hsize|]. intros b ?. simpl in *. lia. }
  simpl in Hcw, Hch.
  destruct boxes as [|b0 boxes'] eqn:Hboxes; [done|]. rewrite <- Hboxes in *.
  assert (exists bounds, compute_bounds boxes = Ok bounds) as [bounds Hb].
  { rewrite Hboxes. apply compute_bounds_cons. }
  pose proof (bounds_facts boxes bounds Hb Hcanvas) as Hfacts.
  assert (b0 ∈ boxes) as Hb0 by (rewrite Hboxes; left).
  rewrite Forall_forall in Hfacts. rewrite Forall_forall in Hcanvas.
  rewrite Forall_forall in Hsize.
  pose proof (Hfacts b0 Hb0) as (Hl & Hr & Ht & Hbt).
  pose proof (Hcanvas b0 Hb0) as (? & ? & ? & ?).
  pose proof (Hsize b0 Hb0) as [? ?].
  destruct (pc_crop _ _ pillow_ok cv (bd_left bounds) (bd_top bounds)
              (bd_right bounds) (bd_bottom bounds))
    as (img & Hcrop & Hw & Hh & Hcpix); [lia..|].
  exists img, bounds. split_and!; [|done..|].
  - unfold render. rewrite Hpaint. simpl. rewrite Hb. simpl. exact Hcrop.
  - intros i j [Hi Hj] name. rewrite Hw in Hi. rewrite Hh in Hj.
    rewrite (Hcpix i j Hi Hj).
    apply painted_lookup; [done..|].
    apply (Hpix (i + bd_left bounds) (j + bd_top bounds)).
    unfold inside. simpl. lia.
Qed.

Section Shown.

Variable d : Z.
Variable boxes : list Box.
Variable bounds : Bounds.
Variable img : Image.

Hypothesis Hd : 0 <= d <= 1.
Hypothesis Hdraw : drawable (5 - d) boxes.
Hypothesis Hbounds : compute_bounds boxes = Ok bounds.
Hypothesis Hwidth : img_width img = bd_right bounds - bd_left bounds.
Hypothesis Hheight : img_height img = bd_bottom bounds - bd_top bounds.
Hypothesis Hshown :
  forall i j, inside img i j -> forall name,
    COLOR_LOOKUP !! img_pixel img i j = Some name <->
    exists b, b ∈ boxes /\
              between (shrink (corners d b) OUTLINE_WIDTH)
                      (i + bd_left bounds) (j + bd_top bounds) = true /\
              box_color_name b = name.

Lemma shown_box (b : Box) :
  b ∈ boxes ->
  in_canvas b /\ 5 - d <= box_width b /\ 5 - d <= box_height b /\
  (box_color_name b, box_color b) ∈ COLORS /\
  0 <= bd_left bounds <= box_x b /\
  Z.min (box_x b + box_width b + 2) IMAGE_WIDTH <= bd_right bounds <= IMAGE_WIDTH /\
  0 <= bd_top bounds <= box_y b /\
  Z.min (box_y b + box_height b + 2) IMAGE_HEIGHT <= bd_bottom bounds <= IMAGE_HEIGHT.
Proof.
  intros Hb. destruct Hdraw as [_ Hcanvas _ Hsize Hpal _].
  pose proof (bounds_facts boxes bounds Hbounds Hcanvas) as Hfacts.
  rewrite Forall_forall in Hfacts. rewrite Forall_forall in Hcanvas.
  rewrite Forall_forall in Hsize. rewrite Forall_forall in Hpal.
  pose proof (Hfacts b Hb). pose proof (Hsize b Hb). pose proof (Hcanvas b Hb).
  pose proof (Hpal b Hb). intuition.
Qed.

Lemma shown_has_color (b : Box) (i j : Z) :
  b ∈ boxes ->
  has_color img (box_color b) i j <->
  inside img i j /\
  between (shrink (corners d b) OUTLINE_WIDTH)
          (i + bd_left bounds) (j + bd_top bounds) = true.
Proof.
  intros Hb. pose proof (shown_box b Hb) as (_ & _ & _ & Hpal & _).
  unfold has_color. split.
  - intros (Hi & Hj & Hc). split; [done|].
    apply (matches_color img _ _ i j Hpal) in Hc.
    apply (Hshown i j (conj Hi Hj)) in Hc as (b' & Hb' & Hfill & Hname).
    assert (b' = b) as -> by (eapply NoDup_fmap_eq; [apply (dr_names _ _ Hdraw)|done..]).
    done.
  - intros [[Hi Hj] Hfill]. split; [done|]. split; [done|].
    apply (matches_color img _ _ i j Hpal).
    apply (Hshown i j (conj Hi Hj)). by exists b.
Qed.

Lemma shown_extent (b : Box) (e : Extent) :
  b ∈ boxes -> is_extent img (box_color b) e ->
  min_x e = box_x b + 2 - bd_left bounds /\
  max_x e = box_x b + box_width b + d - 3 - bd_left bounds /\
  min_y e = box_y b + 2 - bd_top bounds /\
  max_y e = box_y b + box_height b + d - 3 - bd_top bounds.
Proof.
  intros Hb (Hx0 & Hx1 & Hy0 & Hy1 & Hall).
  pose proof (shown_box b Hb) as ((? & ? & ? & ?) & ? & ? & _ & ? & ? & ? & ?).
  assert (has_color img (box_color b) (box_x b + 2 - bd_left bounds)
                    (box_y b + 2 - bd_top bounds)) as Hnear.
  { apply shown_has_color; [done|]. split.
    - unfold inside. rewrite Hwidth, Hheight. unfold IMAGE_WIDTH, IMAGE_HEIGHT in *. lia.
    - apply in_fill_iff. lia. }
  assert (has_color img (box_color b) (box_x b + box_width b + d - 3 - bd_left bounds)
                    (box_y b + box_height b + d - 3 - bd_top bounds)) as Hfar.
  { apply shown_has_color; [done|]. split.
    - unfold inside. rewrite Hwidth, Hheight. unfold IMAGE_WIDTH, IMAGE_HEIGHT in *. lia.
    - apply in_fill_iff. lia. }
  apply Hall in Hnear, Hfar.
  destruct Hx0 as [y0 Hx0], Hx1 as [y1 Hx1], Hy0 as [x0 Hy0], Hy1 as [x1 Hy1].
  apply shown_has_color in Hx0 as [_ Hx0], Hx1 as [_ Hx1], Hy0 as [_ Hy0],
    Hy1 as [_ Hy1]; [|done..].
  apply in_fill_iff in Hx0, Hx1, Hy0, Hy1. lia.
Qed.

Lemma shown_present (b : Box) : b ∈ boxes -> color_present img (box_color b).
Proof.
  intros Hb.
  pose proof (shown_box b Hb) as ((? & ? & ? & ?) & ? & ? & _ & ? & ? & ? & ?).
  exists (box_x b + 2 - bd_left bounds), (box_y b + 2 - bd_top bounds).
  apply shown_has_color; [done|]. split.
  - unfold inside. rewrite Hwidth, Hheight. unfold IMAGE_WIDTH, IMAGE_HEIGHT in *. lia.
  - apply in_fill_iff. lia.
Qed.

Lemma shown_round (b : Box) :
  b ∈ boxes ->
  box_of_extent (img_width img) (img_height img)
    (box_color_name b, box_color b, final_extent img (box_color_name b))
  = inr (sized_off d b).
Proof.
  intros Hb.
  pose proof (shown_box b Hb) as ((? & ? & ? & ?) & ? & ? & Hpal & ? & ? & ? & ?).
  pose proof (final_extent_is_extent img _ _ Hpal (shown_present b Hb)) as He.
  apply (shown_extent b _ Hb) in He as (Hx0 & Hx1 & Hy0 & Hy1).
  unfold box_of_extent, sized_off.
  destruct (Z.eqb_spec (max_x (final_extent img (box_color_name b))) (-1)) as [Heq|_];
    [lia|].
  rewrite Hx0, Hx1, Hy0, Hy1, Hwidth, Hheight.
  unfold OUTLINE_WIDTH, IMAGE_WIDTH, IMAGE_HEIGHT in *. do 2 f_equal; lia.
Qed.

Lemma shown_extract :
  exists out,
    (extract_boxes img).2 = Ok out /\
    forall sb, sb ∈ out <-> exists b, b ∈ boxes /\ sb = sized_off d b.
Proof.
  assert (forall sb, sb ∈ rights (rounds_of img) <->
                     exists b, b ∈ boxes /\ sb = sized_off d b) as Hiff.
  { intros sb. rewrite elem_of_rights, elem_of_rounds. split.
    - intros (name & c & Hin & Heq).
      destruct (round_spec img name c Hin) as [[(x & y & Hx & Hy & Hc) _]|[_ Hl]];
        [|congruence].
      apply (matches_color img name c x y Hin) in Hc.
      apply (Hshown x y (conj Hx Hy)) in Hc as (b & Hb & _ & <-).
      pose proof (shown_box b Hb) as (_ & _ & _ & Hpal & _).
      rewrite (COLORS_functional _ _ _ Hin Hpal) in Heq.
      rewrite (shown_round b Hb) in Heq. exists b. split; [done|congruence].
    - intros (b & Hb & ->).
      pose proof (shown_box b Hb) as (_ & _ & _ & Hpal & _).
      exists (box_color_name b), (box_color b). split; [done|].
      by rewrite (shown_round b Hb). }
  exists (rights (rounds_of img)). split; [|done].
  rewrite extract_boxes_rounds. cbn [fst snd].
  destruct boxes as [|b0 boxes'] eqn:Hboxes; [by destruct Hdraw|].
  assert (sized_off d b0 ∈ rights (rounds_of img)) as H0.
  { apply Hiff. exists b0. split; [left|done]. }
  destruct (rights (rounds_of img)); [by apply elem_of_nil in H0|done].
Qed.

End Shown.

Lemma render_extract (d : Z) (boxes : list Box) :
  0 <= d <= 1 -> drawable (5 - d) boxes ->
  exists img out,
    render rectangle crop d boxes = Ok img /\
    (extract_boxes img).2 = Ok out /\
    forall sb, sb ∈ out <-> exists b, b ∈ boxes /\ sb = sized_off d b.
Proof.
  intros Hd Hdraw.
  destruct (render_Ok d boxes Hd Hdraw) as (img & bounds & Hr & Hb & Hw & Hh & Hshown).
  destruct (shown_extract d boxes bounds img Hd Hdraw Hb Hw Hh Hshown) as (out & Hout & Hiff).
  by exists img, out.
Qed.

(** X11: what [draw_boxes] of solutions_gen.py draws, [extract_boxes]
    finds again.  For boxes of palette colours, each colour once, inside
    the canvas, clear of each other and at least five pixels wide and high,
    the extractor run on the saved image returns exactly these boxes with
    their names, colours, widths and heights. *)
Theorem draw_extract_round_trip (boxes : list Box) :
  drawable 5 boxes ->
  exists img out,
    SolutionsGen.draw_boxes rectangle crop boxes = Ok img /\
    (extract_boxes img).2 = Ok out /\
    forall sb, sb ∈ out <-> exists b, b ∈ boxes /\ sb = sized b.
Proof.
  intros Hdraw.
  destruct (render_extract 0 boxes) as (img & out & Hr & Hout & Hiff); [lia|done|].
  exists img, out. rewrite draw_boxes_render. split; [done|]. split; [done|].
  intros sb. rewrite Hiff.
  assert (forall b, b ∈ boxes -> sized_off 0 b = sized b) as Heq.
  { intros b Hb. pose proof (dr_canvas _ _ Hdraw) as Hc.
    rewrite Forall_forall in Hc. destruct (Hc b Hb) as (? & ? & ? & ?).
    unfold sized_off, sized, IMAGE_WIDTH, IMAGE_HEIGHT in *. f_equal; lia. }
  split; intros (b & Hb & ->); exists b; by rewrite Heq in *.
Qed.

(** X12: [draw_boxes] of generate_images.py names [(x + width, y + height)]
    as the second corner, so its rectangles come out one pixel wider and
    higher than the boxes: for boxes as above (four pixels suffice) the
    extractor run on the saved image returns every box with its width and
    height plus one, except along a side where the box ends at the border of
    the canvas. *)
Theorem generate_draw_extract_one_more (boxes : list Box) :
  drawable 4 boxes ->
  exists img out,
    GenerateImagesDraw.draw_boxes rectangle crop boxes = Ok img /\
    (extract_boxes img).2 = Ok out /\
    forall sb, sb ∈ out <-> exists b, b ∈ boxes /\ sb = sized_plus b.
Proof.
  intros Hdraw.
  destruct (render_extract 1 boxes) as (img & out & Hr & Hout & Hiff); [lia|done|].
  exists img, out. rewrite draw_boxes_render_plus. split; [done|]. split; [done|].
  intros sb. rewrite Hiff.
  assert (forall b, b ∈ boxes -> sized_off 1 b = sized_plus b) as Heq.
  { intros b Hb. pose proof (dr_canvas _ _ Hdraw) as Hc.
    rewrite Forall_forall in Hc. destruct (Hc b Hb) as (? & ? & ? & ?).
    unfold sized_off, sized_plus, IMAGE_WIDTH, IMAGE_HEIGHT in *.
    destruct (Z.ltb_spec (box_x b + box_width b) 800),
      (Z.ltb_spec (box_y b + box_height b) 600); f_equal; lia. }
  split; intros (b & Hb & ->); exists b; by rewrite Heq in *.
Qed.

End RenderFacts.

Lemma ref_pillow_ok : RenderSpec.pillow_contract RenderSpec.ref_rectangle RenderSpec.ref_crop.
Proof.
  split.
  - intros img x0 y0 x1 y1 fill outline width _ _ _. by eexists.
  - intros img x_left upper x_right lower _ _ _ _. by eexists.
Qed.

Lemma blocked_boxes_fit_drawable (min_side : Z) :
  min_side <= 300 -> RenderSpec.drawable min_side PlacerSpec.blocked_boxes_fit.
Proof.
  intros Hmin. split.
  - discriminate.
  - repeat constructor; unfold IMAGE_WIDTH, IMAGE_HEIGHT; simpl; lia.
  - repeat constructor.
  - repeat constructor; simpl; lia.
  - repeat constructor; apply (bool_decide_unpack _); vm_compute; exact I.
  - apply (bool_decide_unpack _). vm_compute. exact I.
Qed.

Lemma draw_extract_round_trip_witness :
  exists img out,
    SolutionsGen.draw_boxes RenderSpec.ref_rectangle RenderSpec.ref_crop
      PlacerSpec.blocked_boxes_fit = Ok img /\
    (SolutionsGen.extract_boxes img).2 = Ok out /\
    forall sb, sb ∈ out <->
               exists b, b ∈ PlacerSpec.blocked_boxes_fit /\ sb = RenderSpec.sized b.
Proof.
  apply (draw_extract_round_trip RenderSpec.ref_rectangle RenderSpec.ref_crop
           ref_pillow_ok PlacerSpec.blocked_boxes_fit).
  apply blocked_boxes_fit_drawable. lia.
Defined.

Lemma generate_draw_extract_one_more_witness :
  exists img out,
    GenerateImagesDraw.draw_boxes RenderSpec.ref_rectangle RenderSpec.ref_crop
      PlacerSpec.blocked_boxes_fit = Ok img /\
    (SolutionsGen.extract_boxes img).2 = Ok out /\
    forall sb, sb ∈ out <->
               exists b, b ∈ PlacerSpec.blocked_boxes_fit /\ sb = RenderSpec.sized_plus b.
Proof.
  apply (generate_draw_extract_one_more RenderSpec.ref_rectangle RenderSpec.ref_crop
           ref_pillow_ok PlacerSpec.blocked_boxes_fit).
  apply blocked_boxes_fit_drawable. lia.
Defined.

(** * The candidate bins *)

Section CandidateMore.

Import GenerateImages SolutionsGen PackingSpec.

Lemma elem_of_py_range_iff (start stop step x : Z) :
  0 < step ->
  x ∈ py_range start stop step <-> start <= x < stop /\ (x - start) mod step = 0.
Proof.
  intros Hstep. split.
  - intros Hx. split; [by eapply elem_of_py_range|].
    unfold py_range in Hx. apply list_elem_of_In, in_map_iff in Hx as (i & <- & _).
    replace (start + step * Z.of_nat i - start) with (Z.of_nat i * step) by lia.
    apply Z.mod_mul. lia.
  - intros [Hx Hmod]. unfold py_range. apply list_elem_of_In, in_map_iff.
    apply Z.mod_divide in Hmod as [q Hq]; [|lia].
    exists (Z.to_nat q). assert (0 <= q) by nia. split; [lia|].
    apply in_seq. split; [lia|]. simpl.
    assert (q + 1 <= (stop - start + step - 1) / step); [|lia].
    apply Z.div_le_lower_bound; [done|]. nia.
Qed.

Lemma Sorted_weaken {A} (R R' : A -> A -> Prop) (l : list A) :
  (forall a b, R a b -> R' a b) -> Sorted R l -> Sorted R' l.
Proof.
  intros HR. induction 1 as [|a l _ IH Hhd]; constructor; [done|].
  destruct Hhd; constructor; auto.
Qed.

Lemma elem_of_bin_row (heights : list Z) (max_width max_height w w' h : Z) :
  (w', h) ∈ flat_map (fun h => if (w >=? max_width) && (h >=? max_height)
                               then [(w, h)] else []) heights
  <-> w' = w /\ h ∈ heights /\ max_width <= w /\ max_height <= h.
Proof.
  rewrite list_elem_of_In, in_flat_map. setoid_rewrite <- list_elem_of_In. split.
  - intros (h' & Hh & Hin).
    destruct (Z.geb_spec w max_width), (Z.geb_spec h' max_height); simpl in Hin;
      try by apply elem_of_nil in Hin.
    apply list_elem_of_singleton in Hin as [= -> ->]. split_and!; [done..|lia|lia].
  - intros (-> & Hh & Hmw & Hmh). exists h. split; [done|].
    destruct (Z.geb_spec w max_width), (Z.geb_spec h max_height); simpl; try lia.
    by apply list_elem_of_singleton.
Qed.

Lemma NoDup_bin_row (heights : list Z) (max_width max_height w : Z) :
  NoDup heights ->
  NoDup (flat_map (fun h => if (w >=? max_width) && (h >=? max_height)
                            then [(w, h)] else []) heights).
Proof.
  induction 1 as [|h heights Hh _ IH]; simpl; [constructor|].
  apply NoDup_app. split_and!; [|  |done].
  - destruct (_ && _); [apply NoDup_singleton|constructor].
  - intros [w' h'] Hin Hin'. apply elem_of_bin_row in Hin' as (_ & Hh' & _).
    destruct (_ && _); [|by apply elem_of_nil in Hin].
    apply list_elem_of_singleton in Hin as [= -> ->]. done.
Qed.

Lemma NoDup_bins (widths heights : list Z) (max_width max_height : Z) :
  NoDup widths -> NoDup heights ->
  NoDup (flat_map (fun w =>
           flat_map (fun h => if (w >=? max_width) && (h >=? max_height)
                              then [(w, h)] else []) heights) widths).
Proof.
  intros Hw Hh. induction Hw as [|w widths Hw _ IH]; simpl; [constructor|].
  apply NoDup_app. split_and!; [by apply NoDup_bin_row| |done].
  intros [w' h'] Hin Hin'. apply elem_of_bin_row in Hin as (-> & _).
  apply elem_of_bins in Hin' as (Hw' & _). done.
Qed.

Lemma elem_of_candidates (m base limit : Z) (x : Z) :
  x ∈ [m; base; limit] ++ flat_map (fun step => py_range m (limit + 1) step) [25; 50; 100]
  <-> x = m \/ x = base \/ x = limit \/ (m <= x <= limit /\ (x - m) mod 25 = 0).
Proof.
  rewrite elem_of_app. simpl. rewrite !elem_of_app, !elem_of_cons, elem_of_nil.
  rewrite !elem_of_py_range_iff by lia. split.
  - intros [[->|[->|[->|[]]]]|[[? Hm]|[[? Hm]|[[? Hm]|[]]]]]; auto.
    + do 3 right. split; [lia|done].
    + do 3 right. split; [lia|].
      apply Z.mod_divide in Hm as [q Hq]; [|lia]. rewrite Hq.
      replace (q * 50) with (q * 2 * 25) by lia. apply Z.mod_mul. lia.
    + do 3 right. split; [lia|].
      apply Z.mod_divide in Hm as [q Hq]; [|lia]. rewrite Hq.
      replace (q * 100) with (q * 4 * 25) by lia. apply Z.mod_mul. lia.
  - intros [->|[->|[->|[? Hm]]]]; [left; left; done|left; right; left; done
                                  |left; do 2 right; left; done|].
    right. left. split; [lia|done].
Qed.

Lemma bins_full_spec (max_width max_height base : Z) :
  let width_candidates :=
    [max_width; base; IMAGE_WIDTH]
    ++ flat_map (fun step => py_range max_width (IMAGE_WIDTH + 1) step) [25; 50; 100] in
  let height_candidates :=
    [max_height; base; IMAGE_HEIGHT]
    ++ flat_map (fun step => py_range max_height (IMAGE_HEIGHT + 1) step) [25; 50; 100] in
  let widths :=
    sort_by Z.leb (remove_dups (filter (fun w => w <= IMAGE_WIDTH) width_candidates)) in
  let heights :=
    sort_by Z.leb (remove_dups (filter (fun h => h <= IMAGE_HEIGHT) height_candidates)) in
  let bins :=
    sort_by (fun a b => a.1 * a.2 <=? b.1 * b.2)
      (flat_map (fun w =>
                   flat_map (fun h =>
                               if (w >=? max_width) && (h >=? max_height)
                               then [(w, h)] else [])
                            heights)
                widths) in
  (forall w h, (w, h) ∈ bins <->
     (max_width <= w <= IMAGE_WIDTH /\
      (w = base \/ w = IMAGE_WIDTH \/ (w - max_width) mod 25 = 0)) /\
     (max_height <= h <= IMAGE_HEIGHT /\
      (h = base \/ h = IMAGE_HEIGHT \/ (h - max_height) mod 25 = 0))) /\
  NoDup bins /\
  Sorted (fun a b => a.1 * a.2 <= b.1 * b.2) bins.
Proof.
  intros width_candidates height_candidates widths heights bins. split_and!.
  - intros w h. unfold bins, widths, heights, width_candidates, height_candidates.
    rewrite elem_of_sort_by, elem_of_bins, !elem_of_sort_by, !elem_of_remove_dups,
      !list_elem_of_filter, !elem_of_candidates.
    split.
    + intros ((Hw & Hwc) & (Hh & Hhc) & Hmw & Hmh). split.
      * split; [lia|]. destruct Hwc as [->|[->|[->|[_ Hm]]]]; auto.
        right. right. by rewrite Z.sub_diag.
      * split; [lia|]. destruct Hhc as [->|[->|[->|[_ Hm]]]]; auto.
        right. right. by rewrite Z.sub_diag.
    + intros ((Hw & Hwc) & (Hh & Hhc)). split_and!; lia.
  - unfold bins. rewrite sort_by_Permutation. apply NoDup_bins.
    + unfold widths. rewrite sort_by_Permutation. apply NoDup_remove_dups.
    + unfold heights. rewrite sort_by_Permutation. apply NoDup_remove_dups.
  - unfold bins. eapply Sorted_weaken; [|apply sort_by_Sorted].
    + intros a b Hab. by apply Z.leb_le.
    + intros a b Hab. apply Z.leb_gt in Hab. apply Z.leb_le. lia.
Qed.

(** X13: the candidate bins.  They are the pairs of a width from the
    widest box up to the canvas width and a height from the highest box up
    to the canvas height, each taken in steps of 25 from its lower end, or
    equal to the canvas side, or to the rounded-up square root of the total
    area; no bin comes twice, and bins of smaller area come first. *)
Theorem candidate_bins_characterised (boxes : list SizedBox) (bins : list (Z * Z)) :
  generate_candidate_bins boxes = Ok bins ->
  exists max_width max_height,
    py_max (map sb_width boxes) = Ok max_width /\
    py_max (map sb_height boxes) = Ok max_height /\
    (forall w h, (w, h) ∈ bins <->
       (max_width <= w <= IMAGE_WIDTH /\
        (w = Z.sqrt_up (sumZ sb_area boxes) \/ w = IMAGE_WIDTH \/
         (w - max_width) mod 25 = 0)) /\
       (max_height <= h <= IMAGE_HEIGHT /\
        (h = Z.sqrt_up (sumZ sb_area boxes) \/ h = IMAGE_HEIGHT \/
         (h - max_height) mod 25 = 0))) /\
    NoDup bins /\
    Sorted (fun a b => a.1 * a.2 <= b.1 * b.2) bins.
Proof.
  unfold generate_candidate_bins. intros H.
  apply rbind_Ok in H as (max_width & Hmw & H).
  apply rbind_Ok in H as (max_height & Hmh & H).
  apply rbind_Ok in H as (base & Hbase & H).
  injection H as <-. exists max_width, max_height.
  split; [done|]. split; [done|].
  unfold ceil_sqrt in Hbase. destruct (_ <? 0); [done|]. injection Hbase as <-.
  apply bins_full_spec.
Qed.


End CandidateMore.

Lemma candidate_bins_characterised_witness :
  exists bins max_width max_height,
    SolutionsGen.generate_candidate_bins PackingSpec.two_boxes = Ok bins /\
    py_max (map SolutionsGen.sb_width PackingSpec.two_boxes) = Ok max_width /\
    py_max (map SolutionsGen.sb_height PackingSpec.two_boxes) = Ok max_height /\
    (forall w h, (w, h) ∈ bins <->
       (max_width <= w <= IMAGE_WIDTH /\
        (w = Z.sqrt_up (sumZ SolutionsGen.sb_area PackingSpec.two_boxes) \/
         w = IMAGE_WIDTH \/ (w - max_width) mod 25 = 0)) /\
       (max_height <= h <= IMAGE_HEIGHT /\
        (h = Z.sqrt_up (sumZ SolutionsGen.sb_area PackingSpec.two_boxes) \/
         h = IMAGE_HEIGHT \/ (h - max_height) mod 25 = 0))) /\
    NoDup bins /\
    Sorted (fun a b => a.1 * a.2 <= b.1 * b.2) bins.
Proof.
  destruct (SolutionsGen.generate_candidate_bins PackingSpec.two_boxes) as [bins|e] eqn:H.
  - destruct (candidate_bins_characterised PackingSpec.two_boxes bins H)
      as (max_width & max_height & Hspec).
    exists bins, max_width, max_height. split; [reflexivity|exact Hspec].
  - exfalso. revert H. vm_compute. discriminate.
Defined.

(** * The search for a packing *)

Section PackingOrder.

Import GenerateImages SolutionsGen PlacerSpec.

Variable rectpack : list (Z * Z) -> Z -> Z -> list PackedRect.

Lemma sort_placements_sort_by_color (placements : list Box) :
  sort_placements placements = sort_by_color placements.
Proof. reflexivity. Qed.

(** X15: the list that [pack_boxes] returns is sorted by the position of
    the colour name in the palette, whatever the packer did. *)
Theorem pack_boxes_color_order (boxes : list SizedBox) (result : list Box) :
  pack_boxes rectpack boxes = Ok result -> StronglySorted color_le result.
Proof.
  unfold pack_boxes. intros H. apply rbind_Ok in H as ([p a] & _ & H).
  rewrite sort_placements_sort_by_color in H. by eapply sort_by_color_sorted.
Qed.

End PackingOrder.

Lemma pack_boxes_color_order_witness :
  StronglySorted PlacerSpec.color_le
    [ GenerateImages.mkBox 0 0 100 80 (255, 0, 0) "red";
      GenerateImages.mkBox 100 0 60 60 (0, 255, 0) "green" ].
Proof.
  apply (pack_boxes_color_order PackingSpec.row_pack PackingSpec.two_boxes).
  vm_compute. reflexivity.
Defined.

Section PackingMore.

Import GenerateImages SolutionsGen PackingSpec.

Variable rectpack : list (Z * Z) -> Z -> Z -> list PackedRect.
Variable boxes : list SizedBox.

Hypothesis rectpack_ok :
  forall width height,
    rectpack_contract (dims boxes) width height (rectpack (dims boxes) width height).





(** What [best_packing] leaves when it returns. *)
Lemma best_packing_attempt (placements : list Box) (used_area : Z) :
  best_packing rectpack boxes = Ok (placements, used_area) ->
  exists w h, try_pack_in_bin rectpack boxes w h = Ok (Some (placements, used_area)) /\
              w <= IMAGE_WIDTH /\ h <= IMAGE_HEIGHT.
Proof.
  intros H. apply (best_packing_spec rectpack boxes) in H
    as [(w & h & Hw & Hh & Hatt) _].
  by exists w, h.
Qed.

(** X16: when the packer honours its contract, the boxes that [pack_boxes]
    returns are as many as the input boxes, lie inside one bin that is not
    larger than the canvas, and no two of them overlap under
    [boxes_overlap]. *)
Theorem pack_boxes_disjoint_in_canvas (result : list Box) :
  pack_boxes rectpack boxes = Ok result ->
  length result = length boxes /\
  pairwise PlacerSpec.disjoint result /\
  exists w h, w <= IMAGE_WIDTH /\ h <= IMAGE_HEIGHT /\ Forall (in_bin w h) result.
Proof.
  intros H. apply (pack_boxes_Ok rectpack boxes) in H as (p & a & Hbest & Hperm).
  apply best_packing_attempt in Hbest as (w & h & Hatt & Hw & Hh).
  apply (try_pack_in_bin_Some rectpack boxes rectpack_ok) in Hatt
    as (Hcons & Hin & Hdis & _).
  split_and!.
  - rewrite Hperm. apply Permutation_length in Hcons. by rewrite !length_map in Hcons.
  - eapply pairwise_Permutation; [apply disjoint_sym|symmetry; exact Hperm|done].
  - exists w, h. by rewrite Hperm.
Qed.

(** X17: the result of [pack_boxes] is the best of all candidate bins.
    When the packer honours its contract and the boxes have positive width
    and height, the bounds of the returned placement have at most the area
    that any successful attempt in a candidate bin uses: leaving the loop
    early loses nothing. *)
Theorem pack_boxes_best_candidate (result : list Box) (bins : list (Z * Z))
    (w h : Z) (placements : list Box) (used_area : Z) :
  Forall (fun b => 0 < sb_width b /\ 0 < sb_height b) boxes ->
  pack_boxes rectpack boxes = Ok result ->
  generate_candidate_bins boxes = Ok bins -> (w, h) ∈ bins ->
  try_pack_in_bin rectpack boxes w h = Ok (Some (placements, used_area)) ->
  exists bounds,
    compute_bounds result = Ok bounds /\ bounds_area bounds <= used_area.
Proof.
  intros Hpos H Hbins Hin Hatt.
  apply (pack_boxes_Ok rectpack boxes) in H as (p & a & Hbest & Hperm).
  pose proof Hbest as Hbest'.
  apply best_packing_attempt in Hbest' as (w0 & h0 & Hatt0 & _).
  apply (try_pack_in_bin_Some rectpack boxes rectpack_ok) in Hatt0
    as (_ & _ & _ & _ & bounds & Hb & ->).
  exists bounds. split; [by rewrite (compute_bounds_Permutation _ _ Hperm)|].
  unfold best_packing in Hbest. rewrite Hbins in Hbest. simpl in Hbest.
  apply rbind_Ok in Hbest as (res & Hloop & Hres).
  apply (pack_loop_spec rectpack boxes) in Hloop.
  destruct res as [[p1 a1]|].
  - injection Hres as -> ->.
    destruct Hloop as [_ [Hle|[_ Hall]]]; [|by eapply Hall].
    apply generate_candidate_bins_spec in Hbins as [Hcanvas _].
    destruct (Hcanvas w h Hin) as [Hw Hh].
    pose proof (try_pack_in_bin_area rectpack boxes rectpack_ok w h _ _ Hw Hh Hpos Hatt).
    lia.
  - destruct Hloop as [_ Hnone]. rewrite (Hnone w h Hin) in Hatt. done.
Qed.


End PackingMore.


Lemma pack_boxes_disjoint_in_canvas_witness :
  length [ GenerateImages.mkBox 0 0 100 80 (255, 0, 0) "red";
           GenerateImages.mkBox 100 0 60 60 (0, 255, 0) "green" ]
  = length PackingSpec.two_boxes /\
  pairwise PlacerSpec.disjoint
    [ GenerateImages.mkBox 0 0 100 80 (255, 0, 0) "red";
      GenerateImages.mkBox 100 0 60 60 (0, 255, 0) "green" ] /\
  exists w h,
    w <= IMAGE_WIDTH /\ h <= IMAGE_HEIGHT /\
    Forall (PackingSpec.in_bin w h)
      [ GenerateImages.mkBox 0 0 100 80 (255, 0, 0) "red";
        GenerateImages.mkBox 100 0 60 60 (0, 255, 0) "green" ].
Proof.
  apply (pack_boxes_disjoint_in_canvas PackingSpec.row_pack PackingSpec.two_boxes
           row_pack_two_boxes_contract).
  vm_compute. reflexivity.
Defined.

Lemma pack_boxes_best_candidate_witness :
  exists bounds,
    SolutionsGen.compute_bounds
      [ GenerateImages.mkBox 0 0 100 80 (255, 0, 0) "red";
        GenerateImages.mkBox 100 0 60 60 (0, 255, 0) "green" ] = Ok bounds /\
    PackingSpec.bounds_area bounds <= 13284.
Proof.
  destruct (SolutionsGen.generate_candidate_bins PackingSpec.two_boxes) as [bins|e] eqn:H;
    [|exfalso; revert H; vm_compute; discriminate].
  assert ((800, 600) ∈ bins) as Hin.
  { apply (proj2 (generate_candidate_bins_spec PackingSpec.two_boxes bins H)).
    revert H. vm_compute. intros [= <-]. discriminate. }
  apply (pack_boxes_best_candidate PackingSpec.row_pack PackingSpec.two_boxes
           row_pack_two_boxes_contract _ bins 800 600
           [ GenerateImages.mkBox 0 0 100 80 (255, 0, 0) "red";
             GenerateImages.mkBox 100 0 60 60 (0, 255, 0) "green" ]).
  - repeat constructor.
  - vm_compute. reflexivity.
  - exact H.
  - exact Hin.
  - vm_compute. reflexivity.
Defined.


(** * The occupancy mask and the gaps of validation.py *)

Section MaskFacts.

Import GenerateImages Validation ValidationSpec AreaSpec PlacerSpec.

Variable dominant_color_rgb : Z * Z * Z * Z -> rgb.

Lemma imap_seq_diag {B} (g : nat -> nat -> B) (n : nat) :
  imap g (seq 0 n) = map (fun i => g i i) (seq 0 n).
Proof.
  rewrite (imap_ext _ (fun i _ => g i i)).
  - by rewrite imap_seq_0, length_seq.
  - intros i x Hx. apply lookup_seq in Hx as [-> _]. done.
Qed.

Lemma grid_ext (height width : nat) (f g : nat -> nat -> Z) :
  (forall r c, f r c = g r c) -> grid height width f = grid height width g.
Proof.
  intros H. unfold grid. apply map_ext. intros r. apply map_ext. intros c. apply H.
Qed.

Lemma cv2_rectangle_filled_grid (height width : nat) (f : nat -> nat -> Z)
    (x y w h value : Z) :
  cv2_rectangle_filled (grid height width f) (x, y) (x + w, y + h) value
  = grid height width (fun r c => if filled (x, y, w, h) r c then value else f r c).
Proof.
  unfold cv2_rectangle_filled, grid.
  change (map ?f ?l) with (f <$> l).
  rewrite imap_fmap. unfold compose. rewrite imap_seq_diag.
  apply map_ext. intros r.
  rewrite imap_fmap. unfold compose. rewrite imap_seq_diag.
  apply map_ext. intros c. reflexivity.
Qed.

Lemma replicate_map {A} (n : nat) (a : A) : replicate n a = map (fun _ => a) (seq 0 n).
Proof.
  induction n as [|n IH]; simpl; [done|]. f_equal.
  rewrite IH, <- seq_shift, map_map. done.
Qed.

Lemma zeros_grid (height width : Z) :
  zeros height width = grid (Z.to_nat height) (Z.to_nat width) (fun _ _ => 0).
Proof. unfold zeros, grid. by rewrite !replicate_map. Qed.

Lemma annotate_loop_grid (height width : nat) (bboxes : list (Z * Z * Z * Z)) :
  forall i rectangles f,
  (annotate_loop dominant_color_rgb i bboxes rectangles (grid height width f)).2
  = grid height width
      (fun r c => if existsb (fun b => filled b r c) bboxes then 255 else f r c).
Proof.
  induction bboxes as [|[[[x y] w] h] bboxes IH]; intros i rectangles f; [done|].
  cbn [annotate_loop]. rewrite cv2_rectangle_filled_grid, IH. apply grid_ext. intros r c.
  cbn [existsb]. by destruct (filled (x, y, w, h) r c), (existsb _ bboxes).
Qed.

Lemma annotate_loop_rectangles (bboxes : list (Z * Z * Z * Z)) :
  forall i rectangles mask,
  (annotate_loop dominant_color_rgb i bboxes rectangles mask).1
  = rectangles ++
    imap (fun j '(x, y, w, h) =>
            mkRectangle (i + j) (w * h) w h (dominant_color_rgb (x, y, w, h)) (x, y, w, h))
         bboxes.
Proof.
  induction bboxes as [|[[[x y] w] h] bboxes IH]; intros i rectangles mask; simpl.
  - by rewrite app_nil_r.
  - rewrite IH, <- app_assoc. simpl. rewrite Nat.add_0_r. do 2 f_equal.
    apply imap_ext. intros j [[[x' y'] w'] h'] _. simpl. f_equal. lia.
Qed.

Lemma count_eq_grid (value : Z) (height width : nat) (f : nat -> nat -> Z) :
  count_eq value (grid height width f)
  = sumZ (fun r => sumZ (fun c => if f r c =? value then 1 else 0) (seq 0 width))
         (seq 0 height).
Proof.
  unfold count_eq, grid. rewrite sumZ_map. apply sumZ_ext. intros r _.
  by rewrite sumZ_map.
Qed.

(** X19: the mask that [annotate_and_collect] returns has the shape of
    the image, and its pixel in row [r] and column [c] is 255 exactly when
    some bounding box has the pixel between its corners [(x, y)] and
    [(x + w, y + h)], both included; every other pixel is 0. *)
Theorem annotate_mask_filled (height width : Z) (bboxes : list (Z * Z * Z * Z)) :
  (annotate_and_collect dominant_color_rgb height width bboxes).2
  = grid (Z.to_nat height) (Z.to_nat width)
      (fun r c => if existsb (fun b => filled b r c) bboxes then 255 else 0).
Proof. unfold annotate_and_collect. by rewrite zeros_grid, annotate_loop_grid. Qed.

Lemma occupied_pixels_sum (height width : Z) (bboxes : list (Z * Z * Z * Z)) :
  occupied_pixels (analyze_rectangles_and_empty_space dominant_color_rgb height width bboxes)
  = sumZ (fun r => sumZ (fun c => ind (existsb (fun b => filled b r c) bboxes))
                        (seq 0 (Z.to_nat width)))
         (seq 0 (Z.to_nat height)).
Proof.
  unfold analyze_rectangles_and_empty_space.
  destruct (annotate_and_collect dominant_color_rgb height width bboxes)
    as [rectangles mask] eqn:H.
  assert (mask = (annotate_and_collect dominant_color_rgb height width bboxes).2) as ->
    by by rewrite H.
  unfold annotate_and_collect. rewrite zeros_grid, annotate_loop_grid. simpl.
  rewrite count_eq_grid. apply sumZ_ext. intros r _. apply sumZ_ext. intros c _.
  by destruct (existsb _ bboxes).
Qed.

(** X20: the counts of the summary.  For an image of [height] rows and
    [width] columns the occupied pixels are between 0 and the total, the
    empty pixels are the rest, and the rectangles are the bounding boxes in
    their order, numbered from 1, each with the area [w * h]. *)
Theorem summary_counts (height width : Z) (bboxes : list (Z * Z * Z * Z)) :
  0 <= height -> 0 <= width ->
  let summary :=
    analyze_rectangles_and_empty_space dominant_color_rgb height width bboxes in
  total_pixels summary = width * height /\
  0 <= occupied_pixels summary <= total_pixels summary /\
  empty_pixels summary = total_pixels summary - occupied_pixels summary /\
  0 <= empty_pixels summary /\
  rectangle_count summary = length bboxes /\
  rectangles summary
  = imap (fun j '(x, y, w, h) =>
            mkRectangle (S j) (w * h) w h (dominant_color_rgb (x, y, w, h)) (x, y, w, h))
         bboxes.
Proof.
  intros Hh Hw summary.
  assert (0 <= occupied_pixels summary <= width * height) as Hocc.
  { unfold summary. rewrite occupied_pixels_sum. split.
    - rewrite <- (sumZ_zero (seq 0 (Z.to_nat height))). apply sumZ_le. intros r _.
      rewrite <- (sumZ_zero (seq 0 (Z.to_nat width))). apply sumZ_le. intros c _.
      by destruct (existsb _ bboxes).
    - etransitivity.
      + apply (sumZ_le _ (fun _ => width)). intros r _.
        etransitivity.
        * apply (sumZ_le _ (fun _ => 1)). intros c _. by destruct (existsb _ bboxes).
        * rewrite sumZ_const, length_seq. lia.
      + rewrite sumZ_const, length_seq. lia. }
  assert (rectangles summary
          = (annotate_and_collect dominant_color_rgb height width bboxes).1) as Hr.
  { unfold summary, analyze_rectangles_and_empty_space.
    by destruct (annotate_and_collect dominant_color_rgb height width bboxes). }
  assert (total_pixels summary = width * height /\
          empty_pixels summary = total_pixels summary - occupied_pixels summary /\
          rectangle_count summary = length (rectangles summary)) as (Ht & He & Hc).
  { unfold summary, analyze_rectangles_and_empty_space.
    by destruct (annotate_and_collect dominant_color_rgb height width bboxes). }
  unfold annotate_and_collect in Hr. rewrite annotate_loop_rectangles in Hr.
  simpl in Hr. rewrite Ht, He, Hc, Hr, length_imap, Ht. split_and!; try done; lia.
Qed.

Lemma filled_covers (x y w h : Z) (r c : nat) :
  0 <= w -> 0 <= h ->
  filled (x, y, w, h) r c = covers (inflate (x, y, w, h)) (Z.of_nat c) (Z.of_nat r).
Proof.
  intros Hw Hh. unfold filled, covers, inflate. simpl.
  apply eq_true_iff_eq. rewrite !andb_true_iff, !Z.leb_le, !Z.ltb_lt. lia.
Qed.

Lemma sumZ_ind_nonneg {A} (P : A -> bool) (l : list A) : 0 <= sumZ (fun a => ind (P a)) l.
Proof. induction l as [|a l IH]; simpl; [done|]. destruct (P a); simpl; lia. Qed.

Lemma ind_existsb {A} (P : A -> bool) (l : list A) :
  sumZ (fun a => ind (P a)) l <= 1 -> ind (existsb P l) = sumZ (fun a => ind (P a)) l.
Proof.
  induction l as [|a l IH]; simpl; [done|]. intros Hle.
  pose proof (sumZ_ind_nonneg P l). destruct (P a); simpl in *; [lia|].
  apply IH. lia.
Qed.

Lemma sumZ_seq_zrange (F : Z -> Z) (start n : nat) :
  sumZ (fun i => F (Z.of_nat i)) (seq start n) = sumZ F (zrange (Z.of_nat start) n).
Proof.
  revert start. induction n as [|n IH]; intros start; [done|].
  rewrite zrange_succ. cbn [seq]. unfold sumZ at 1 2. cbn [foldr]. fold (sumZ (fun i => F (Z.of_nat i)) (seq (S start) n)).
  fold (sumZ F (zrange (Z.of_nat start + 1) n)).
  rewrite IH. by replace (Z.of_nat (S start)) with (Z.of_nat start + 1) by lia.
Qed.

(** The pixels of rows [top ..] and columns [left ..] that a box covers. *)
Lemma covered_pixels_seq (b : Box) (left top nx ny : nat) :
  0 <= box_width b -> 0 <= box_height b ->
  within (Z.of_nat left) (Z.of_nat top)
         (Z.of_nat left + Z.of_nat nx) (Z.of_nat top + Z.of_nat ny) b ->
  sumZ (fun r => sumZ (fun c => ind (covers b (Z.of_nat c) (Z.of_nat r))) (seq left nx))
       (seq top ny)
  = box_width b * box_height b.
Proof.
  intros Hw Hh Hin. rewrite <- (covered_pixels b _ _ nx ny Hw Hh Hin).
  rewrite <- (sumZ_seq_zrange
                (fun py => sumZ (fun px => ind (covers b px py)) (zrange (Z.of_nat left) nx))).
  apply sumZ_ext. intros r _.
  apply (sumZ_seq_zrange (fun px => ind (covers b px (Z.of_nat r)))).
Qed.

Lemma bbox_inside_inflate (height width : Z) (bbox : Z * Z * Z * Z) :
  bbox_inside height width bbox ->
  0 <= box_width (inflate bbox) /\ 0 <= box_height (inflate bbox) /\
  within 0 0 width height (inflate bbox).
Proof.
  destruct bbox as [[[x y] w] h]. unfold bbox_inside, within, inflate. simpl. lia.
Qed.

Lemma sumZ_cons {A} (f : A -> Z) (a : A) (l : list A) :
  sumZ f (a :: l) = f a + sumZ f l.
Proof. reflexivity. Qed.

Lemma sumZ_rect_area_imap (bboxes : list (Z * Z * Z * Z)) :
  forall i,
  sumZ rect_area
    (imap (fun j '(x, y, w, h) =>
             mkRectangle (i + j) (w * h) w h (dominant_color_rgb (x, y, w, h)) (x, y, w, h))
          bboxes)
  = sumZ (fun '(x, y, w, h) => w * h) bboxes.
Proof.
  induction bboxes as [|[[[x y] w] h] bboxes IH]; intros i; [done|].
  rewrite imap_cons, !sumZ_cons. cbn [rect_area]. f_equal.
  rewrite <- (IH (S i)). f_equal.
  apply imap_ext. intros j [[[x' y'] w'] h'] _. unfold compose. f_equal. lia.
Qed.

(** X21: how far the occupied pixels run ahead of the areas.  For
    bounding boxes without a negative side whose corners are pixels of the
    image and that stay clear of each other with one more column and row
    each, the mask has [(w + 1) * (h + 1)] pixels set per bounding box,
    [w + h + 1] more than the area [w * h] that the report gives it. *)
Theorem occupied_pixels_inflated (height width : Z) (bboxes : list (Z * Z * Z * Z)) :
  Forall (bbox_inside height width) bboxes ->
  pairwise disjoint (map inflate bboxes) ->
  let summary :=
    analyze_rectangles_and_empty_space dominant_color_rgb height width bboxes in
  occupied_pixels summary = sumZ (fun '(x, y, w, h) => (w + 1) * (h + 1)) bboxes /\
  occupied_pixels summary
  = sumZ rect_area (rectangles summary) + sumZ (fun '(x, y, w, h) => w + h + 1) bboxes.
Proof.
  intros Hin Hdis summary.
  assert (occupied_pixels summary
          = sumZ (fun '(x, y, w, h) => (w + 1) * (h + 1)) bboxes) as Hocc.
  { unfold summary. rewrite occupied_pixels_sum.
    rewrite (sumZ_ext _
               (fun r => sumZ (fun c =>
                  sumZ (fun b => ind (covers (inflate b) (Z.of_nat c) (Z.of_nat r))) bboxes)
                  (seq 0 (Z.to_nat width)))).
    - rewrite (sumZ_ext _
                 (fun r => sumZ (fun b => sumZ (fun c =>
                    ind (covers (inflate b) (Z.of_nat c) (Z.of_nat r)))
                    (seq 0 (Z.to_nat width))) bboxes))
        by (intros r _; apply sumZ_swap).
      rewrite sumZ_swap. apply sumZ_ext. intros [[[x y] w] h] Hb.
      rewrite Forall_forall in Hin.
      destruct (bbox_inside_inflate _ _ _ (Hin _ Hb)) as (Hw & Hh & Hwithin).
      pose proof (Hin _ Hb) as (? & ? & ? & ? & ? & ?).
      rewrite covered_pixels_seq; [done|done|done|].
      unfold within in *. simpl in *. lia.
    - intros r _. apply sumZ_ext. intros c _.
      rewrite (sumZ_ext _ (fun b => ind (filled b r c))).
      + apply ind_existsb.
        rewrite (sumZ_ext _ (fun b => ind (covers (inflate b) (Z.of_nat c) (Z.of_nat r)))).
        * rewrite <- (sumZ_map (fun b' => ind (covers b' (Z.of_nat c) (Z.of_nat r))) inflate).
          by apply covered_once.
        * intros [[[x y] w] h] Hb. rewrite Forall_forall in Hin.
          pose proof (Hin _ Hb) as (? & ? & ? & ? & ? & ?). by rewrite filled_covers.
      + intros [[[x y] w] h] Hb. rewrite Forall_forall in Hin.
        pose proof (Hin _ Hb) as (? & ? & ? & ? & ? & ?). by rewrite filled_covers. }
  split; [done|]. rewrite Hocc.
  assert (rectangles summary
          = (annotate_and_collect dominant_color_rgb height width bboxes).1) as ->.
  { unfold summary, analyze_rectangles_and_empty_space.
    by destruct (annotate_and_collect dominant_color_rgb height width bboxes). }
  unfold annotate_and_collect. rewrite annotate_loop_rectangles, app_nil_l.
  rewrite sumZ_rect_area_imap, <- sumZ_add.
  apply sumZ_ext. intros [[[x y] w] h] _. lia.
Qed.

End MaskFacts.

Lemma summary_counts_witness :
  let summary :=
    Validation.analyze_rectangles_and_empty_space (fun _ => (0, 0, 0)) 64 64
      ValidationSpec.overlapping_bboxes in
  Validation.total_pixels summary = 64 * 64 /\
  0 <= Validation.occupied_pixels summary <= Validation.total_pixels summary /\
  Validation.empty_pixels summary
  = Validation.total_pixels summary - Validation.occupied_pixels summary /\
  0 <= Validation.empty_pixels summary /\
  Validation.rectangle_count summary = length ValidationSpec.overlapping_bboxes /\
  Validation.rectangles summary
  = imap (fun j '(x, y, w, h) =>
            Validation.mkRectangle (S j) (w * h) w h (0, 0, 0) (x, y, w, h))
         ValidationSpec.overlapping_bboxes.
Proof.
  apply (summary_counts (fun _ => (0, 0, 0)) 64 64 ValidationSpec.overlapping_bboxes); lia.
Defined.

Lemma occupied_pixels_inflated_witness :
  let summary :=
    Validation.analyze_rectangles_and_empty_space (fun _ => (0, 0, 0)) 64 64
      ValidationSpec.apart_bboxes in
  Validation.occupied_pixels summary
  = sumZ (fun '(x, y, w, h) => (w + 1) * (h + 1)) ValidationSpec.apart_bboxes /\
  Validation.occupied_pixels summary
  = sumZ Validation.rect_area (Validation.rectangles summary)
    + sumZ (fun '(x, y, w, h) => w + h + 1) ValidationSpec.apart_bboxes.
Proof.
  apply (occupied_pixels_inflated (fun _ => (0, 0, 0)) 64 64 ValidationSpec.apart_bboxes).
  - repeat constructor; simpl; lia.
  - repeat constructor.
Defined.

Section GapFacts.

Import GenerateImages Validation ValidationSpec AreaSpec PlacerSpec.

Variable dominant_color_rgb : Z * Z * Z * Z -> rgb.

Lemma calculate_bounding_box_Ok (r0 : Rectangle) (rectangles : list Rectangle) :
  exists x0 y0 x1 y1,
    py_min (map (fun r => (rect_bbox r).1.1.1) (r0 :: rectangles)) = Ok x0 /\
    py_min (map (fun r => (rect_bbox r).1.1.2) (r0 :: rectangles)) = Ok y0 /\
    py_max (map (fun r => (rect_bbox r).1.1.1 + (rect_bbox r).1.2) (r0 :: rectangles))
    = Ok x1 /\
    py_max (map (fun r => (rect_bbox r).1.1.2 + (rect_bbox r).2) (r0 :: rectangles))
    = Ok y1 /\
    calculate_bounding_box_of_all_rectangles (r0 :: rectangles)
    = Ok (Some (x0, y0, x1 - x0, y1 - y0)).
Proof. unfold calculate_bounding_box_of_all_rectangles. simpl. by eexists _, _, _, _. Qed.

(** What the box around all rectangles is. *)
Lemma bounding_box_spec (r0 : Rectangle) (rectangles : list Rectangle) :
  exists x y w h,
    calculate_bounding_box_of_all_rectangles (r0 :: rectangles) = Ok (Some (x, y, w, h)) /\
    Forall (fun r => bbox_within (x, y, w, h) (rect_bbox r)) (r0 :: rectangles) /\
    (exists r, r ∈ r0 :: rectangles /\ (rect_bbox r).1.1.1 = x) /\
    (exists r, r ∈ r0 :: rectangles /\ (rect_bbox r).1.1.2 = y) /\
    (exists r, r ∈ r0 :: rectangles /\ (rect_bbox r).1.1.1 + (rect_bbox r).1.2 = x + w) /\
    (exists r, r ∈ r0 :: rectangles /\ (rect_bbox r).1.1.2 + (rect_bbox r).2 = y + h).
Proof.
  destruct (calculate_bounding_box_Ok r0 rectangles)
    as (x0 & y0 & x1 & y1 & Hx0 & Hy0 & Hx1 & Hy1 & H).
  exists x0, y0, (x1 - x0), (y1 - y0). split; [done|].
  apply py_min_Ok in Hx0 as [Hx0 Hx0'], Hy0 as [Hy0 Hy0'].
  apply py_max_Ok in Hx1 as [Hx1 Hx1'], Hy1 as [Hy1 Hy1'].
  split_and!.
  - rewrite Forall_forall in Hx0'. rewrite Forall_forall in Hy0'.
    rewrite Forall_forall in Hx1'. rewrite Forall_forall in Hy1'.
    apply Forall_forall. intros r Hr.
    pose proof (Hx0' _ (list_elem_of_fmap_2 (fun r => (rect_bbox r).1.1.1) _ _ Hr)).
    pose proof (Hy0' _ (list_elem_of_fmap_2 (fun r => (rect_bbox r).1.1.2) _ _ Hr)).
    pose proof (Hx1' _ (list_elem_of_fmap_2
                          (fun r => (rect_bbox r).1.1.1 + (rect_bbox r).1.2) _ _ Hr)).
    pose proof (Hy1' _ (list_elem_of_fmap_2
                          (fun r => (rect_bbox r).1.1.2 + (rect_bbox r).2) _ _ Hr)).
    destruct (rect_bbox r) as [[[rx ry] rw] rh]. unfold bbox_within. simpl in *. lia.
  - apply list_elem_of_fmap in Hx0 as (r & -> & Hr). by exists r.
  - apply list_elem_of_fmap in Hy0 as (r & -> & Hr). by exists r.
  - apply list_elem_of_fmap in Hx1 as (r & Heq & Hr). exists r. split; [done|lia].
  - apply list_elem_of_fmap in Hy1 as (r & Heq & Hr). exists r. split; [done|lia].
Qed.

(** X22: [calculate_bounding_box_of_all_rectangles] returns [None]
    exactly for no rectangle and never raises; otherwise its box
    [(x, y, w, h)] contains the bounding box of every rectangle, and each of
    its four sides is a side of some rectangle. *)
Theorem bounding_box_of_all_rectangles (rectangles : list Rectangle) :
  match calculate_bounding_box_of_all_rectangles rectangles with
  | Ok None => rectangles = []
  | Ok (Some (x, y, w, h)) =>
      rectangles <> [] /\
      Forall (fun r => bbox_within (x, y, w, h) (rect_bbox r)) rectangles /\
      (exists r, r ∈ rectangles /\ (rect_bbox r).1.1.1 = x) /\
      (exists r, r ∈ rectangles /\ (rect_bbox r).1.1.2 = y) /\
      (exists r, r ∈ rectangles /\ (rect_bbox r).1.1.1 + (rect_bbox r).1.2 = x + w) /\
      (exists r, r ∈ rectangles /\ (rect_bbox r).1.1.2 + (rect_bbox r).2 = y + h)
  | Raise _ => False
  end.
Proof.
  destruct rectangles as [|r0 rectangles]; [done|].
  destruct (bounding_box_spec r0 rectangles) as (x & y & w & h & -> & H).
  split; [done|exact H].
Qed.

Lemma py_slice_length {A} (a n : Z) (l : list A) :
  0 <= n -> Z.of_nat (length (py_slice a (a + n) l)) <= n.
Proof.
  intros Hn. unfold py_slice. rewrite length_take, length_drop.
  destruct (Z.ltb_spec a 0), (Z.ltb_spec (a + n) 0); lia.
Qed.

Lemma count_eq_range (value : Z) (mask : Mask) :
  0 <= count_eq value mask <= sumZ (fun row => Z.of_nat (length row)) mask.
Proof.
  unfold count_eq.
  assert (forall row : list Z,
            0 <= sumZ (fun v => if v =? value then 1 else 0) row <= Z.of_nat (length row))
    as Hrow.
  { induction row as [|v row IH]; simpl; [lia|]. destruct (v =? value); lia. }
  induction mask as [|row mask IH]; simpl; [lia|]. pose proof (Hrow row). lia.
Qed.

Lemma roi_count_range (mask : Mask) (x y w h : Z) :
  0 <= w -> 0 <= h ->
  0 <= count_eq 255 (map (py_slice x (x + w)) (py_slice y (y + h) mask)) <= w * h.
Proof.
  intros Hw Hh.
  pose proof (count_eq_range 255 (map (py_slice x (x + w)) (py_slice y (y + h) mask)))
    as [Hlo Hhi].
  split; [done|]. etransitivity; [exact Hhi|].
  rewrite sumZ_map.
  etransitivity.
  - apply (sumZ_le _ (fun _ => w)). intros row _. by apply py_slice_length.
  - rewrite sumZ_const. pose proof (py_slice_length y h mask Hh). nia.
Qed.

(** X23: the gap fields of the summary never fail; the content box is
    [None] exactly for no rectangle, and then both counts are 0; for
    rectangles without a negative side the gap pixels lie between 0 and the
    area of the content box, whatever the mask is. *)
Theorem summarize_gaps_range (mask : Mask) (rectangles : list Rectangle) :
  Forall (fun r => 0 <= (rect_bbox r).1.2 /\ 0 <= (rect_bbox r).2) rectangles ->
  exists gaps,
    summarize_gaps mask rectangles = Ok gaps /\
    0 <= gap_pixels gaps <= content_area_pixels gaps /\
    (content_bbox gaps = None <-> rectangles = []) /\
    content_area_pixels gaps
    = match content_bbox gaps with Some (x, y, w, h) => w * h | None => 0 end.
Proof.
  intros Hpos. unfold summarize_gaps.
  destruct rectangles as [|r0 rectangles].
  - eexists. simpl. split; [done|]. simpl. split_and!; [lia|lia|done|done].
  - destruct (bounding_box_spec r0 rectangles)
      as (x & y & w & h & -> & Hwithin & _ & _ & _ & _).
    simpl. eexists. split; [done|]. simpl.
    apply Forall_cons in Hwithin as [H0 _]. apply Forall_cons in Hpos as [[? ?] _].
    destruct (rect_bbox r0) as [[[rx ry] rw] rh]. unfold bbox_within in H0. simpl in *.
    pose proof (roi_count_range mask x y w h). split_and!; [lia|lia|done|done].
Qed.

End GapFacts.

Lemma summarize_gaps_range_witness :
  exists gaps,
    Validation.summarize_gaps (Validation.zeros 8 8)
      [Validation.mkRectangle 1 6 2 3 (0, 0, 0) (1, 1, 2, 3)] = Ok gaps /\
    0 <= Validation.gap_pixels gaps <= Validation.content_area_pixels gaps /\
    (Validation.content_bbox gaps = None <->
     [Validation.mkRectangle 1 6 2 3 (0, 0, 0) (1, 1, 2, 3)] = []) /\
    Validation.content_area_pixels gaps
    = match Validation.content_bbox gaps with Some (x, y, w, h) => w * h | None => 0 end.
Proof.
  apply (summarize_gaps_range (Validation.zeros 8 8)
           [Validation.mkRectangle 1 6 2 3 (0, 0, 0) (1, 1, 2, 3)]).
  repeat constructor; simpl; lia.
Defined.

Section GapUnder.

Import GenerateImages Validation ValidationSpec AreaSpec PlacerSpec.

Variable dominant_color_rgb : Z * Z * Z * Z -> rgb.

Lemma py_slice_map_seq {B} (g : nat -> B) (n : nat) (a len : Z) :
  0 <= a -> 0 <= len -> a + len <= Z.of_nat n ->
  py_slice a (a + len) (map g (seq 0 n)) = map g (seq (Z.to_nat a) (Z.to_nat len)).
Proof.
  intros Ha Hlen Hn. unfold py_slice. rewrite length_map, length_seq.
  destruct (Z.ltb_spec a 0); [lia|]. destruct (Z.ltb_spec (a + len) 0); [lia|].
  rewrite !Z.min_l by lia.
  change (map g ?l) with (g <$> l).
  rewrite <- fmap_drop, <- fmap_take, drop_seq, take_seq.
  f_equal. f_equal; lia.
Qed.

Lemma map_rect_bbox_imap (bboxes : list (Z * Z * Z * Z)) :
  forall i,
  map rect_bbox
    (imap (fun j '(x, y, w, h) =>
             mkRectangle (i + j) (w * h) w h (dominant_color_rgb (x, y, w, h)) (x, y, w, h))
          bboxes)
  = bboxes.
Proof.
  induction bboxes as [|[[[x y] w] h] bboxes IH]; intros i; [done|].
  rewrite imap_cons. cbn [map rect_bbox]. f_equal.
  rewrite <- (IH (S i)) at 2. f_equal.
  apply imap_ext. intros j [[[x' y'] w'] h'] _. unfold compose. f_equal. lia.
Qed.

Lemma sum_le_exists {A} (P Q : A -> bool) (l : list A) :
  sumZ (fun a => ind (P a)) l <= 1 ->
  (forall a, a ∈ l -> P a = true -> Q a = true) ->
  sumZ (fun a => ind (P a)) l <= ind (existsb Q l).
Proof.
  induction l as [|a l IH]; intros Hle HPQ; [done|].
  rewrite sumZ_cons in *. cbn [existsb].
  pose proof (sumZ_ind_nonneg P l).
  destruct (P a) eqn:HP.
  - rewrite (HPQ a) by (done || left). simpl in *. lia.
  - simpl in *. etransitivity; [apply IH; [lia|]|].
    + intros b Hb. apply HPQ. by right.
    + destruct (Q a), (existsb Q l); simpl; lia.
Qed.

Lemma covers_filled (x y w h : Z) (r c : nat) :
  0 <= w -> 0 <= h ->
  covers (box_of_bbox (x, y, w, h)) (Z.of_nat c) (Z.of_nat r) = true ->
  filled (x, y, w, h) r c = true.
Proof.
  intros Hw Hh. unfold covers, filled, box_of_bbox. simpl.
  rewrite !andb_true_iff, !Z.leb_le, !Z.ltb_lt. lia.
Qed.

(** The pixels of a region that are set in the mask are at least as many
    as the bounding boxes in the region have area. *)
Lemma region_count_ge (bboxes : list (Z * Z * Z * Z)) (left top nx ny : nat) :
  Forall (fun b => let '(x, y, w, h) := b in
            0 <= w /\ 0 <= h /\
            within (Z.of_nat left) (Z.of_nat top)
                   (Z.of_nat left + Z.of_nat nx) (Z.of_nat top + Z.of_nat ny)
                   (box_of_bbox b)) bboxes ->
  pairwise disjoint (map box_of_bbox bboxes) ->
  sumZ bbox_area bboxes
  <= sumZ (fun r => sumZ (fun c => ind (existsb (fun b => filled b r c) bboxes))
                         (seq left nx)) (seq top ny).
Proof.
  intros Hin Hdis. rewrite Forall_forall in Hin.
  rewrite (sumZ_ext bbox_area
             (fun b => sumZ (fun r => sumZ (fun c =>
                         ind (covers (box_of_bbox b) (Z.of_nat c) (Z.of_nat r)))
                         (seq left nx)) (seq top ny))).
  - rewrite sumZ_swap. apply sumZ_le. intros r _.
    rewrite sumZ_swap. apply sumZ_le. intros c _.
    apply (sum_le_exists (fun b => covers (box_of_bbox b) (Z.of_nat c) (Z.of_nat r))).
    + rewrite <- (sumZ_map (fun b' => ind (covers b' (Z.of_nat c) (Z.of_nat r))) box_of_bbox).
      by apply covered_once.
    + intros [[[x y] w] h] Hb. destruct (Hin _ Hb) as (? & ? & _). by apply covers_filled.
  - intros [[[x y] w] h] Hb. destruct (Hin _ Hb) as (? & ? & ?).
    symmetry. by apply (covered_pixels_seq (box_of_bbox (x, y, w, h))).
Qed.

(** X24: the gap pixels never exceed the real gaps.  For bounding boxes
    without a negative side that lie in the image and do not overlap, the
    gap pixels of the summary are at most the area of the content box minus
    the areas of the bounding boxes: the mask is filled one column and one
    row too far, which can hide a gap but never invents one. *)
Theorem gap_pixels_undercount (height width : Z) (bboxes : list (Z * Z * Z * Z)) :
  bboxes <> [] -> Forall (bbox_in_image height width) bboxes ->
  pairwise disjoint (map box_of_bbox bboxes) ->
  exists gaps,
    summarize_gaps (annotate_and_collect dominant_color_rgb height width bboxes).2
                   (annotate_and_collect dominant_color_rgb height width bboxes).1
    = Ok gaps /\
    0 <= gap_pixels gaps <= content_area_pixels gaps - sumZ bbox_area bboxes.
Proof.
  intros Hne Hin Hdis.
  assert ((annotate_and_collect dominant_color_rgb height width bboxes).1
          = imap (fun j '(x, y, w, h) =>
                    mkRectangle (1 + j) (w * h) w h (dominant_color_rgb (x, y, w, h))
                                (x, y, w, h)) bboxes) as Hrects.
  { unfold annotate_and_collect. by rewrite annotate_loop_rectangles. }
  assert ((annotate_and_collect dominant_color_rgb height width bboxes).2
          = grid (Z.to_nat height) (Z.to_nat width)
              (fun r c => if existsb (fun b => filled b r c) bboxes then 255 else 0))
    as Hmask.
  { unfold annotate_and_collect. by rewrite zeros_grid, annotate_loop_grid. }
  rewrite Hmask. clear Hmask.
  pose proof (map_rect_bbox_imap bboxes 1) as Hbb. rewrite <- Hrects in Hbb.
  destruct (annotate_and_collect dominant_color_rgb height width bboxes).1
    as [|r0 rectangles] eqn:Hr.
  { simpl in Hbb. by destruct bboxes. }
  destruct (bounding_box_spec r0 rectangles)
    as (x & y & w & h & Hbox & Hwithin & (rx & Hrx & Hx) & (ry & Hry & Hy)
        & (rw & Hrw & Hw) & (rh & Hrh & Hh)).
  assert (forall r, r ∈ r0 :: rectangles -> rect_bbox r ∈ bboxes) as Hmem.
  { intros r Hr'. rewrite <- Hbb. by apply (list_elem_of_fmap_2 rect_bbox). }
  rewrite Forall_forall in Hin.
  assert (0 <= x /\ 0 <= y /\ x + w <= width /\ y + h <= height) as (Hx0 & Hy0 & Hx1 & Hy1).
  { pose proof (Hin _ (Hmem _ Hrx)) as Hix. pose proof (Hin _ (Hmem _ Hry)) as Hiy.
    pose proof (Hin _ (Hmem _ Hrw)) as Hiw. pose proof (Hin _ (Hmem _ Hrh)) as Hih.
    destruct (rect_bbox rx) as [[[? ?] ?] ?], (rect_bbox ry) as [[[? ?] ?] ?],
      (rect_bbox rw) as [[[? ?] ?] ?], (rect_bbox rh) as [[[? ?] ?] ?].
    unfold bbox_in_image in *. simpl in *. lia. }
  assert (Forall (bbox_within (x, y, w, h)) bboxes) as Hall.
  { rewrite <- Hbb. apply Forall_fmap. exact Hwithin. }
  assert (0 <= w /\ 0 <= h) as [Hw0 Hh0].
  { destruct bboxes as [|[[[bx by'] bw] bh] bboxes']; [done|].
    apply Forall_cons in Hall as [Hb _].
    pose proof (Hin (bx, by', bw, bh) ltac:(left)) as Hi.
    unfold bbox_within, bbox_in_image in *. lia. }
  unfold summarize_gaps. rewrite Hbox. simpl. eexists. split; [done|]. simpl.
  pose proof (roi_count_range
                (grid (Z.to_nat height) (Z.to_nat width)
                   (fun r c => if existsb (fun b => filled b r c) bboxes then 255 else 0))
                x y w h Hw0 Hh0) as [_ Hhi].
  split; [lia|].
  assert (sumZ bbox_area bboxes
          <= count_eq 255
               (map (py_slice x (x + w))
                  (py_slice y (y + h)
                     (grid (Z.to_nat height) (Z.to_nat width)
                        (fun r c => if existsb (fun b => filled b r c) bboxes
                                    then 255 else 0))))); [|lia].
  unfold grid. rewrite py_slice_map_seq by lia. rewrite map_map.
  rewrite (map_ext _ (fun r => map (fun c => if existsb (fun b => filled b r c) bboxes
                                            then 255 else 0)
                                   (seq (Z.to_nat x) (Z.to_nat w))))
    by (intros r; apply py_slice_map_seq; lia).
  unfold count_eq. rewrite sumZ_map.
  rewrite (sumZ_ext _ (fun r => sumZ (fun c => ind (existsb (fun b => filled b r c) bboxes))
                                     (seq (Z.to_nat x) (Z.to_nat w)))).
  - apply region_count_ge; [|done].
    rewrite Forall_forall in Hall. apply Forall_forall. intros [[[bx by'] bw] bh] Hb.
    pose proof (Hin _ Hb) as Hi. pose proof (Hall _ Hb) as Hwi.
    unfold bbox_in_image, bbox_within, within, box_of_bbox in *. simpl. lia.
  - intros r _. rewrite sumZ_map. apply sumZ_ext. intros c _.
    by destruct (existsb _ bboxes).
Qed.

End GapUnder.

Lemma gap_pixels_undercount_witness :
  exists gaps,
    Validation.summarize_gaps
      (Validation.annotate_and_collect (fun _ => (0, 0, 0)) 64 64
         ValidationSpec.apart_bboxes).2
      (Validation.annotate_and_collect (fun _ => (0, 0, 0)) 64 64
         ValidationSpec.apart_bboxes).1
    = Ok gaps /\
    0 <= Validation.gap_pixels gaps
      <= Validation.content_area_pixels gaps
         - sumZ ValidationSpec.bbox_area ValidationSpec.apart_bboxes.
Proof.
  apply (gap_pixels_undercount (fun _ => (0, 0, 0)) 64 64 ValidationSpec.apart_bboxes).
  - discriminate.
  - repeat constructor; simpl; lia.
  - repeat constructor.
Defined.

(** * The colour strings of preprocess.py *)

Section HexFacts.

Import Preprocess PreprocessSpec.

Lemma reads_back_all : forallb reads_back (seq 0 256) = true.
Proof. vm_compute. reflexivity. Qed.

Lemma format_02X_byte (n : Z) :
  is_byte n ->
  exists c1 c0 v1 v0,
    format_02X n = String c1 (String c0 "") /\
    hex_value c1 = Some v1 /\ hex_value c0 = Some v0 /\ 16 * v1 + v0 = n.
Proof.
  intros [Hlo Hhi]. pose proof reads_back_all as Hall.
  rewrite forallb_forall in Hall.
  specialize (Hall (Z.to_nat n) ltac:(apply in_seq; lia)). unfold reads_back in Hall.
  rewrite Z2Nat.id in Hall by done.
  destruct (format_02X n) as [|c1 [|c0 [|c s]]]; try discriminate Hall.
  destruct (hex_value c1) as [v1|] eqn:H1; [|discriminate Hall].
  destruct (hex_value c0) as [v0|] eqn:H0; [|discriminate Hall].
  exists c1, c0, v1, v0. split_and!; [done..|].
  by apply Z.eqb_eq.
Qed.

(** X25: for a colour whose three channels are bytes, [rgb_to_hex] returns
    a string of seven characters, [#] and two upper-case hexadecimal digits
    per channel, that reads back as the colour; so different colours get
    different strings. *)
Theorem rgb_to_hex_round_trip (r g b : Z) :
  is_byte r -> is_byte g -> is_byte b ->
  String.length (rgb_to_hex (r, g, b)) = 7%nat /\
  hex_to_rgb (rgb_to_hex (r, g, b)) = Some (r, g, b) /\
  forall r' g' b', is_byte r' -> is_byte g' -> is_byte b' ->
    rgb_to_hex (r', g', b') = rgb_to_hex (r, g, b) -> (r', g', b') = (r, g, b).
Proof.
  assert (forall r g b, is_byte r -> is_byte g -> is_byte b ->
            String.length (rgb_to_hex (r, g, b)) = 7%nat /\
            hex_to_rgb (rgb_to_hex (r, g, b)) = Some (r, g, b)) as Hback.
  { clear. intros r g b Hr Hg Hb.
    destruct (format_02X_byte r Hr) as (r1 & r0 & vr1 & vr0 & Er & Hr1 & Hr0 & Hvr).
    destruct (format_02X_byte g Hg) as (g1 & g0 & vg1 & vg0 & Eg & Hg1 & Hg0 & Hvg).
    destruct (format_02X_byte b Hb) as (b1 & b0 & vb1 & vb0 & Eb & Hb1 & Hb0 & Hvb).
    unfold rgb_to_hex. rewrite Er, Eg, Eb. simpl. split; [done|].
    rewrite Hr1, Hr0, Hg1, Hg0, Hb1, Hb0. simpl. by rewrite Hvr, Hvg, Hvb. }
  intros Hr Hg Hb. destruct (Hback r g b Hr Hg Hb) as [Hlen Hrt].
  split; [done|]. split; [done|].
  intros r' g' b' Hr' Hg' Hb' Heq.
  destruct (Hback r' g' b' Hr' Hg' Hb') as [_ Hrt']. congruence.
Qed.

End HexFacts.

Lemma rgb_to_hex_round_trip_witness :
  String.length (Preprocess.rgb_to_hex (255, 165, 0)) = 7%nat /\
  PreprocessSpec.hex_to_rgb (Preprocess.rgb_to_hex (255, 165, 0)) = Some (255, 165, 0) /\
  forall r' g' b',
    PreprocessSpec.is_byte r' -> PreprocessSpec.is_byte g' -> PreprocessSpec.is_byte b' ->
    Preprocess.rgb_to_hex (r', g', b') = Preprocess.rgb_to_hex (255, 165, 0) ->
    (r', g', b') = (255, 165, 0).
Proof.
  apply (rgb_to_hex_round_trip 255 165 0); unfold PreprocessSpec.is_byte; lia.
Defined.
